(** * Sign-AI-Platform backend: a shallow embedding and its verified properties

    The development follows the layout of the Python backend:

    - [Py]               the fragment of Python the services rely on: unicode
                         strings as code-point lists, exceptions, insertion
                         ordered dictionaries;
    - [Translation]      api/routes/translation.py ([detect_language],
                         [translate_text]);
    - [ConnectionManager] api/config.py (the WebSocket registry);
    - [DualTranslator]   services/dual_translator.py (cache, BLEU evaluator,
                         [text_to_sign]);
    - [STGCN]            services/stgcn_model.py ([_build_adjacency_matrix]);
    - [SignRecognition]  services/sign_recognition.py ([_apply_smoothing]);
    - [Float64]          IEEE 754 binary64, the arithmetic of Python's
                         [float] and of NumPy's [float64];
    - [Numpy]            the vector operations of the speaker search, over
                         the reals;
    - [AudioPreprocessor] services/audio_preprocessor.py ([normalize]);
    - [Main]             main.py (the exception handlers);
    - [SignGrammar]      services/sign_grammar.py (word-order conversion);
    - [SpeakerDatabase]  utils/speaker_db.py (the profiles and the comparison
                         the search shares with [verify_speaker]);
    - [SpeakerVerification] utils/speaker_db.py ([verify_speaker]).

    Where a property depends on what floating-point arithmetic does
    ([normalize], [verify_speaker], [smooth_sequence]) the numbers are
    binary64 values and the operations those of [Float64]; NumPy's
    reductions ([np.mean], [np.dot], [np.linalg.norm]), whose order of
    additions is the library's, are parameters.  Elsewhere floating-point
    quantities are real numbers ([R]) or rationals ([Q]). *)

From Stdlib Require Import List Bool Arith ZArith NArith QArith String Ascii.
From Stdlib Require Import Lia Permutation.
From Stdlib Require Import Reals Lra.
From Stdlib Require Import SpecFloat.
Import ListNotations.

Close Scope R_scope.
Close Scope Q_scope.

(* ================================================================== *)
(** * Python fragment *)
(* ================================================================== *)

Module Py.

(** A Python [str] is a sequence of Unicode code points. *)
Definition pystr := list N.

Definition pystr_eq_dec : forall a b : pystr, {a = b} + {a <> b} :=
  list_eq_dec N.eq_dec.

Definition pystr_eqb (a b : pystr) : bool :=
  if pystr_eq_dec a b then true else false.

(** Source literals are written as UTF-8 byte strings and decoded once. *)
Definition byte_of (a : ascii) : N := N_of_ascii a.

Fixpoint bytes_of (s : string) : list N :=
  match s with
  | EmptyString => []
  | String a r => byte_of a :: bytes_of r
  end.

Definition cont (b : N) : N := N.land b 63.

Fixpoint utf8_decode (bs : list N) : pystr :=
  match bs with
  | [] => []
  | b :: r =>
    if (b <? 128)%N then b :: utf8_decode r
    else if (b <? 224)%N then
      match r with
      | c1 :: r1 =>
        N.lor (N.shiftl (N.land b 31) 6) (cont c1) :: utf8_decode r1
      | [] => [b]
      end
    else if (b <? 240)%N then
      match r with
      | c1 :: c2 :: r2 =>
        N.lor (N.shiftl (N.land b 15) 12)
              (N.lor (N.shiftl (cont c1) 6) (cont c2)) :: utf8_decode r2
      | _ => [b]
      end
    else
      match r with
      | c1 :: c2 :: c3 :: r3 =>
        N.lor (N.shiftl (N.land b 7) 18)
              (N.lor (N.shiftl (cont c1) 12)
                     (N.lor (N.shiftl (cont c2) 6) (cont c3))) :: utf8_decode r3
      | _ => [b]
      end
  end.

Definition u (s : string) : pystr := utf8_decode (bytes_of s).

(** Truthiness of a string: [not s] holds exactly for the empty string. *)
Definition truthy (s : pystr) : bool :=
  match s with [] => false | _ => true end.

(** [str.isspace] on one character (the characters [str.strip()] and the
    regular-expression class [\s] treat as whitespace). *)
Definition isspace (c : N) : bool :=
  ((9 <=? c) && (c <=? 13) || (28 <=? c) && (c <=? 32)
   || (c =? 133) || (c =? 160) || (c =? 5760)
   || (8192 <=? c) && (c <=? 8202)
   || (c =? 8232) || (c =? 8233) || (c =? 8239) || (c =? 8287)
   || (c =? 12288))%N.

Fixpoint lstrip (s : pystr) : pystr :=
  match s with
  | [] => []
  | c :: r => if isspace c then lstrip r else s
  end.

Definition rstrip (s : pystr) : pystr := rev (lstrip (rev s)).

(** [s.strip()] *)
Definition strip (s : pystr) : pystr := rstrip (lstrip s).

(** [sep.join(parts)] *)
Fixpoint join (sep : pystr) (parts : list pystr) : pystr :=
  match parts with
  | [] => []
  | [p] => p
  | p :: rest => p ++ sep ++ join sep rest
  end.

(** The maximal runs of characters that are not delimiters, in order:
    what [s.split()] returns for the whitespace delimiters and what
    [re.findall('[^...]+', s)] returns for a negated character class.
    [cur] is the run being read. *)
Fixpoint fields (delim : N -> bool) (cur : pystr) (s : pystr) : list pystr :=
  match s with
  | [] => match cur with [] => [] | _ => [cur] end
  | c :: r =>
    if delim c then
      match cur with
      | [] => fields delim [] r
      | _ => cur :: fields delim [] r
      end
    else fields delim (cur ++ [c]) r
  end.

(** [s.split()] *)
Definition split (s : pystr) : list pystr := fields isspace [] s.

(** Exceptions.  [HTTPException] carries a status code and a detail text;
    every other exception is recorded by its class name and [str(e)]. *)
Inductive exn : Type :=
| HTTPException (status_code : Z) (detail : pystr)
| PyError (type_name : string) (message : pystr).

(** The outcome of a call that may raise. *)
Inductive result (A : Type) : Type :=
| Ok (value : A)
| Raise (e : exn).
Arguments Ok {A} value.
Arguments Raise {A} e.

Definition bind {A B} (c : result A) (k : A -> result B) : result B :=
  match c with
  | Ok a => k a
  | Raise e => Raise e
  end.

Notation "x <- c ;; k" := (bind c (fun x => k))
  (at level 61, c at next level, right associativity).

(** [str(e)] *)
Definition str_of_exn (e : exn) : pystr :=
  match e with
  | HTTPException _ d => d
  | PyError _ m => m
  end.

(** ** Insertion-ordered dictionaries

    A Python [dict] iterates in insertion order and [min]/[max] over it break
    ties by that order; assigning to an existing key keeps its position. *)
Section Dict.
Context {K V : Type}.
Variable K_eq_dec : forall a b : K, {a = b} + {a <> b}.

Definition dict := list (K * V).

Fixpoint dict_get (d : dict) (k : K) : option V :=
  match d with
  | [] => None
  | (k', v) :: r => if K_eq_dec k k' then Some v else dict_get r k
  end.

Definition dict_mem (d : dict) (k : K) : bool :=
  match dict_get d k with Some _ => true | None => false end.

(** [d[k] = v] *)
Fixpoint dict_set (d : dict) (k : K) (v : V) : dict :=
  match d with
  | [] => [(k, v)]
  | (k', v') :: r =>
    if K_eq_dec k k' then (k', v) :: r else (k', v') :: dict_set r k v
  end.

(** [del d[k]] (callers test membership first) *)
Fixpoint dict_del (d : dict) (k : K) : dict :=
  match d with
  | [] => []
  | (k', v') :: r =>
    if K_eq_dec k k' then r else (k', v') :: dict_del r k
  end.

Definition dict_keys (d : dict) : list K := map fst d.

(** Keys are unique: what every dictionary built from [{}] satisfies. *)
Definition dict_wf (d : dict) : Prop := NoDup (dict_keys d).

End Dict.

Section DictFacts.
Context {K V : Type}.
Variable K_eq_dec : forall a b : K, {a = b} + {a <> b}.
Local Abbreviation get := (dict_get K_eq_dec).
Local Abbreviation mem := (dict_mem K_eq_dec).
Local Abbreviation set := (dict_set K_eq_dec).
Local Abbreviation del := (dict_del K_eq_dec).
Implicit Types (d : @dict K V) (k : K) (v : V).

Lemma dict_mem_keys d k : mem d k = true <-> In k (dict_keys d).
Proof.
  unfold dict_mem. induction d as [|[k' v'] r IH]; simpl.
  - split; [discriminate | tauto].
  - destruct (K_eq_dec k k') as [->|Hne].
    + split; auto.
    + rewrite IH. split; [tauto | intros [E|H]; [congruence | exact H]].
Qed.

Lemma dict_get_In d k v : get d k = Some v -> In (k, v) d.
Proof.
  induction d as [|[k' v'] r IH]; simpl; [discriminate|].
  destruct (K_eq_dec k k') as [->|Hne]; [intros [= ->]; now left | auto].
Qed.

Lemma dict_In_get d k v : dict_wf d -> In (k, v) d -> get d k = Some v.
Proof.
  unfold dict_wf. induction d as [|[k' v'] r IH]; simpl; [tauto|].
  intros Hnd [E|Hin]; inversion Hnd; subst.
  - inversion E; subst. destruct (K_eq_dec k k); congruence.
  - destruct (K_eq_dec k k') as [->|Hne]; [|auto].
    exfalso. apply H1. change k' with (fst (k', v)). now apply in_map.
Qed.

Lemma dict_get_set_eq d k v : get (set d k v) k = Some v.
Proof.
  induction d as [|[k' v'] r IH]; simpl.
  - destruct (K_eq_dec k k); congruence.
  - destruct (K_eq_dec k k') as [->|Hne]; simpl.
    + destruct (K_eq_dec k' k'); congruence.
    + destruct (K_eq_dec k k'); congruence.
Qed.

Lemma dict_get_set_neq d k k' v : k <> k' -> get (set d k v) k' = get d k'.
Proof.
  intros Hne. induction d as [|[k0 v0] r IH]; simpl.
  - destruct (K_eq_dec k' k); congruence.
  - destruct (K_eq_dec k k0) as [->|Hne0]; simpl.
    + destruct (K_eq_dec k' k0); congruence.
    + destruct (K_eq_dec k' k0); congruence.
Qed.

Lemma dict_keys_del_subset d k k' :
  In k' (dict_keys (del d k)) -> In k' (dict_keys d).
Proof.
  induction d as [|[k0 v0] r IH]; simpl; [tauto|].
  destruct (K_eq_dec k k0); simpl; tauto.
Qed.

Lemma dict_wf_del d k : dict_wf d -> dict_wf (del d k).
Proof.
  unfold dict_wf. induction d as [|[k0 v0] r IH]; simpl; [auto|].
  intros Hnd. inversion Hnd; subst.
  destruct (K_eq_dec k k0); simpl; [assumption|].
  constructor; [|auto]. intros Hin. apply H1. eapply dict_keys_del_subset, Hin.
Qed.

Lemma dict_keys_set d k v :
  dict_keys (set d k v) =
  if mem d k then dict_keys d else dict_keys d ++ [k].
Proof.
  unfold dict_mem. induction d as [|[k0 v0] r IH]; simpl; [reflexivity|].
  destruct (K_eq_dec k k0) as [->|Hne]; simpl; [reflexivity|].
  rewrite IH. now destruct (get r k).
Qed.

Lemma dict_wf_set d k v : dict_wf d -> dict_wf (set d k v).
Proof.
  unfold dict_wf. intros Hnd. rewrite dict_keys_set.
  destruct (mem d k) eqn:E; [assumption|].
  apply NoDup_app; [assumption | repeat constructor; simpl; tauto |].
  intros a Ha Hb. simpl in Hb. destruct Hb as [<-|[]].
  apply dict_mem_keys in Ha. congruence.
Qed.

Lemma dict_get_del_eq d k : dict_wf d -> get (del d k) k = None.
Proof.
  unfold dict_wf. induction d as [|[k0 v0] r IH]; simpl; [reflexivity|].
  intros Hnd. inversion Hnd; subst.
  destruct (K_eq_dec k k0) as [->|Hne]; simpl.
  - destruct (get r k0) eqn:E; [|reflexivity].
    exfalso. apply H1. apply dict_get_In in E.
    change k0 with (fst (k0, v)). now apply in_map.
  - destruct (K_eq_dec k k0); [congruence | auto].
Qed.

Lemma dict_get_del_neq d k k' : k <> k' -> get (del d k) k' = get d k'.
Proof.
  intros Hne. induction d as [|[k0 v0] r IH]; simpl; [reflexivity|].
  destruct (K_eq_dec k k0) as [->|Hne0]; simpl.
  - destruct (K_eq_dec k' k0); congruence.
  - destruct (K_eq_dec k' k0); congruence.
Qed.

Lemma dict_length_del d k :
  mem d k = true -> S (List.length (del d k)) = List.length d.
Proof.
  unfold dict_mem. induction d as [|[k0 v0] r IH]; simpl; [discriminate|].
  destruct (K_eq_dec k k0); simpl; [reflexivity|].
  intros H. now rewrite IH.
Qed.

Lemma dict_length_del_le d k : (List.length (del d k) <= List.length d)%nat.
Proof.
  induction d as [|[k0 v0] r IH]; simpl; [lia|].
  destruct (K_eq_dec k k0); simpl; lia.
Qed.

Lemma dict_length_set d k v :
  List.length (set d k v) = if mem d k then List.length d else S (List.length d).
Proof.
  unfold dict_mem. induction d as [|[k0 v0] r IH]; simpl; [reflexivity|].
  destruct (K_eq_dec k k0); simpl; [reflexivity|].
  rewrite IH. now destruct (get r k).
Qed.

End DictFacts.

(** The literals decode to the code points Python sees. *)
Example u_examples :
  u "zh" = [122; 104]%N
  /\ u "你好" = [20320; 22909]%N
  /\ split (u "  the cat  sat ") = [u "the"; u "cat"; u "sat"]
  /\ join (u " ") [u "a"; u "b"] = u "a b"
  /\ strip (u "  hi  ") = u "hi".
Proof. repeat split. Qed.

(** [try: body except Exception as e: handler(e)] *)
Definition try_except {A} (body : result A) (handler : exn -> result A)
  : result A :=
  match body with
  | Ok v => Ok v
  | Raise e => handler e
  end.

End Py.

(* ================================================================== *)
(** * api/routes/translation.py *)
(* ================================================================== *)

Module Translation.
Import Py.

(** The two [except] clauses every route of the group ends with:
    [except HTTPException: raise] and
    [except Exception as e: raise HTTPException(500, f"<prefix>{str(e)}")]. *)
Definition route_catch (prefix : pystr) (e : exn) : exn :=
  match e with
  | HTTPException s d => HTTPException s d
  | PyError _ _ => HTTPException 500 (prefix ++ str_of_exn e)
  end.

Definition guarded {A} (prefix : pystr) (body : result A) : result A :=
  match body with
  | Ok v => Ok v
  | Raise e => Raise (route_catch prefix e)
  end.

(** ** [detect_language] *)

Record DetectResponse := {
  success : bool;
  text : pystr;
  detected_language : pystr;
  language_name : pystr;
  confidence : Q
}.

(** ['一' <= char <= '鿿'] *)
Definition is_cjk (char : N) : bool :=
  ((19968 <=? char) && (char <=? 40959))%N.

Definition detect_language_body (text : pystr) : result DetectResponse :=
  if negb (truthy text) || negb (truthy (strip text)) then
    Raise (HTTPException 400 (u "文本不能为空"))
  else
    let '(detected_lang, conf, name) :=
      if existsb is_cjk text
      then (u "zh", (95 # 100)%Q, u "Chinese")
      else (u "en", (88 # 100)%Q, u "English") in
    Ok {| success := true;
          text := text;
          detected_language := detected_lang;
          language_name := name;
          confidence := conf |}.

Definition detect_language (text : pystr) : result DetectResponse :=
  guarded (u "语言检测失败: ") (detect_language_body text).

(** ** [translate_text] *)

Record Settings := {
  DEFAULT_SOURCE_LANG : pystr;
  DEFAULT_TARGET_LANG : pystr
}.

Definition settings : Settings :=
  {| DEFAULT_SOURCE_LANG := u "zh"; DEFAULT_TARGET_LANG := u "en" |}.

Record TranslationRequest := {
  req_text : pystr;
  req_source_lang : option pystr;
  req_target_lang : option pystr
}.

Record TranslationResponse := {
  resp_success : bool;
  original_text : pystr;
  translated_text : pystr;
  source_lang : pystr;
  target_lang : pystr;
  resp_confidence : Q;
  message : pystr
}.

(** [x or default] on an optional string *)
Definition or_default (x : option pystr) (default : pystr) : pystr :=
  match x with
  | Some s => if truthy s then s else default
  | None => default
  end.

Definition translate_text_body (request : TranslationRequest)
  : result TranslationResponse :=
  let source := or_default (req_source_lang request) (DEFAULT_SOURCE_LANG settings) in
  let target := or_default (req_target_lang request) (DEFAULT_TARGET_LANG settings) in
  if pystr_eqb source target then
    Raise (HTTPException 400 (u "源语言和目标语言不能相同"))
  else
    let translated :=
      if pystr_eqb source (u "zh") && pystr_eqb target (u "en")
      then u "[EN] " ++ req_text request
      else if pystr_eqb source (u "en") && pystr_eqb target (u "zh")
      then u "[中文] " ++ req_text request
      else u "[" ++ target ++ u "] " ++ req_text request in
    Ok {| resp_success := true;
          original_text := req_text request;
          translated_text := translated;
          source_lang := source;
          target_lang := target;
          resp_confidence := (95 # 100)%Q;
          message := u "翻译成功" |}.

Definition translate_text_prefix : pystr := u "翻译失败: ".

Definition translate_text (request : TranslationRequest)
  : result TranslationResponse :=
  guarded translate_text_prefix (translate_text_body request).

(** *** Facts about [strip] *)

Lemma lstrip_nil_iff (s : pystr) :
  lstrip s = [] <-> forallb isspace s = true.
Proof.
  induction s as [|c r IH]; simpl.
  - tauto.
  - destruct (isspace c); simpl.
    + exact IH.
    + split; discriminate.
Qed.

Lemma forallb_isspace_lstrip (s : pystr) :
  forallb isspace (lstrip s) = forallb isspace s.
Proof.
  induction s as [|c r IH]; simpl; [reflexivity|].
  destruct (isspace c) eqn:E; simpl; [exact IH | now rewrite E].
Qed.

Lemma forallb_rev {A} (f : A -> bool) (l : list A) :
  forallb f (rev l) = forallb f l.
Proof.
  induction l as [|a l IH]; simpl; [reflexivity|].
  rewrite forallb_app, IH; simpl. rewrite andb_true_r. apply andb_comm.
Qed.

Lemma rstrip_nil_iff (s : pystr) :
  rstrip s = [] <-> forallb isspace s = true.
Proof.
  unfold rstrip. rewrite <- (forallb_rev isspace s), <- lstrip_nil_iff.
  split; intro H.
  - apply (f_equal (@rev N)) in H. now rewrite rev_involutive in H.
  - now rewrite H.
Qed.

(** [text.strip()] is empty exactly when every character is whitespace. *)
Lemma strip_nil_iff (s : pystr) :
  strip s = [] <-> forallb isspace s = true.
Proof.
  unfold strip. rewrite rstrip_nil_iff. now rewrite forallb_isspace_lstrip.
Qed.

(** The blank test [not text or not text.strip()]. *)
Definition blank (text : pystr) : bool :=
  negb (truthy text) || negb (truthy (strip text)).

Lemma blank_iff (text : pystr) :
  blank text = true <-> (forall c, In c text -> isspace c = true).
Proof.
  unfold blank. rewrite <- forallb_forall, <- strip_nil_iff.
  destruct text as [|c r]; simpl.
  - split; reflexivity.
  - destruct (strip (c :: r)); simpl; split; congruence.
Qed.

Lemma detect_language_blank (text : pystr) :
  blank text = true ->
  detect_language text = Raise (HTTPException 400 (u "文本不能为空")).
Proof.
  unfold blank, detect_language, detect_language_body. intros ->. reflexivity.
Qed.

Lemma detect_language_not_blank (text : pystr) :
  blank text = false ->
  detect_language text =
    Ok (if existsb is_cjk text
        then {| success := true; text := text; detected_language := u "zh";
                language_name := u "Chinese"; confidence := (95 # 100)%Q |}
        else {| success := true; text := text; detected_language := u "en";
                language_name := u "English"; confidence := (88 # 100)%Q |}).
Proof.
  unfold blank, detect_language, detect_language_body. intros ->.
  destruct (existsb is_cjk text); reflexivity.
Qed.

Lemma is_cjk_iff (c : N) :
  is_cjk c = true <-> (19968 <= c <= 40959)%N.
Proof.
  unfold is_cjk. rewrite andb_true_iff, !N.leb_le. tauto.
Qed.

(** C1. For every text: a text that is empty or consists of whitespace only
    is rejected with [HTTPException 400]; any other text containing a
    character of U+4E00..U+9FFF is reported as ["zh"] with confidence 0.95;
    any other text is reported as ["en"] with confidence 0.88.  In
    particular ["hello world"] gives en/0.88, ["你好"] gives zh/0.95 and the
    empty text is rejected. *)
Theorem detect_language_spec :
  (forall text,
      (forall c, In c text -> isspace c = true) ->
      detect_language text = Raise (HTTPException 400 (u "文本不能为空")))
  /\ (forall text,
      (exists c, In c text /\ isspace c = false) ->
      (exists c, In c text /\ (19968 <= c <= 40959)%N) ->
      exists r, detect_language text = Ok r
                /\ detected_language r = u "zh"
                /\ confidence r = (95 # 100)%Q)
  /\ (forall text,
      (exists c, In c text /\ isspace c = false) ->
      (forall c, In c text -> ~ (19968 <= c <= 40959)%N) ->
      exists r, detect_language text = Ok r
                /\ detected_language r = u "en"
                /\ confidence r = (88 # 100)%Q)
  /\ (exists r, detect_language (u "hello world") = Ok r
                /\ detected_language r = u "en" /\ confidence r = (88 # 100)%Q)
  /\ (exists r, detect_language (u "你好") = Ok r
                /\ detected_language r = u "zh" /\ confidence r = (95 # 100)%Q)
  /\ detect_language (u "") = Raise (HTTPException 400 (u "文本不能为空")).
Proof.
  assert (NB : forall text, (exists c, In c text /\ isspace c = false) ->
                            blank text = false).
  { intros text (c & Hin & Hc). destruct (blank text) eqn:E; [|reflexivity].
    rewrite blank_iff in E. rewrite (E c Hin) in Hc. discriminate. }
  repeat split.
  - intros text H. apply detect_language_blank. now apply blank_iff.
  - intros text Hnb (c & Hin & Hc).
    rewrite (detect_language_not_blank _ (NB _ Hnb)).
    assert (E : existsb is_cjk text = true).
    { apply existsb_exists. exists c. split; [exact Hin|]. now apply is_cjk_iff. }
    rewrite E. eexists. repeat split.
  - intros text Hnb Hno.
    rewrite (detect_language_not_blank _ (NB _ Hnb)).
    assert (E : existsb is_cjk text = false).
    { destruct (existsb is_cjk text) eqn:E; [|reflexivity].
      apply existsb_exists in E. destruct E as (c & Hin & Hc).
      apply is_cjk_iff in Hc. now destruct (Hno c Hin). }
    rewrite E. eexists. repeat split.
  - eexists. repeat split.
  - eexists. repeat split.
Qed.

(** The stub translation of the default language pair. *)
Example translate_text_default :
  translate_text {| req_text := u "你好"; req_source_lang := None;
                    req_target_lang := None |}
  = Ok {| resp_success := true; original_text := u "你好";
          translated_text := u "[EN] 你好"; source_lang := u "zh";
          target_lang := u "en"; resp_confidence := (95 # 100)%Q;
          message := u "翻译成功" |}
  /\ translate_text {| req_text := u "hi"; req_source_lang := Some (u "en");
                       req_target_lang := Some (u "en") |}
     = Raise (HTTPException 400 (u "源语言和目标语言不能相同")).
Proof. split; reflexivity. Qed.

End Translation.

(* ================================================================== *)
(** * api/config.py: the WebSocket connection registry *)
(* ================================================================== *)

Module ConnectionManager.
Import Py.

Section Registry.
(** The JSON messages sent over a socket. *)
Context {Message : Type}.

(** A WebSocket, as far as the registry uses it: [accept()] and
    [send_json(message)], each of which may raise. *)
Record WebSocket := {
  accept : result unit;
  send_json : Message -> result unit
}.

Record t := {
  active_connections : @dict pystr WebSocket;
  connection_count : Z
}.

Abbreviation get := (dict_get pystr_eq_dec).
Abbreviation mem := (dict_mem pystr_eq_dec).

(** [__init__] *)
Definition init : t :=
  {| active_connections := []; connection_count := 0 |}.

Definition connect (self : t) (websocket : WebSocket) (client_id : pystr)
  : result t :=
  _ <- accept websocket ;;
  Ok {| active_connections :=
          dict_set pystr_eq_dec (active_connections self) client_id websocket;
        connection_count := connection_count self + 1 |}.

Definition disconnect (self : t) (client_id : pystr) : t :=
  if mem (active_connections self) client_id then
    {| active_connections :=
         dict_del pystr_eq_dec (active_connections self) client_id;
       connection_count := connection_count self - 1 |}
  else self.

Definition send_personal_message (self : t) (message : Message)
           (client_id : pystr) : result (t * bool) :=
  match get (active_connections self) client_id with
  | Some connection =>
    try_except
      (_ <- send_json connection message ;; Ok (self, true))
      (fun _ => Ok (disconnect self client_id, false))
  | None => Ok (self, false)
  end.

(** [exclude_client_id and client_id == exclude_client_id] *)
Definition excluded (exclude_client_id : option pystr) (client_id : pystr)
  : bool :=
  match exclude_client_id with
  | Some e => truthy e && pystr_eqb client_id e
  | None => false
  end.

(** The broadcast loop over [active_connections.items()].  The trace records
    every send attempted, in order, with whether it went through. *)
Fixpoint broadcast_loop (items : list (pystr * WebSocket)) (message : Message)
         (exclude_client_id : option pystr)
         (disconnected_clients : list pystr) (trace : list (pystr * bool))
  : list pystr * list (pystr * bool) :=
  match items with
  | [] => (disconnected_clients, trace)
  | (client_id, connection) :: rest =>
    if excluded exclude_client_id client_id then
      broadcast_loop rest message exclude_client_id disconnected_clients trace
    else
      match send_json connection message with
      | Ok _ =>
        broadcast_loop rest message exclude_client_id
                       disconnected_clients (trace ++ [(client_id, true)])
      | Raise _ =>
        broadcast_loop rest message exclude_client_id
                       (disconnected_clients ++ [client_id])
                       (trace ++ [(client_id, false)])
      end
  end.

Definition broadcast (self : t) (message : Message)
           (exclude_client_id : option pystr) : t * list (pystr * bool) :=
  let '(disconnected_clients, trace) :=
    broadcast_loop (active_connections self) message exclude_client_id [] [] in
  (fold_left disconnect disconnected_clients self, trace).

Definition get_connection_count (self : t) : Z := connection_count self.

Definition is_connected (self : t) (client_id : pystr) : bool :=
  mem (active_connections self) client_id.

Definition get_all_client_ids (self : t) : list pystr :=
  dict_keys (active_connections self).


(** The clients whose send raised. *)
Definition failing (self : t) (message : Message)
           (exclude_client_id : option pystr) : list pystr :=
  map fst
    (filter (fun '(c, ws) =>
               negb (excluded exclude_client_id c)
               && match send_json ws message with Ok _ => false | Raise _ => true end)
            (active_connections self)).

(** ** Lemmas *)

Lemma broadcast_loop_acc items message ex dis tr :
  broadcast_loop items message ex dis tr =
  (dis ++ fst (broadcast_loop items message ex [] []),
   tr ++ snd (broadcast_loop items message ex [] [])).
Proof.
  revert dis tr. induction items as [|[c ws] r IH]; intros dis tr; simpl.
  - now rewrite !app_nil_r.
  - destruct (excluded ex c); [apply IH|].
    destruct (send_json ws message).
    + rewrite (IH dis (tr ++ [(c, true)])), (IH [] [(c, true)]). simpl.
      now rewrite <- app_assoc.
    + rewrite (IH (dis ++ [c]) (tr ++ [(c, false)])), (IH [c] [(c, false)]).
      simpl. now rewrite <- !app_assoc.
Qed.


Lemma broadcast_loop_disconnected items message ex :
  fst (broadcast_loop items message ex [] []) =
  map fst
    (filter (fun '(c, ws) =>
               negb (excluded ex c)
               && match send_json ws message with Ok _ => false | Raise _ => true end)
            items).
Proof.
  induction items as [|[c ws] r IH]; simpl; [reflexivity|].
  destruct (excluded ex c); simpl; [exact IH|].
  destruct (send_json ws message); rewrite broadcast_loop_acc; simpl;
    now rewrite IH.
Qed.


Lemma disconnect_wf self c :
  dict_wf (active_connections self) ->
  dict_wf (active_connections (disconnect self c)).
Proof.
  unfold disconnect. destruct (mem (active_connections self) c); simpl; auto.
  apply dict_wf_del.
Qed.


Lemma fold_disconnect_wf l self :
  dict_wf (active_connections self) ->
  dict_wf (active_connections (fold_left disconnect l self)).
Proof.
  revert self. induction l as [|c l IH]; intros self Hwf; simpl; [exact Hwf|].
  apply IH, disconnect_wf, Hwf.
Qed.




(** Uniqueness of the keys holds initially and is kept by every operation. *)
Lemma init_wf : dict_wf (active_connections init).
Proof. constructor. Qed.

Lemma connect_wf self websocket client_id self' :
  dict_wf (active_connections self) ->
  connect self websocket client_id = Ok self' ->
  dict_wf (active_connections self').
Proof.
  intros Hwf. unfold connect. destruct (accept websocket); [|discriminate].
  simpl. intros [= <-]. simpl. now apply dict_wf_set.
Qed.

Lemma send_personal_message_wf self message client_id self' sent :
  dict_wf (active_connections self) ->
  send_personal_message self message client_id = Ok (self', sent) ->
  dict_wf (active_connections self').
Proof.
  intros Hwf. unfold send_personal_message.
  destruct (get (active_connections self) client_id) as [ws|];
    [|now intros [= <- <-]].
  destruct (send_json ws message); simpl; intros [= <- <-];
    [exact Hwf | now apply disconnect_wf].
Qed.

Lemma broadcast_wf self message ex :
  dict_wf (active_connections self) ->
  dict_wf (active_connections (fst (broadcast self message ex))).
Proof.
  intros Hwf. unfold broadcast.
  destruct (broadcast_loop (active_connections self) message ex [] []) as [dis tr].
  simpl. now apply fold_disconnect_wf.
Qed.



Lemma broadcast_unfold self message ex :
  broadcast self message ex =
  (fold_left disconnect (failing self message ex) self,
   snd (broadcast_loop (active_connections self) message ex [] [])).
Proof.
  unfold broadcast, failing. rewrite <- broadcast_loop_disconnected.
  now destruct (broadcast_loop (active_connections self) message ex [] []).
Qed.



End Registry.




End ConnectionManager.

(* ================================================================== *)
(** * services/dual_translator.py *)
(* ================================================================== *)

Module DualTranslator.
Import Py.

(** [str(n)] for a non-negative integer. *)
Fixpoint digits (fuel n : nat) (acc : pystr) : pystr :=
  match fuel with
  | O => acc
  | S fuel' =>
    let acc' := (48 + N.of_nat (n mod 10))%N :: acc in
    if (n / 10 =? 0)%nat then acc' else digits fuel' (n / 10) acc'
  end.

Definition str_of_nat (n : nat) : pystr := digits (S n) n [].

Example str_of_nat_examples :
  str_of_nat 0 = u "0" /\ str_of_nat 7 = u "7" /\ str_of_nat 1205 = u "1205".
Proof. repeat split. Qed.

(** ** [TranslationCache]

    Timestamps are the readings of [time.time()], taken as rationals. *)
Section Cache.
(** The cached values ([Any]). *)
Context {Value : Type}.
(** [hashlib.md5(raw.encode('utf-8')).hexdigest()] *)
Variable md5_hexdigest : pystr -> pystr.

Definition entries := @dict pystr (Value * Q).

Record TranslationCache := {
  cache_size : Z;
  ttl : Q;
  cache : entries
}.

Definition with_cache (self : TranslationCache) (c : entries) : TranslationCache :=
  {| cache_size := cache_size self; ttl := ttl self; cache := c |}.

(** [__init__(cache_size=1000, ttl=3600)] *)
Definition new_cache (size : Z) (ttl_seconds : Q) : TranslationCache :=
  {| cache_size := size; ttl := ttl_seconds; cache := [] |}.

Definition _generate_key (content direction : pystr) : pystr :=
  md5_hexdigest (direction ++ u ":" ++ content).

Definition get (self : TranslationCache) (content direction : pystr)
           (current_time : Q) : option Value * TranslationCache :=
  let key := _generate_key content direction in
  match dict_get pystr_eq_dec (cache self) key with
  | Some (result, timestamp) =>
    if Qlt_le_dec (current_time - timestamp) (ttl self)
    then (Some result, self)
    else (None, with_cache self (dict_del pystr_eq_dec (cache self) key))
  | None => (None, self)
  end.

(** [min(keys, key=lambda k: cache[k][1])] scanning from a current best:
    a later key replaces it only when its timestamp is strictly smaller. *)
Fixpoint min_by_timestamp (best : pystr) (best_ts : Q) (rest : entries) : pystr :=
  match rest with
  | [] => best
  | (k, (_, ts)) :: r =>
    if Qlt_le_dec ts best_ts then min_by_timestamp k ts r
    else min_by_timestamp best best_ts r
  end.

(** [min] of an empty sequence raises [ValueError]. *)
Definition oldest_key (c : entries) : result pystr :=
  match c with
  | [] => Raise (PyError "ValueError" (u "min() arg is an empty sequence"))
  | (k, (_, ts)) :: r => Ok (min_by_timestamp k ts r)
  end.

Definition set (self : TranslationCache) (content direction : pystr)
           (value : Value) (current_time : Q) : result TranslationCache :=
  let key := _generate_key content direction in
  c <- (if (cache_size self <=? Z.of_nat (List.length (cache self)))%Z then
          oldest <- oldest_key (cache self) ;;
          Ok (dict_del pystr_eq_dec (cache self) oldest)
        else Ok (cache self)) ;;
  Ok (with_cache self (dict_set pystr_eq_dec c key (value, current_time))).

Definition clear (self : TranslationCache) : TranslationCache :=
  with_cache self [].

(** The timestamp stored under a key. *)
Definition timestamp_of (c : entries) (k : pystr) : option Q :=
  option_map snd (dict_get pystr_eq_dec c k).

(** ** Lemmas on eviction *)

Lemma min_by_timestamp_le best best_ts rest :
  exists ts, (min_by_timestamp best best_ts rest = best /\ ts = best_ts
              \/ exists v, In (min_by_timestamp best best_ts rest, (v, ts)) rest)
             /\ (ts <= best_ts)%Q
             /\ forall k v t, In (k, (v, t)) rest -> (ts <= t)%Q.
Proof.
  revert best best_ts. induction rest as [|[k [v t]] r IH]; intros best best_ts; simpl.
  - exists best_ts. split; [left; split; reflexivity|]. split; [apply Qle_refl|].
    intros ? ? ? [].
  - destruct (Qlt_le_dec t best_ts) as [Hlt|Hle].
    + destruct (IH k t) as (ts & Hw & Hb & Hall). exists ts. split; [|split].
      * destruct Hw as [(-> & ->)|(v' & Hin)]; right; eauto.
      * apply Qle_trans with t; [exact Hb | now apply Qlt_le_weak].
      * intros k' v' t' [E|Hin]; [inversion E; subst; exact Hb | eauto].
    + destruct (IH best best_ts) as (ts & Hw & Hb & Hall). exists ts. split; [|split].
      * destruct Hw as [(-> & ->)|(v' & Hin)]; [left; split; reflexivity | right; eauto].
      * exact Hb.
      * intros k' v' t' [E|Hin]; [inversion E; subst|eauto].
        apply Qle_trans with best_ts; assumption.
Qed.

(** On a non-empty cache [oldest_key] returns a stored key whose timestamp
    no other entry undercuts. *)
Lemma oldest_key_spec (c : entries) :
  c <> [] ->
  exists k v ts, oldest_key c = Ok k /\ In (k, (v, ts)) c
                 /\ forall k' v' t', In (k', (v', t')) c -> (ts <= t')%Q.
Proof.
  destruct c as [|[k [v t]] r]; [congruence|]. intros _. simpl.
  destruct (min_by_timestamp_le k t r) as (ts & Hw & Hb & Hall).
  destruct Hw as [(E & ->)|(v' & Hin)].
  - exists k, v, t. rewrite E. repeat split; [now left|].
    intros k' v' t' [E'|Hin]; [inversion E'; subst; apply Qle_refl | eauto].
  - exists (min_by_timestamp k t r), v', ts. repeat split; [now right|].
    intros k' v'' t' [E'|Hin']; [inversion E'; subst; exact Hb | eauto].
Qed.

Lemma set_length_bound (self : TranslationCache) content direction value now self' :
  (0 <= cache_size self)%Z ->
  (Z.of_nat (List.length (cache self)) <= cache_size self)%Z ->
  set self content direction value now = Ok self' ->
  (Z.of_nat (List.length (cache self')) <= cache_size self')%Z.
Proof.
  intros Hpos Hle. unfold set.
  destruct (cache_size self <=? Z.of_nat (List.length (cache self)))%Z eqn:Efull.
  - apply Z.leb_le in Efull.
    assert (Hne : cache self = [] \/ cache self <> [])
      by (destruct (cache self); [left | right]; congruence).
    destruct Hne as [E|Hne].
    + rewrite E. simpl. discriminate.
    + destruct (oldest_key_spec _ Hne) as (k & v & ts & Hk & Hin & _).
      rewrite Hk. simpl bind. intros [= <-]. unfold with_cache; simpl.
      rewrite dict_length_set.
      assert (Hm : dict_mem pystr_eq_dec (cache self) k = true).
      { apply dict_mem_keys. change k with (fst (k, (v, ts))). now apply in_map. }
      apply dict_length_del in Hm.
      destruct (dict_mem pystr_eq_dec _ _); lia.
  - apply Z.leb_gt in Efull. simpl. intros [= <-]. simpl.
    rewrite dict_length_set. destruct (dict_mem pystr_eq_dec _ _); lia.
Qed.

(** Uniqueness of the keys is kept by [get] and [set]. *)
Lemma get_wf (self : TranslationCache) content direction now :
  dict_wf (cache self) ->
  dict_wf (cache (snd (get self content direction now))).
Proof.
  intros Hwf. unfold get.
  destruct (dict_get pystr_eq_dec (cache self) _) as [[r ts]|]; [|exact Hwf].
  destruct (Qlt_le_dec (now - ts) (ttl self)); [exact Hwf|].
  simpl. now apply dict_wf_del.
Qed.

Lemma set_wf (self : TranslationCache) content direction value now self' :
  dict_wf (cache self) ->
  set self content direction value now = Ok self' ->
  dict_wf (cache self').
Proof.
  intros Hwf. unfold set.
  destruct (cache_size self <=? Z.of_nat (List.length (cache self)))%Z.
  - destruct (oldest_key (cache self)); simpl; [|discriminate].
    intros [= <-]. simpl. now apply dict_wf_set, dict_wf_del.
  - simpl. intros [= <-]. simpl. now apply dict_wf_set.
Qed.

Lemma get_length_bound (self : TranslationCache) content direction now :
  (List.length (cache (snd (get self content direction now)))
   <= List.length (cache self))%nat.
Proof.
  unfold get. destruct (dict_get pystr_eq_dec (cache self) _) as [[r ts]|]; simpl; [|lia].
  destruct (Qlt_le_dec (now - ts) (ttl self)); simpl; [lia|].
  apply dict_length_del_le.
Qed.

End Cache.

(** ** [DualTranslator.text_to_sign] *)
Section Translator.
Variable md5_hexdigest : pystr -> pystr.

(** The text-to-sign service the translator delegates to, and what it reads
    of the [SignSequence] it gets back. *)
Context {SignSequence : Type}.
Variable actions_len : SignSequence -> nat.
Variable total_duration : SignSequence -> Q.
Context {AnimationParameters : Type}.
Variable service_translate : pystr -> bool -> option pystr -> result SignSequence.
Variable export_animation_parameters : SignSequence -> AnimationParameters.

Record Metadata := {
  md_sequence : SignSequence;
  md_action_count : nat;
  md_total_duration : Q;
  md_animation_params : AnimationParameters
}.

(** A [TranslationResult] is a dataclass instance, hence always truthy:
    [if cached_result:] tests for [None] only. *)
Record TranslationResult := {
  source : pystr;
  target : pystr;
  direction : pystr;
  confidence : Q;
  duration : Q;
  metadata : Metadata
}.

Record Stats := {
  sign_to_text_count : Z;
  text_to_sign_count : Z;
  total_translations : Z;
  cache_hits : Z;
  cache_misses : Z
}.

Record t := {
  tcache : @TranslationCache TranslationResult;
  stats : Stats
}.

(** The four readings of [time.time()] during one call. *)
Record Clock := {
  at_get : Q;
  start_time : Q;
  end_time : Q;
  at_set : Q
}.

Definition with_tcache (self : t) (c : @TranslationCache TranslationResult) : t :=
  {| tcache := c; stats := stats self |}.

Definition bump_hits (self : t) : t :=
  {| tcache := tcache self;
     stats := {| sign_to_text_count := sign_to_text_count (stats self);
                 text_to_sign_count := text_to_sign_count (stats self);
                 total_translations := total_translations (stats self);
                 cache_hits := cache_hits (stats self) + 1;
                 cache_misses := cache_misses (stats self) |} |}.

Definition bump_misses (self : t) : t :=
  {| tcache := tcache self;
     stats := {| sign_to_text_count := sign_to_text_count (stats self);
                 text_to_sign_count := text_to_sign_count (stats self);
                 total_translations := total_translations (stats self);
                 cache_hits := cache_hits (stats self);
                 cache_misses := cache_misses (stats self) + 1 |} |}.

Definition bump_text_to_sign (self : t) : t :=
  {| tcache := tcache self;
     stats := {| sign_to_text_count := sign_to_text_count (stats self);
                 text_to_sign_count := text_to_sign_count (stats self) + 1;
                 total_translations := total_translations (stats self) + 1;
                 cache_hits := cache_hits (stats self);
                 cache_misses := cache_misses (stats self) |} |}.

Definition text_to_sign_direction : pystr := u "text_to_sign".

(** The result object built from a fresh translation. *)
Definition fresh_result (text : pystr) (sequence : SignSequence) (clock : Clock)
  : TranslationResult :=
  {| source := text;
     target := u "[" ++ str_of_nat (actions_len sequence) ++ u " sign actions]";
     direction := text_to_sign_direction;
     confidence := 1;
     duration := end_time clock - start_time clock;
     metadata := {| md_sequence := sequence;
                    md_action_count := actions_len sequence;
                    md_total_duration := total_duration sequence;
                    md_animation_params := export_animation_parameters sequence |} |}.

(** The outcome of a call together with the translator as the call leaves
    it (also when it raises). *)
Definition text_to_sign (self : t) (text : pystr)
           (use_cache apply_grammar : bool) (rhythm : option pystr)
           (clock : Clock) : result TranslationResult * t :=
  let '(cached_result, self) :=
    if use_cache then
      let '(r, c) := get md5_hexdigest (tcache self) text text_to_sign_direction
                         (at_get clock) in
      (r, with_tcache self c)
    else (None, self) in
  match cached_result with
  | Some r => (Ok r, bump_hits self)
  | None =>
    let self := if use_cache then bump_misses self else self in
    match service_translate text apply_grammar rhythm with
    | Raise e => (Raise e, self)
    | Ok sequence =>
      let result := fresh_result text sequence clock in
      let self := bump_text_to_sign self in
      if use_cache then
        match set md5_hexdigest (tcache self) text text_to_sign_direction
                  result (at_set clock) with
        | Ok c => (Ok result, with_tcache self c)
        | Raise e => (Raise e, self)
        end
      else (Ok result, self)
    end
  end.

Definition key_of (text : pystr) : pystr :=
  _generate_key md5_hexdigest text text_to_sign_direction.

Lemma with_tcache_same (self : t) : with_tcache self (tcache self) = self.
Proof. now destruct self. Qed.

Lemma get_fresh (c : @TranslationCache TranslationResult) text r ts now :
  dict_get pystr_eq_dec (cache c) (key_of text) = Some (r, ts) ->
  (now - ts < ttl c)%Q ->
  get md5_hexdigest c text text_to_sign_direction now = (Some r, c).
Proof.
  intros Hget Hage. unfold get. fold (key_of text). rewrite Hget.
  destruct (Qlt_le_dec (now - ts) (ttl c)) as [_|Hle]; [reflexivity|].
  exfalso. exact (Qlt_not_le _ _ Hage Hle).
Qed.

Lemma get_expired (c : @TranslationCache TranslationResult) text r ts now :
  dict_get pystr_eq_dec (cache c) (key_of text) = Some (r, ts) ->
  (ttl c <= now - ts)%Q ->
  get md5_hexdigest c text text_to_sign_direction now =
  (None, with_cache c (dict_del pystr_eq_dec (cache c) (key_of text))).
Proof.
  intros Hget Hage. unfold get. fold (key_of text). rewrite Hget.
  destruct (Qlt_le_dec (now - ts) (ttl c)) as [Hlt|_]; [|reflexivity].
  exfalso. exact (Qlt_not_le _ _ Hlt Hage).
Qed.

(** A lookup that answers leaves the cache as it was and answers from a
    stored, unexpired entry. *)
Lemma get_some_inv (c : @TranslationCache TranslationResult) text now r c' :
  get md5_hexdigest c text text_to_sign_direction now = (Some r, c') ->
  c' = c /\ exists ts, dict_get pystr_eq_dec (cache c) (key_of text) = Some (r, ts)
                       /\ (now - ts < ttl c)%Q.
Proof.
  unfold get. fold (key_of text).
  destruct (dict_get pystr_eq_dec (cache c) (key_of text)) as [[r0 ts]|];
    [|discriminate].
  destruct (Qlt_le_dec (now - ts) (ttl c)); [|discriminate].
  intros [= <- <-]. eauto.
Qed.

Lemma set_stores (c : @TranslationCache TranslationResult) text r now c' :
  set md5_hexdigest c text text_to_sign_direction r now = Ok c' ->
  dict_get pystr_eq_dec (cache c') (key_of text) = Some (r, now)
  /\ ttl c' = ttl c /\ cache_size c' = cache_size c.
Proof.
  unfold set. fold (key_of text).
  destruct (cache_size c <=? Z.of_nat (List.length (cache c)))%Z.
  - destruct (oldest_key (cache c)); simpl; [|discriminate].
    intros [= <-]. simpl. now rewrite dict_get_set_eq.
  - simpl. intros [= <-]. simpl. now rewrite dict_get_set_eq.
Qed.

Lemma set_succeeds (c : @TranslationCache TranslationResult) text r now :
  (0 < cache_size c)%Z ->
  exists c', set md5_hexdigest c text text_to_sign_direction r now = Ok c'.
Proof.
  intros Hpos. unfold set.
  destruct (cache_size c <=? Z.of_nat (List.length (cache c)))%Z eqn:E.
  - apply Z.leb_le in E.
    destruct (cache c) as [|[k [v ts]] rest]; [simpl in E; lia|].
    simpl. eauto.
  - simpl. eauto.
Qed.

Lemma text_to_sign_hit (self : t) text apply_grammar rhythm clock r ts :
  dict_get pystr_eq_dec (cache (tcache self)) (key_of text) = Some (r, ts) ->
  (at_get clock - ts < ttl (tcache self))%Q ->
  text_to_sign self text true apply_grammar rhythm clock = (Ok r, bump_hits self).
Proof.
  intros Hget Hage. unfold text_to_sign.
  rewrite (get_fresh _ _ _ _ _ Hget Hage). now rewrite with_tcache_same.
Qed.

Lemma text_to_sign_stores (self : t) text apply_grammar rhythm clock r1 self1 :
  text_to_sign self text true apply_grammar rhythm clock = (Ok r1, self1) ->
  ttl (tcache self1) = ttl (tcache self)
  /\ exists ts, dict_get pystr_eq_dec (cache (tcache self1)) (key_of text)
                = Some (r1, ts)
     /\ (fst (get md5_hexdigest (tcache self) text text_to_sign_direction
                   (at_get clock)) = None -> ts = at_set clock).
Proof.
  unfold text_to_sign.
  destruct (get md5_hexdigest (tcache self) text text_to_sign_direction
                (at_get clock)) as [[r|] c] eqn:Eg.
  - intros [= <- <-]. apply get_some_inv in Eg. destruct Eg as (-> & ts & Hget & _).
    simpl. split; [reflexivity|]. exists ts. split; [exact Hget | discriminate].
  - destruct (service_translate text apply_grammar rhythm) as [sequence|e];
      [|discriminate].
    destruct (set md5_hexdigest _ text text_to_sign_direction _ (at_set clock))
      as [c'|e] eqn:Es; [|discriminate].
    intros [= <- <-]. apply set_stores in Es. destruct Es as (Hs & Httl & _).
    simpl in *. split.
    + rewrite Httl. unfold get in Eg.
      destruct (dict_get pystr_eq_dec (cache (tcache self)) _) as [[r0 t0]|];
        [|now inversion Eg].
      destruct (Qlt_le_dec _ _); now inversion Eg.
    + exists (at_set clock). split; [exact Hs | reflexivity].
Qed.

Lemma text_to_sign_expired (self : t) text apply_grammar rhythm clock r0 ts :
  dict_wf (cache (tcache self)) ->
  dict_get pystr_eq_dec (cache (tcache self)) (key_of text) = Some (r0, ts) ->
  (ttl (tcache self) <= at_get clock - ts)%Q ->
  (0 < cache_size (tcache self))%Z ->
  forall out self',
    text_to_sign self text true apply_grammar rhythm clock = (out, self') ->
    cache_misses (stats self') = (cache_misses (stats self) + 1)%Z
    /\ cache_hits (stats self') = cache_hits (stats self)
    /\ match service_translate text apply_grammar rhythm with
       | Ok sequence =>
         out = Ok (fresh_result text sequence clock)
         /\ dict_get pystr_eq_dec (cache (tcache self')) (key_of text)
            = Some (fresh_result text sequence clock, at_set clock)
       | Raise e =>
         out = Raise e
         /\ dict_get pystr_eq_dec (cache (tcache self')) (key_of text) = None
       end.
Proof.
  intros Hwf Hget Hage Hpos out self'. unfold text_to_sign.
  rewrite (get_expired _ _ _ _ _ Hget Hage).
  destruct (service_translate text apply_grammar rhythm) as [sequence|e].
  - match goal with
    | |- context [set md5_hexdigest ?c text text_to_sign_direction ?r ?n] =>
      destruct (set_succeeds c text r n Hpos) as (c' & Hs)
    end.
    rewrite Hs. intros [= <- <-]. apply set_stores in Hs.
    destruct Hs as (Hs & _ & _). simpl. auto.
  - intros [= <- <-]. simpl. repeat split. now apply dict_get_del_eq.
Qed.

(** C3. The translation cache behind [text_to_sign] (caching enabled, as by
    default).  (1) After a call that returned, the result is stored under
    the text's key; a second call with the same arguments made while that
    entry is younger than the TTL returns the very same result, adds one to
    [cache_hits] and leaves [cache_misses] and the cache untouched.  (2) A
    lookup of an entry whose age has reached the TTL answers [None] and
    deletes the entry; [text_to_sign] then adds one to [cache_misses],
    leaves [cache_hits] alone, calls the service again and stores the fresh
    result with the new timestamp.  (3) [set] on a cache that is at its
    capacity removes exactly one entry, one whose timestamp no other entry
    undercuts, before it stores the new value.  (4) Neither [get] nor [set]
    lets the number of entries exceed the capacity.  (5) A call made with
    [use_cache=False] leaves the cache and both counters alone. *)
Theorem translation_cache_contract :
  (forall (self : t) text apply_grammar rhythm clock1 clock2 r1 self1,
      text_to_sign self text true apply_grammar rhythm clock1 = (Ok r1, self1) ->
      exists ts,
        dict_get pystr_eq_dec (cache (tcache self1)) (key_of text) = Some (r1, ts)
        /\ (fst (get md5_hexdigest (tcache self) text text_to_sign_direction
                     (at_get clock1)) = None -> ts = at_set clock1)
        /\ ((at_get clock2 - ts < ttl (tcache self1))%Q ->
            exists self2,
              text_to_sign self1 text true apply_grammar rhythm clock2
              = (Ok r1, self2)
              /\ cache_hits (stats self2) = (cache_hits (stats self1) + 1)%Z
              /\ cache_misses (stats self2) = cache_misses (stats self1)
              /\ tcache self2 = tcache self1))
  /\ (forall (self : t) text apply_grammar rhythm clock r0 ts,
      dict_wf (cache (tcache self)) ->
      dict_get pystr_eq_dec (cache (tcache self)) (key_of text) = Some (r0, ts) ->
      (ttl (tcache self) <= at_get clock - ts)%Q ->
      (0 < cache_size (tcache self))%Z ->
      (exists c',
          get md5_hexdigest (tcache self) text text_to_sign_direction (at_get clock)
          = (None, c')
          /\ dict_get pystr_eq_dec (cache c') (key_of text) = None)
      /\ forall out self',
          text_to_sign self text true apply_grammar rhythm clock = (out, self') ->
          cache_misses (stats self') = (cache_misses (stats self) + 1)%Z
          /\ cache_hits (stats self') = cache_hits (stats self)
          /\ match service_translate text apply_grammar rhythm with
             | Ok sequence =>
               out = Ok (fresh_result text sequence clock)
               /\ dict_get pystr_eq_dec (cache (tcache self')) (key_of text)
                  = Some (fresh_result text sequence clock, at_set clock)
             | Raise e =>
               out = Raise e
               /\ dict_get pystr_eq_dec (cache (tcache self')) (key_of text) = None
             end)
  /\ (forall (c : @TranslationCache TranslationResult) content direction value now,
      (0 < cache_size c)%Z ->
      (cache_size c <= Z.of_nat (List.length (cache c)))%Z ->
      exists victim v ts,
        In (victim, (v, ts)) (cache c)
        /\ (forall k' v' t', In (k', (v', t')) (cache c) -> (ts <= t')%Q)
        /\ S (List.length (dict_del pystr_eq_dec (cache c) victim))
           = List.length (cache c)
        /\ set md5_hexdigest c content direction value now =
           Ok (with_cache c
                 (dict_set pystr_eq_dec
                    (dict_del pystr_eq_dec (cache c) victim)
                    (_generate_key md5_hexdigest content direction)
                    (value, now))))
  /\ (forall (c : @TranslationCache TranslationResult) content direction value now,
      (0 <= cache_size c)%Z ->
      (Z.of_nat (List.length (cache c)) <= cache_size c)%Z ->
      (Z.of_nat (List.length (cache (snd (get md5_hexdigest c content direction now))))
       <= cache_size c)%Z
      /\ forall c', set md5_hexdigest c content direction value now = Ok c' ->
                    (Z.of_nat (List.length (cache c')) <= cache_size c')%Z)
  /\ (forall (self : t) text apply_grammar rhythm clock out self',
      text_to_sign self text false apply_grammar rhythm clock = (out, self') ->
      tcache self' = tcache self
      /\ cache_hits (stats self') = cache_hits (stats self)
      /\ cache_misses (stats self') = cache_misses (stats self)).
Proof.
  split; [|split; [|split; [|split]]].
  - intros self text apply_grammar rhythm clock1 clock2 r1 self1 Hcall.
    destruct (text_to_sign_stores self text apply_grammar rhythm clock1 r1 self1 Hcall)
      as (_ & ts & Hget & Hmiss).
    exists ts. split; [exact Hget|]. split; [exact Hmiss|].
    intros Hage. exists (bump_hits self1).
    rewrite (text_to_sign_hit self1 text apply_grammar rhythm clock2 r1 ts Hget Hage).
    repeat split.
  - intros self text apply_grammar rhythm clock r0 ts Hwf Hget Hage Hpos. split.
    + eexists. split; [apply (get_expired _ _ _ _ _ Hget Hage)|].
      simpl. now apply dict_get_del_eq.
    + exact (text_to_sign_expired self text apply_grammar rhythm clock r0 ts
                                  Hwf Hget Hage Hpos).
  - intros c content direction value now Hpos Hfull.
    assert (Hne : cache c <> []).
    { intros E. rewrite E in Hfull. simpl in Hfull. lia. }
    destruct (oldest_key_spec _ Hne) as (k & v & ts & Hk & Hin & Hmin).
    exists k, v, ts. repeat split; [exact Hin | exact Hmin | |].
    + apply dict_length_del. apply dict_mem_keys.
      change k with (fst (k, (v, ts))). now apply in_map.
    + unfold set. apply Z.leb_le in Hfull. rewrite Hfull, Hk. reflexivity.
  - intros c content direction value now Hpos Hle. split.
    + pose proof (get_length_bound md5_hexdigest c content direction now). lia.
    + intros c'. now apply set_length_bound.
  - intros self text apply_grammar rhythm clock out self'. unfold text_to_sign.
    destruct (service_translate text apply_grammar rhythm);
      intros [= <- <-]; repeat split.
Qed.

End Translator.

(** A small instance: the identity as a stand-in digest, a service that
    answers with as many actions as the text has characters. *)
Definition demo_service (text : pystr) (_ : bool) (_ : option pystr)
  : result nat := Ok (List.length text).

Definition demo_text_to_sign :=
  text_to_sign (fun raw => raw) (fun n : nat => n) (fun n => inject_Z (Z.of_nat n))
               demo_service (fun _ => tt).

Definition demo_key (text : pystr) : pystr := key_of (fun raw => raw) text.

Definition demo_fresh :=
  fresh_result (fun n : nat => n) (fun n => inject_Z (Z.of_nat n))
               (fun _ : nat => tt).

Definition zero_stats : Stats :=
  {| sign_to_text_count := 0; text_to_sign_count := 0; total_translations := 0;
     cache_hits := 0; cache_misses := 0 |}.

Definition demo_translator : @t nat unit :=
  {| tcache := new_cache 2 3600; stats := zero_stats |}.

Definition clock_at (s : Q) : Clock :=
  {| at_get := s; start_time := s; end_time := s + 1; at_set := s + 1 |}.

Definition demo_after_first : @t nat unit :=
  snd (demo_text_to_sign demo_translator (u "hi") true true None (clock_at 0)).

Definition demo_full : @TranslationCache (@TranslationResult nat unit) :=
  {| cache_size := 2; ttl := 3600;
     cache := [(u "k1", (demo_fresh (u "a") 1%nat (clock_at 4), 5%Q));
               (u "k2", (demo_fresh (u "bc") 2%nat (clock_at 2), 3%Q))] |}.

Definition demo_value : @TranslationResult nat unit :=
  demo_fresh (u "new") 3%nat (clock_at 8).

Lemma translation_cache_contract_witness :
  (exists self2,
      demo_text_to_sign demo_after_first (u "hi") true true None (clock_at 100)
      = (Ok (demo_fresh (u "hi") 2%nat (clock_at 0)), self2)
      /\ cache_hits (stats self2) = 1%Z
      /\ cache_misses (stats self2) = 1%Z)
  /\ (cache_misses
        (stats (snd (demo_text_to_sign demo_after_first (u "hi") true true None
                                       (clock_at 4000)))) = 2%Z
      /\ fst (demo_text_to_sign demo_after_first (u "hi") true true None
                                (clock_at 4000))
         = Ok (demo_fresh (u "hi") 2%nat (clock_at 4000)))
  /\ (exists victim v ts,
        In (victim, (v, ts)) (cache demo_full)
        /\ (forall k' v' t', In (k', (v', t')) (cache demo_full) -> (ts <= t')%Q)
        /\ set (fun raw => raw) demo_full (u "new") (u "d") demo_value 9%Q =
           Ok (with_cache demo_full
                 (dict_set pystr_eq_dec
                    (dict_del pystr_eq_dec (cache demo_full) victim)
                    (_generate_key (fun raw => raw) (u "new") (u "d"))
                    (demo_value, 9%Q)))).
Proof.
  destruct (translation_cache_contract
              (fun raw => raw) (fun n : nat => n) (fun n => inject_Z (Z.of_nat n))
              demo_service (fun _ : nat => tt)) as (H1 & H2 & H3 & _ & _).
  split; [|split].
  - destruct (H1 demo_translator (u "hi") true None (clock_at 0) (clock_at 100)
                 (demo_fresh (u "hi") 2%nat (clock_at 0)) demo_after_first
                 eq_refl) as (ts & _ & Hts & Hhit).
    rewrite (Hts eq_refl) in Hhit.
    destruct (Hhit eq_refl) as (self2 & Hcall & Hh & Hm & _).
    exists self2. split; [exact Hcall|]. split; [exact Hh | exact Hm].
  - destruct (H2 demo_after_first (u "hi") true None (clock_at 4000)
                 (demo_fresh (u "hi") 2%nat (clock_at 0)) (at_set (clock_at 0)))
      as (_ & Hcall).
    + unfold dict_wf. simpl. repeat constructor. simpl. tauto.
    + reflexivity.
    + unfold Qle. simpl. lia.
    + reflexivity.
    + destruct (Hcall _ _ eq_refl) as (Hm & _ & Hout & _).
      split; [exact Hm | exact Hout].
  - destruct (H3 demo_full (u "new") (u "d") demo_value 9%Q)
      as (victim & v & ts & Hin & Hmin & _ & Hset).
    + reflexivity.
    + simpl. lia.
    + exists victim, v, ts. split; [exact Hin|]. split; [exact Hmin | exact Hset].
Defined.

(** ** [TranslationQualityEvaluator.evaluate_bleu]

    Floats are taken as real numbers. *)
Section Evaluator.

(** The set [{' '.join(words[j:j+i]) for j in range(len(words) - i + 1)}],
    as a duplicate-free list. *)
Definition ngrams (i : nat) (words : list pystr) : list pystr :=
  nodup pystr_eq_dec
    (map (fun j => join (u " ") (firstn i (skipn j words)))
         (seq 0 (Z.to_nat (Z.of_nat (List.length words) - Z.of_nat i + 1)))).

(** [len(ref_ngrams & hyp_ngrams)] *)
Definition matches (ref_ngrams hyp_ngrams : list pystr) : nat :=
  List.length (filter (fun g => if in_dec pystr_eq_dec g ref_ngrams then true else false)
                      hyp_ngrams).

Definition precision (ref_words hyp_words : list pystr) (i : nat) : R :=
  let ref_ngrams := ngrams i ref_words in
  let hyp_ngrams := ngrams i hyp_words in
  match hyp_ngrams with
  | [] => 0%R
  | _ => (INR (matches ref_ngrams hyp_ngrams) / INR (List.length hyp_ngrams))%R
  end.

(** [x ** y] for a float [x >= 0] and an exponent [y > 0]. *)
Definition float_pow (x y : R) : R :=
  if Req_dec_T x 0 then 0%R else Rpower x y.

(** [reduce(operator.mul, precisions)] on a non-empty list *)
Definition product (p : R) (rest : list R) : R := fold_left Rmult rest p.

(** The module never imports numpy, so the name [np] is unbound when the
    brevity penalty is computed. *)
Definition np_unbound : exn :=
  PyError "NameError" (u "name 'np' is not defined").

Definition evaluate_bleu (reference hypothesis : pystr) (n : Z) : result R :=
  if negb (truthy reference) || negb (truthy hypothesis) then Ok 0%R
  else
    let ref_words := split reference in
    let hyp_words := split hypothesis in
    match hyp_words with
    | [] => Ok 0%R
    | _ =>
      let precisions :=
        map (precision ref_words hyp_words)
            (seq 1 (Z.to_nat (Z.min n (Z.of_nat (List.length hyp_words))))) in
      match precisions with
      | [] => Ok 0%R
      | p :: rest =>
        let geometric_mean :=
          float_pow (product p rest) (1 / INR (List.length precisions)) in
        brevity_penalty <-
          (if (List.length hyp_words <? List.length ref_words)%nat
           then Raise np_unbound
           else Ok 1%R) ;;
        Ok (geometric_mean * brevity_penalty)%R
      end
    end.

(** The score the documentation describes: the geometric mean of the
    n-gram precisions times [exp(1 - ref_len / hyp_len)] for a hypothesis
    with fewer words than the reference. *)
Definition documented_bleu (reference hypothesis : pystr) (n : Z) : R :=
  let ref_words := split reference in
  let hyp_words := split hypothesis in
  match map (precision ref_words hyp_words)
            (seq 1 (Z.to_nat (Z.min n (Z.of_nat (List.length hyp_words))))) with
  | [] => 0%R
  | p :: rest =>
    (float_pow (product p rest) (1 / INR (S (List.length rest)))
     * (if (List.length hyp_words <? List.length ref_words)%nat
        then exp (1 - INR (List.length ref_words) / INR (List.length hyp_words))
        else 1))%R
  end.

Lemma seq_to_nat_nonempty (k : Z) :
  (1 <= k)%Z -> exists m, Z.to_nat k = S m.
Proof.
  intros H. exists (Z.to_nat (k - 1)). lia.
Qed.

(** With at least one word in the hypothesis and [n >= 1] the loop over the
    n-gram sizes runs at least once. *)
Lemma precisions_nonempty (ref_words hyp_words : list pystr) (n : Z) :
  (1 <= n)%Z -> hyp_words <> [] ->
  exists p rest,
    map (precision ref_words hyp_words)
        (seq 1 (Z.to_nat (Z.min n (Z.of_nat (List.length hyp_words)))))
    = p :: rest.
Proof.
  intros Hn Hne.
  assert (Hlen : (1 <= Z.of_nat (List.length hyp_words))%Z).
  { destruct hyp_words; [congruence | simpl List.length; lia]. }
  destruct (seq_to_nat_nonempty (Z.min n (Z.of_nat (List.length hyp_words))))
    as (m & ->); [lia|].
  simpl. eauto.
Qed.

(** Every call with a hypothesis that has fewer words than the reference
    ends in the [NameError]. *)
Lemma evaluate_bleu_shorter (reference hypothesis : pystr) (n : Z) :
  (1 <= n)%Z ->
  split hypothesis <> [] ->
  (List.length (split hypothesis) < List.length (split reference))%nat ->
  evaluate_bleu reference hypothesis n = Raise np_unbound.
Proof.
  intros Hn Hne Hlt. unfold evaluate_bleu.
  assert (Hr : truthy reference = true).
  { destruct reference; [simpl in Hlt; lia | reflexivity]. }
  assert (Hh : truthy hypothesis = true).
  { destruct hypothesis; [now destruct Hne | reflexivity]. }
  rewrite Hr, Hh. simpl negb. simpl orb. cbv iota.
  destruct (precisions_nonempty (split reference) (split hypothesis) n Hn Hne)
    as (p & rest & ->).
  destruct (split hypothesis) as [|w ws] eqn:Ew; [congruence|].
  apply Nat.ltb_lt in Hlt. rewrite Hlt. reflexivity.
Qed.

(** A hypothesis that is not shorter gets the unpenalised geometric mean. *)
Lemma evaluate_bleu_not_shorter (reference hypothesis : pystr) (n : Z) :
  (1 <= n)%Z ->
  truthy reference = true ->
  split hypothesis <> [] ->
  (List.length (split reference) <= List.length (split hypothesis))%nat ->
  evaluate_bleu reference hypothesis n = Ok (documented_bleu reference hypothesis n).
Proof.
  intros Hn Hr Hne Hle. unfold evaluate_bleu, documented_bleu.
  assert (Hh : truthy hypothesis = true).
  { destruct hypothesis; [now destruct Hne | reflexivity]. }
  rewrite Hr, Hh. simpl negb. simpl orb. cbv iota.
  destruct (precisions_nonempty (split reference) (split hypothesis) n Hn Hne)
    as (p & rest & ->).
  destruct (split hypothesis) as [|w ws] eqn:Ew; [congruence|].
  apply Nat.ltb_ge in Hle. rewrite Hle. simpl List.length. simpl bind.
  reflexivity.
Qed.

(** C7. For a non-empty reference and hypothesis the evaluator is documented
    to return the geometric mean of the n-gram precisions, multiplied by
    [exp(1 - ref_len/hyp_len)] when the hypothesis has fewer words.  The
    code does so only when the hypothesis is not shorter: for the reference
    ["the cat sat"] and the hypothesis ["the cat"], and for every hypothesis
    with fewer words than its reference, the brevity-penalty line raises
    [NameError] and no score is returned. *)
Theorem evaluate_bleu_brevity_penalty_unbound :
  evaluate_bleu (u "the cat sat") (u "the cat") 4 = Raise np_unbound
  /\ (forall reference hypothesis n,
        (1 <= n)%Z ->
        split hypothesis <> [] ->
        (List.length (split hypothesis) < List.length (split reference))%nat ->
        evaluate_bleu reference hypothesis n = Raise np_unbound)
  /\ (forall reference hypothesis n,
        (1 <= n)%Z ->
        truthy reference = true ->
        split hypothesis <> [] ->
        (List.length (split reference) <= List.length (split hypothesis))%nat ->
        evaluate_bleu reference hypothesis n
        = Ok (documented_bleu reference hypothesis n)).
Proof.
  split; [|split].
  - apply evaluate_bleu_shorter.
    + lia.
    + vm_compute. discriminate.
    + vm_compute. lia.
  - exact evaluate_bleu_shorter.
  - exact evaluate_bleu_not_shorter.
Qed.

End Evaluator.

End DualTranslator.

(* ================================================================== *)
(** * services/stgcn_model.py: the hand graph *)
(* ================================================================== *)

Module STGCN.
Import Py.

(** Matrices are lists of rows; the entries the code writes are 0 and 1. *)
Definition matrix := list (list Z).

Definition zeros (rows cols : nat) : matrix := repeat (repeat 0%Z cols) rows.

Definition entry (a : matrix) (i j : nat) : Z := nth j (nth i a []) 0%Z.

Fixpoint update {A} (l : list A) (i : nat) (v : A) : list A :=
  match l, i with
  | [], _ => []
  | _ :: r, O => v :: r
  | x :: r, S i' => x :: update r i' v
  end.

Definition index_error : exn :=
  PyError "IndexError" (u "index is out of bounds").

(** [a[i, j] = v]; numpy raises [IndexError] out of range. *)
Definition set_entry (a : matrix) (i j : nat) (v : Z) : result matrix :=
  match nth_error a i with
  | Some row =>
    if (j <? List.length row)%nat then Ok (update a i (update row j v))
    else Raise index_error
  | None => Raise index_error
  end.

Definition mapi {A B} (f : nat -> A -> B) (l : list A) : list B :=
  map (fun '(i, x) => f i x) (combine (seq 0 (List.length l)) l).

(** [np.fill_diagonal(a, v)] *)
Definition fill_diagonal (a : matrix) (v : Z) : matrix :=
  mapi (fun i row => update row i v) a.

(** [np.eye(n)] *)
Definition eye (n : nat) : matrix := fill_diagonal (zeros n n) 1.

(** [np.where(cond(a), 1, 0)] *)
Definition where_ (cond : Z -> bool) (a : matrix) : matrix :=
  map (map (fun x => if cond x then 1%Z else 0%Z)) a.

(** The kinematic chain of the hand: wrist to the five finger bases, then
    three joints along each finger. *)
Definition links : list (nat * nat) :=
  [ (0, 1); (0, 5); (0, 9); (0, 13); (0, 17);
    (1, 2); (2, 3); (3, 4);
    (5, 6); (6, 7); (7, 8);
    (9, 10); (10, 11); (11, 12);
    (13, 14); (14, 15); (15, 16);
    (17, 18); (18, 19); (19, 20) ]%nat.

Fixpoint add_links (a : matrix) (ls : list (nat * nat)) : result matrix :=
  match ls with
  | [] => Ok a
  | (i, j) :: rest =>
    a1 <- set_entry a i j 1 ;;
    a2 <- set_entry a1 j i 1 ;;
    add_links a2 rest
  end.

(** [adj_matrix] once the links and the self-loops are in. *)
Definition adjacency (num_nodes : nat) : result matrix :=
  a <- add_links (zeros num_nodes num_nodes) links ;;
  Ok (fill_diagonal a 1).

Record partitions := {
  A_self : matrix;
  A_centripetal : matrix;
  A_centrifugal : matrix
}.

Definition _build_adjacency_matrix (num_points : nat) : result partitions :=
  adj_matrix <- adjacency num_points ;;
  Ok {| A_self := eye num_points;
        A_centripetal :=
          fill_diagonal (where_ (fun x => (0 <? x)%Z && (x <? 2)%Z) adj_matrix) 0;
        A_centrifugal :=
          fill_diagonal (where_ (fun x => (2 <=? x)%Z) adj_matrix) 0 |}.

(** ** Distances in the hand graph *)

Definition neighbours (i : nat) : list nat :=
  flat_map (fun '(a, b) =>
              (if (a =? i)%nat then [b] else []) ++
              (if (b =? i)%nat then [a] else [])) links.

(** The nodes within [k] steps of [i]. *)
Fixpoint ball (k i : nat) : list nat :=
  match k with
  | O => [i]
  | S k' => let b := ball k' i in nodup Nat.eq_dec (b ++ flat_map neighbours b)
  end.

(** The length of a shortest path from [i] to [j], if there is one. *)
Definition graph_distance (i j : nat) : option nat :=
  find (fun k => existsb (Nat.eqb j) (ball k i)) (seq 0 21).

Definition num_points : nat := 21.

(** The matrices built for the 21 landmarks. *)
Definition built : partitions :=
  match _build_adjacency_matrix num_points with
  | Ok p => p
  | Raise _ => {| A_self := []; A_centripetal := []; A_centrifugal := [] |}
  end.

Definition built_adjacency : matrix :=
  match adjacency num_points with Ok a => a | Raise _ => [] end.

(** A check over all index pairs below 21. *)
Definition all_pairs (p : nat -> nat -> bool) : bool :=
  forallb (fun i => forallb (p i) (seq 0 21)) (seq 0 21).

Lemma all_pairs_spec (p : nat -> nat -> bool) :
  all_pairs p = true ->
  forall i j, (i < 21)%nat -> (j < 21)%nat -> p i j = true.
Proof.
  unfold all_pairs. intros H i j Hi Hj.
  rewrite forallb_forall in H. specialize (H i).
  rewrite forallb_forall in H. apply H; apply in_seq; lia.
Qed.

(** Two landmarks joined by a link of the chain. *)
Definition linked (i j : nat) : bool :=
  existsb (fun '(a, b) => ((a =? i) && (b =? j) || (a =? j) && (b =? i))%nat) links.

Definition indicator (b : bool) : Z := if b then 1%Z else 0%Z.

(** C4. The matrices built for the 21 hand landmarks.  The adjacency (links
    plus self-loops) is symmetric; the self partition is the identity; the
    near partition holds exactly the linked pairs, which are the pairs at
    graph distance 1; at every off-diagonal position that carries an edge
    the three partitions sum to 1.  The far partition, which the code
    comments as the pairs at distance greater than 1, is zero everywhere:
    the wrist and the second thumb joint are at distance 2 and its entry
    for them is 0. *)
Theorem hand_adjacency_partitions :
  _build_adjacency_matrix 21 = Ok built
  /\ (forall i j, (i < 21)%nat -> (j < 21)%nat ->
        entry built_adjacency i j = entry built_adjacency j i)
  /\ (forall i j, (i < 21)%nat -> (j < 21)%nat ->
        entry (A_self built) i j = indicator (i =? j)%nat)
  /\ (forall i j, (i < 21)%nat -> (j < 21)%nat ->
        entry (A_centripetal built) i j = indicator (linked i j)
        /\ (linked i j = true <-> graph_distance i j = Some 1%nat))
  /\ (forall i j, (i < 21)%nat -> (j < 21)%nat -> i <> j ->
        entry built_adjacency i j = 1%Z ->
        (entry (A_self built) i j + entry (A_centripetal built) i j
         + entry (A_centrifugal built) i j = 1)%Z)
  /\ (forall i j, (i < 21)%nat -> (j < 21)%nat ->
        entry (A_centrifugal built) i j = 0%Z)
  /\ graph_distance 0 2 = Some 2%nat
  /\ entry (A_centrifugal built) 0 2 = 0%Z.
Proof.
  split; [vm_compute; reflexivity|].
  split.
  { intros i j Hi Hj. apply Z.eqb_eq.
    apply (all_pairs_spec
             (fun i j => Z.eqb (entry built_adjacency i j) (entry built_adjacency j i)));
      [vm_compute; reflexivity | exact Hi | exact Hj]. }
  split.
  { intros i j Hi Hj. apply Z.eqb_eq.
    apply (all_pairs_spec
             (fun i j => Z.eqb (entry (A_self built) i j) (indicator (i =? j)%nat)));
      [vm_compute; reflexivity | exact Hi | exact Hj]. }
  split.
  { intros i j Hi Hj. split.
    - apply Z.eqb_eq.
      apply (all_pairs_spec
               (fun i j => Z.eqb (entry (A_centripetal built) i j)
                                 (indicator (linked i j))));
        [vm_compute; reflexivity | exact Hi | exact Hj].
    - assert (H : Bool.eqb (linked i j)
                    (match graph_distance i j with
                     | Some 1%nat => true
                     | _ => false
                     end) = true).
      { apply (all_pairs_spec
                 (fun i j => Bool.eqb (linked i j)
                               (match graph_distance i j with
                                | Some 1%nat => true
                                | _ => false
                                end)));
          [vm_compute; reflexivity | exact Hi | exact Hj]. }
      apply Bool.eqb_prop in H. rewrite H.
      destruct (graph_distance i j) as [[|[|k]]|]; split; congruence. }
  split.
  { intros i j Hi Hj Hne Hadj.
    assert (H : implb (negb (i =? j)%nat && Z.eqb (entry built_adjacency i j) 1)
                 (Z.eqb (entry (A_self built) i j
                         + entry (A_centripetal built) i j
                         + entry (A_centrifugal built) i j) 1) = true).
    { apply (all_pairs_spec
               (fun i j => implb (negb (i =? j)%nat && Z.eqb (entry built_adjacency i j) 1)
                 (Z.eqb (entry (A_self built) i j
                         + entry (A_centripetal built) i j
                         + entry (A_centrifugal built) i j) 1)));
        [vm_compute; reflexivity | exact Hi | exact Hj]. }
    apply Nat.eqb_neq in Hne. apply Z.eqb_eq in Hadj.
    rewrite Hne, Hadj in H. simpl in H. now apply Z.eqb_eq. }
  split.
  { intros i j Hi Hj. apply Z.eqb_eq.
    apply (all_pairs_spec (fun i j => Z.eqb (entry (A_centrifugal built) i j) 0));
      [vm_compute; reflexivity | exact Hi | exact Hj]. }
  split; vm_compute; reflexivity.
Qed.

End STGCN.

(* ================================================================== *)
(** * services/sign_recognition.py: result smoothing *)
(* ================================================================== *)

Module SignRecognition.
Import Py.

Definition DEFAULT_SMOOTHING_WINDOW : nat := 5.

(** [deque(maxlen=n).append(x)]: the oldest element leaves on overflow. *)
Definition deque_append {A} (maxlen : nat) (d : list A) (x : A) : list A :=
  skipn (List.length (d ++ [x]) - maxlen) (d ++ [x]).

(** A prediction is a vocabulary word or [None]. *)
Definition prediction := option pystr.
Definition history := list (prediction * Q).

(** [d.get(k, default)] *)
Definition get_default {V} (d : @dict pystr V) (k : pystr) (default : V) : V :=
  match dict_get pystr_eq_dec d k with
  | Some v => v
  | None => default
  end.

(** The counting loop over the history, filling [prediction_counts] and
    [confidence_sum]. *)
Fixpoint count_loop (h : history) (prediction_counts : @dict pystr nat)
         (confidence_sum : @dict pystr Q)
  : @dict pystr nat * @dict pystr Q :=
  match h with
  | [] => (prediction_counts, confidence_sum)
  | (Some pred, conf) :: rest =>
    count_loop rest
      (dict_set pystr_eq_dec prediction_counts pred
                (get_default prediction_counts pred 0 + 1)%nat)
      (dict_set pystr_eq_dec confidence_sum pred
                (get_default confidence_sum pred 0 + conf)%Q)
  | (None, _) :: rest => count_loop rest prediction_counts confidence_sum
  end.

(** [max(counts, key=lambda x: counts[x])] scanning from a current best: a
    later key replaces it only with a strictly larger count. *)
Fixpoint max_by_count (best : pystr) (best_n : nat) (rest : @dict pystr nat)
  : pystr :=
  match rest with
  | [] => best
  | (k, n) :: r =>
    if (best_n <? n)%nat then max_by_count k n r else max_by_count best best_n r
  end.

Definition _apply_smoothing (prediction_history : history)
           (pred : prediction) (confidence : Q) : prediction * history :=
  let prediction_history :=
    deque_append DEFAULT_SMOOTHING_WINDOW prediction_history (pred, confidence) in
  if (List.length prediction_history <? DEFAULT_SMOOTHING_WINDOW)%nat then
    (pred, prediction_history)
  else
    let '(prediction_counts, _) := count_loop prediction_history [] [] in
    match prediction_counts with
    | [] => (pred, prediction_history)
    | (k, n) :: rest =>
      let best_prediction := max_by_count k n rest in
      if (DEFAULT_SMOOTHING_WINDOW / 2 <=?
          get_default prediction_counts best_prediction 0)%nat
      then (Some best_prediction, prediction_history)
      else (pred, prediction_history)
    end.

(** How often a label occurs in a history. *)
Definition occurrences (h : history) (label : pystr) : nat :=
  List.length
    (filter (fun e => match fst e with
                      | Some p => pystr_eqb p label
                      | None => false
                      end) h).

(** ** The counting loop computes [occurrences] *)

Lemma get_default_set {V} (d : @dict pystr V) k v k' default :
  get_default (dict_set pystr_eq_dec d k v) k' default =
  if pystr_eq_dec k k' then v else get_default d k' default.
Proof.
  unfold get_default. destruct (pystr_eq_dec k k') as [<-|Hne].
  - now rewrite dict_get_set_eq.
  - now rewrite dict_get_set_neq.
Qed.

Lemma count_loop_counts (h : history) counts sums label :
  get_default (fst (count_loop h counts sums)) label 0%nat =
  (get_default counts label 0 + occurrences h label)%nat.
Proof.
  revert counts sums. unfold occurrences.
  induction h as [|[[p|] c] r IH]; intros counts sums; simpl.
  - lia.
  - rewrite IH, get_default_set. unfold pystr_eqb.
    destruct (pystr_eq_dec p label) as [->|Hne]; simpl; lia.
  - apply IH.
Qed.

Lemma count_loop_wf (h : history) counts sums :
  dict_wf counts -> dict_wf (fst (count_loop h counts sums)).
Proof.
  revert counts sums. induction h as [|[[p|] c] r IH]; intros counts sums Hwf; simpl.
  - exact Hwf.
  - apply IH. now apply dict_wf_set.
  - now apply IH.
Qed.

Lemma max_by_count_spec best best_n rest :
  exists n,
    (max_by_count best best_n rest = best /\ n = best_n
     \/ In (max_by_count best best_n rest, n) rest)
    /\ (best_n <= n)%nat
    /\ forall k m, In (k, m) rest -> (m <= n)%nat.
Proof.
  revert best best_n. induction rest as [|[k m] r IH]; intros best best_n; simpl.
  - exists best_n. split; [now left|]. split; [lia | intros ? ? []].
  - destruct (best_n <? m)%nat eqn:E.
    + apply Nat.ltb_lt in E. destruct (IH k m) as (n & Hw & Hb & Hall).
      exists n. split; [|split].
      * destruct Hw as [(-> & ->)|Hin]; right; auto.
      * lia.
      * intros k' m' [Heq|Hin]; [inversion Heq; subst; exact Hb | eauto].
    + apply Nat.ltb_ge in E. destruct (IH best best_n) as (n & Hw & Hb & Hall).
      exists n. split; [|split].
      * destruct Hw as [(-> & ->)|Hin]; [now left | right; auto].
      * exact Hb.
      * intros k' m' [Heq|Hin]; [inversion Heq; subst; lia | eauto].
Qed.

(** On a non-empty, duplicate-free dictionary the selected key carries a
    count that no other key exceeds. *)
Lemma best_prediction_spec k n rest :
  dict_wf ((k, n) :: rest) ->
  forall k' , (get_default ((k, n) :: rest) k' 0 <=
               get_default ((k, n) :: rest) (max_by_count k n rest) 0)%nat.
Proof.
  intros Hwf k'.
  destruct (max_by_count_spec k n rest) as (m & Hw & Hb & Hall).
  assert (Hbest : get_default ((k, n) :: rest) (max_by_count k n rest) 0%nat = m).
  { unfold get_default.
    rewrite (dict_In_get pystr_eq_dec ((k, n) :: rest) (max_by_count k n rest) m Hwf);
      [reflexivity|].
    destruct Hw as [(-> & ->)|Hin]; [now left | now right]. }
  rewrite Hbest. unfold get_default.
  destruct (dict_get pystr_eq_dec ((k, n) :: rest) k') as [m'|] eqn:E; [|lia].
  apply dict_get_In in E. destruct E as [Heq|Hin]; [inversion Heq; subst; exact Hb|].
  eauto.
Qed.

Lemma deque_append_length {A} (maxlen : nat) (d : list A) (x : A) :
  List.length (deque_append maxlen d x) = Nat.min (S (List.length d)) maxlen.
Proof.
  unfold deque_append. rewrite length_skipn, !length_app.
  change (List.length [x]) with 1%nat. lia.
Qed.

Lemma deque_append_suffix {A} (maxlen : nat) (d : list A) (x : A) :
  d ++ [x] =
  firstn (List.length (d ++ [x]) - maxlen) (d ++ [x]) ++ deque_append maxlen d x.
Proof.
  unfold deque_append. now rewrite firstn_skipn.
Qed.

Lemma occurrences_pos (h : history) (label : pystr) :
  (0 < occurrences h label)%nat -> exists c, In (Some label, c) h.
Proof.
  unfold occurrences. induction h as [|[[p|] c] r IH]; simpl.
  - lia.
  - unfold pystr_eqb at 1. destruct (pystr_eq_dec p label) as [->|Hne]; simpl.
    + intros _. exists c. now left.
    + intros H. destruct (IH H) as (c' & Hin). exists c'. now right.
  - intros H. destruct (IH H) as (c' & Hin). exists c'. now right.
Qed.

Lemma occurrences_all (h : history) (label : pystr) :
  (forall e, In e h -> fst e = Some label) ->
  occurrences h label = List.length h.
Proof.
  unfold occurrences. induction h as [|[p c] r IH]; simpl; [reflexivity|].
  intros Hall. pose proof (Hall (p, c) (or_introl eq_refl)) as E.
  simpl in E. subst p. unfold pystr_eqb at 1. destruct (pystr_eq_dec label label); [|congruence].
  simpl. f_equal. apply IH. intros e' He. apply Hall. now right.
Qed.

(** The decision taken once the window is full. *)
Lemma smoothing_full_window (h : history) (pred : prediction) (confidence : Q) :
  (DEFAULT_SMOOTHING_WINDOW <=
   List.length (deque_append DEFAULT_SMOOTHING_WINDOW h (pred, confidence)))%nat ->
  (exists best,
      fst (_apply_smoothing h pred confidence) = Some best
      /\ (DEFAULT_SMOOTHING_WINDOW / 2 <=
          occurrences (deque_append DEFAULT_SMOOTHING_WINDOW h (pred, confidence)) best)%nat
      /\ forall label,
          (occurrences (deque_append DEFAULT_SMOOTHING_WINDOW h (pred, confidence)) label
           <= occurrences (deque_append DEFAULT_SMOOTHING_WINDOW h (pred, confidence)) best)%nat)
  \/ (fst (_apply_smoothing h pred confidence) = pred
      /\ forall label,
          (occurrences (deque_append DEFAULT_SMOOTHING_WINDOW h (pred, confidence)) label
           < DEFAULT_SMOOTHING_WINDOW / 2)%nat).
Proof.
  intros Hfull. unfold _apply_smoothing.
  set (h' := deque_append DEFAULT_SMOOTHING_WINDOW h (pred, confidence)) in *.
  apply Nat.ltb_ge in Hfull. rewrite Hfull.
  pose proof (count_loop_counts h' [] []) as Hocc.
  pose proof (count_loop_wf h' [] [] (NoDup_nil _)) as Hwf.
  destruct (count_loop h' [] []) as [counts sums]. simpl fst in Hocc, Hwf.
  cbv iota beta.
  destruct counts as [|[k n] rest].
  - right. split; [reflexivity|]. intros label.
    specialize (Hocc label). unfold get_default in Hocc. simpl in Hocc.
    rewrite <- Hocc. simpl. lia.
  - pose proof (best_prediction_spec k n rest Hwf) as Hbest.
    assert (Hget : forall label,
               get_default ((k, n) :: rest) label 0%nat = occurrences h' label).
    { intros label. rewrite Hocc. reflexivity. }
    destruct (DEFAULT_SMOOTHING_WINDOW / 2 <=?
              get_default ((k, n) :: rest) (max_by_count k n rest) 0)%nat eqn:E.
    + left. exists (max_by_count k n rest). split; [reflexivity|].
      apply Nat.leb_le in E. rewrite Hget in E. split; [exact E|].
      intros label. rewrite <- !Hget. apply Hbest.
    + right. split; [reflexivity|]. apply Nat.leb_gt in E.
      intros label. rewrite <- Hget.
      eapply Nat.le_lt_trans; [apply Hbest | exact E].
Qed.

(** C5. The smoother appends the new (prediction, confidence) pair to a
    history that keeps the last 5 pairs.  While the history holds fewer than
    5 pairs the raw prediction is returned.  Once it holds 5, the most
    frequent label of the history is returned when its count is at least
    [5 // 2]; otherwise (no label reaches that count) the raw prediction is
    returned unchanged.  A history of 5 identical labels yields that
    label. *)
Theorem apply_smoothing_spec :
  forall (h : history) (pred : prediction) (confidence : Q),
    snd (_apply_smoothing h pred confidence)
    = deque_append DEFAULT_SMOOTHING_WINDOW h (pred, confidence)
    /\ List.length (snd (_apply_smoothing h pred confidence))
       = Nat.min (S (List.length h)) 5
    /\ (exists dropped,
          h ++ [(pred, confidence)]
          = dropped ++ snd (_apply_smoothing h pred confidence))
    /\ ((List.length (snd (_apply_smoothing h pred confidence)) < 5)%nat ->
        fst (_apply_smoothing h pred confidence) = pred)
    /\ ((5 <= List.length (snd (_apply_smoothing h pred confidence)))%nat ->
        (exists best,
            fst (_apply_smoothing h pred confidence) = Some best
            /\ (DEFAULT_SMOOTHING_WINDOW / 2 <=
                occurrences (snd (_apply_smoothing h pred confidence)) best)%nat
            /\ forall label,
                (occurrences (snd (_apply_smoothing h pred confidence)) label
                 <= occurrences (snd (_apply_smoothing h pred confidence)) best)%nat)
        \/ (fst (_apply_smoothing h pred confidence) = pred
            /\ forall label,
                (occurrences (snd (_apply_smoothing h pred confidence)) label
                 < DEFAULT_SMOOTHING_WINDOW / 2)%nat))
    /\ (forall label,
          List.length (snd (_apply_smoothing h pred confidence)) = 5%nat ->
          (forall e, In e (snd (_apply_smoothing h pred confidence)) ->
                     fst e = Some label) ->
          fst (_apply_smoothing h pred confidence) = Some label).
Proof.
  intros h pred confidence.
  assert (Hsnd : snd (_apply_smoothing h pred confidence)
                 = deque_append DEFAULT_SMOOTHING_WINDOW h (pred, confidence)).
  { unfold _apply_smoothing.
    destruct (List.length _ <? DEFAULT_SMOOTHING_WINDOW)%nat; [reflexivity|].
    destruct (count_loop _ [] []) as [[|[k n] rest] sums]; [reflexivity|].
    now destruct (_ <=? _)%nat. }
  rewrite Hsnd.
  split; [reflexivity|].
  split; [apply deque_append_length|].
  split; [eexists; apply deque_append_suffix|].
  split.
  { intros Hlt. unfold _apply_smoothing.
    apply Nat.ltb_lt in Hlt. unfold DEFAULT_SMOOTHING_WINDOW at 2.
    now rewrite Hlt. }
  split.
  { intros Hfull. now apply smoothing_full_window. }
  intros label Hlen Hall.
  destruct (smoothing_full_window h pred confidence) as [(best & Hout & Hhalf & Hmax)|(_ & Hlow)].
  - unfold DEFAULT_SMOOTHING_WINDOW at 1. lia.
  - rewrite Hout. f_equal.
    specialize (Hmax label). rewrite (occurrences_all _ label Hall), Hlen in Hmax.
    destruct (occurrences_pos
                (deque_append DEFAULT_SMOOTHING_WINDOW h (pred, confidence)) best)
      as (c & Hin); [lia|].
    specialize (Hall _ Hin). simpl in Hall. congruence.
  - exfalso. specialize (Hlow label).
    rewrite (occurrences_all _ label Hall), Hlen in Hlow.
    change (DEFAULT_SMOOTHING_WINDOW / 2)%nat with 2%nat in Hlow. lia.
Qed.

(** A full window without any repeated label keeps the raw prediction; one
    with a label seen twice returns that label. *)
Example smoothing_examples :
  fst (_apply_smoothing
         [(Some (u "a"), 1%Q); (Some (u "b"), 1%Q); (Some (u "c"), 1%Q);
          (Some (u "d"), 1%Q)] (Some (u "e")) 1%Q) = Some (u "e")
  /\ fst (_apply_smoothing
            [(Some (u "a"), 1%Q); (Some (u "a"), 1%Q); (Some (u "c"), 1%Q);
             (Some (u "d"), 1%Q)] (Some (u "e")) 1%Q) = Some (u "a")
  /\ fst (_apply_smoothing
            [(Some (u "a"), 1%Q); (Some (u "a"), 1%Q); (Some (u "a"), 1%Q);
             (Some (u "a"), 1%Q)] (Some (u "a")) 1%Q) = Some (u "a")
  /\ fst (_apply_smoothing
            [(Some (u "a"), 1%Q); (Some (u "a"), 1%Q)] (Some (u "b")) 1%Q)
     = Some (u "b").
Proof. repeat split. Qed.

End SignRecognition.

(* ================================================================== *)
(** * IEEE 754 binary64 *)
(* ================================================================== *)

(** Python's [float] and NumPy's [float64]: the operations of the standard
    library's [SpecFloat] at precision 53 and maximal exponent 1024, rounding
    to nearest with ties to even.  Overflow gives an infinity, underflow a
    subnormal number or zero, and [nan] propagates. *)
Module Float64.

Definition float : Type := spec_float.

Definition prec : Z := 53.
Definition emax : Z := 1024.

Definition add : float -> float -> float := SFadd prec emax.
Definition sub : float -> float -> float := SFsub prec emax.
Definition mul : float -> float -> float := SFmul prec emax.
Definition div : float -> float -> float := SFdiv prec emax.
Definition sqrt : float -> float := SFsqrt prec emax.

(** [a == b], [a < b] and [a <= b]; each is [False] when an operand is
    [nan].  [a > b] is [ltb b a] and [a >= b] is [leb b a]. *)
Definition eqb : float -> float -> bool := SFeqb.
Definition ltb : float -> float -> bool := SFltb.
Definition leb : float -> float -> bool := SFleb.

Definition is_nan (x : float) : bool :=
  match x with
  | S754_nan => true
  | _ => false
  end.

(** [float(n)] of an integer *)
Definition of_Z (n : Z) : float := binary_normalize prec emax n 0 false.

Definition zero : float := S754_zero false.
(** [1.0], [-1.0] and [3.0] *)
Definition one : float := S754_finite false 4503599627370496 (-52).
Definition minus_one : float := S754_finite true 4503599627370496 (-52).
Definition three : float := S754_finite false 6755399441055744 (-51).






End Float64.

(* ================================================================== *)
(** * The numpy operations of the speaker search, over the reals *)
(* ================================================================== *)

Module Numpy.
Import Py.
Local Open Scope R_scope.

Definition sum (l : list R) : R := fold_right Rplus 0 l.

(** [np.linalg.norm(v)] *)
Definition norm (v : list R) : R := sqrt (sum (map (fun x => x ^ 2) v)).

(** [np.dot(a, b)] on two vectors; shapes that differ raise [ValueError]. *)
Definition dot (a b : list R) : result R :=
  if (List.length a =? List.length b)%nat
  then Ok (sum (map (fun '(x, y) => x * y) (combine a b)))
  else Raise (PyError "ValueError" (u "shapes not aligned")).

End Numpy.

(* ================================================================== *)
(** * services/audio_preprocessor.py: loudness normalisation *)
(* ================================================================== *)

Module AudioPreprocessor.
Import Py.

Record AudioConfig := {
  target_sample_rate : Z;
  normalize_flag : bool;        (* [config.normalize] *)
  denoise : bool;
  remove_silence : bool;
  silence_threshold : Z;
  min_silence_duration : Z;
  channels : Z
}.

(** [AudioConfig()] *)
Definition default_config : AudioConfig :=
  {| target_sample_rate := 16000; normalize_flag := true; denoise := true;
     remove_silence := false; silence_threshold := -40;
     min_silence_duration := 100; channels := 1 |}.

(** What a caller may hand over as [audio_data]: a one-dimensional array of
    [float64] samples, or an object NumPy cannot do arithmetic on. *)
Inductive audio : Type :=
| NdArray (samples : list Float64.float)
| NotArray (description : pystr).

(** [20.0] *)
Definition twenty : Float64.float := S754_finite false 5629499534213120 (-48).

(** [min(a, b)] of Python on two floats: [b] if [b < a], else [a]. *)
Definition py_min (a b : Float64.float) : Float64.float :=
  if Float64.ltb b a then b else a.

(** [np.clip(x, lo, hi)] on one sample: [nan] stays, a sample that is not
    above [lo] becomes [lo], one that is not below [hi] becomes [hi]. *)
Definition np_maximum (a b : Float64.float) : Float64.float :=
  if Float64.is_nan a then a else if Float64.ltb b a then a else b.

Definition np_minimum (a b : Float64.float) : Float64.float :=
  if Float64.is_nan a then a else if Float64.ltb a b then a else b.

Definition clip (lo hi x : Float64.float) : Float64.float :=
  np_minimum (np_maximum x lo) hi.

(** [audio_data ** 2] raises [TypeError] on an object without arithmetic. *)
Definition as_samples (audio_data : audio) : result (list Float64.float) :=
  match audio_data with
  | NdArray samples => Ok samples
  | NotArray _ =>
    Raise (PyError "TypeError" (u "unsupported operand type(s) for ** or pow()"))
  end.

Section Normalize.
(** [np.mean] of a [float64] array; the order of the additions is NumPy's. *)
Variable np_mean : list Float64.float -> Float64.float.
(** [10 ** x] of Python on a float [x], the C library's [pow]; it raises
    [OverflowError] when the result is out of range. *)
Variable pow10 : Float64.float -> result Float64.float.

(** [np.sqrt(np.mean(audio_data ** 2))] *)
Definition rms (samples : list Float64.float) : Float64.float :=
  Float64.sqrt (np_mean (map (fun x => Float64.mul x x) samples)).

(** The body of the [try] block. *)
Definition normalize_body (config : AudioConfig) (audio_data : audio)
           (target_db : Float64.float) : result audio :=
  if negb (normalize_flag config) then Ok audio_data
  else
    samples <- as_samples audio_data ;;
    let rms := rms samples in
    if Float64.eqb rms Float64.zero then Ok audio_data
    else
      target_rms <- pow10 (Float64.div target_db twenty) ;;
      let scale_factor := Float64.div target_rms rms in
      let scale_factor := py_min scale_factor Float64.three in
      let normalized_audio := map (fun x => Float64.mul x scale_factor) samples in
      let normalized_audio :=
        map (clip Float64.minus_one Float64.one) normalized_audio in
      Ok (NdArray normalized_audio).

(** [except Exception: return audio_data] *)
Definition normalize (config : AudioConfig) (audio_data : audio)
           (target_db : Float64.float) : audio :=
  match normalize_body config audio_data target_db with
  | Ok a => a
  | Raise _ => audio_data
  end.

(** ** Clipping *)





End Normalize.

(** ** The claim at two buffers *)

(** A mean that adds the samples in their order.  It is used below on
    buffers of one and of two samples only, where the order of the additions
    plays no role. *)
Definition mean_in_order (a : list Float64.float) : Float64.float :=
  Float64.div (fold_left Float64.add a Float64.zero)
              (Float64.of_Z (Z.of_nat (List.length a))).

(** [10 ** x] at the exponent the default [target_db = -3.0] gives,
    [-0.15]: CPython answers [0.7079457843841379]. *)
Definition pow10_default (x : Float64.float) : result Float64.float :=
  Ok (S754_finite false 6376608741501834 (-53)).

(** [-3.0], [0.5], [1e-200] and [3e-200] *)
Definition minus_three : Float64.float := S754_finite true 6755399441055744 (-51).
Definition half : Float64.float := S754_finite false 4503599627370496 (-53).


(** A buffer the claim is right about: [[0.5, -0.25]] at [-3 dB] has the
    gain [1.7909769108546716], below the cap, and the output is
    [[0.8954884554273358, -0.4477442277136679]]. *)
Example normalize_half_quarter :
  normalize mean_in_order pow10_default default_config
            (NdArray [half; S754_finite true 4503599627370496 (-54)]) minus_three
  = NdArray [S754_finite false 8065842948354261 (-53);
             S754_finite true 8065842948354261 (-54)].
Proof. vm_compute. reflexivity. Qed.

End AudioPreprocessor.

(* ================================================================== *)
(** * main.py: the application's exception handlers *)
(* ================================================================== *)

Module Main.
Import Py.

(** The JSON values the error envelopes hold. *)
Inductive json : Type :=
| JBool (b : bool)
| JInt (z : Z)
| JStr (s : pystr).

Record JSONResponse := {
  status_code : Z;
  content : list (pystr * json)
}.

(** The line a handler writes to the log. *)
Definition log_line := pystr.

(** [type(exc).__name__] *)
Definition type_name (exc : exn) : pystr :=
  match exc with
  | HTTPException _ _ => u "HTTPException"
  | PyError t _ => bytes_of t
  end.

(** [@app.exception_handler(StarletteHTTPException)] *)
Definition http_exception_handler (status : Z) (detail : pystr) : JSONResponse :=
  {| status_code := status;
     content := [(u "success", JBool false);
                 (u "error", JStr detail);
                 (u "status_code", JInt status)] |}.

(** [@app.exception_handler(Exception)]: the response and the log entry. *)
Definition general_exception_handler (exc : exn) : JSONResponse * log_line :=
  ({| status_code := 500;
      content := [(u "success", JBool false);
                  (u "error", JStr (u "服务器内部错误"));
                  (u "status_code", JInt 500)] |},
   u "未处理的异常: " ++ type_name exc ++ u " - " ++ str_of_exn exc).

(** The handler the framework selects for an exception leaving a route. *)
Definition respond (exc : exn) : JSONResponse :=
  match exc with
  | HTTPException status detail => http_exception_handler status detail
  | PyError _ _ => fst (general_exception_handler exc)
  end.

(** The [error] member of an envelope. *)
Definition error_text (r : JSONResponse) : option json :=
  dict_get pystr_eq_dec (content r) (u "error").

(** The fixed envelope of the fallback handler. *)
Definition internal_error_envelope : JSONResponse :=
  {| status_code := 500;
     content := [(u "success", JBool false);
                 (u "error", JStr (u "服务器内部错误"));
                 (u "status_code", JInt 500)] |}.

(** C8. Whatever exception reaches the fallback handler, the response is the
    same 500 envelope [{success: false, error: <generic text>, status_code:
    500}]: two different exceptions get identical responses, so neither the
    type nor the message of the exception can be read off the response.  An
    exception caught inside a route, by contrast, is turned into an
    [HTTPException 500] whose detail ends with the exception's text, and the
    response shows it in its [error] member: different texts give different
    responses. *)
Theorem fallback_handler_hides_exception_text :
  (forall exc, fst (general_exception_handler exc) = internal_error_envelope)
  /\ (forall exc1 exc2,
        fst (general_exception_handler exc1) = fst (general_exception_handler exc2))
  /\ (forall t m, respond (PyError t m) = internal_error_envelope)
  /\ status_code internal_error_envelope = 500%Z
  /\ (forall t m,
        status_code (respond (Translation.route_catch
                                Translation.translate_text_prefix (PyError t m)))
        = 500%Z
        /\ error_text (respond (Translation.route_catch
                                  Translation.translate_text_prefix (PyError t m)))
           = Some (JStr (Translation.translate_text_prefix ++ m)))
  /\ (forall t1 m1 t2 m2,
        m1 <> m2 ->
        respond (Translation.route_catch
                   Translation.translate_text_prefix (PyError t1 m1))
        <> respond (Translation.route_catch
                      Translation.translate_text_prefix (PyError t2 m2))).
Proof.
  split; [reflexivity|]. split; [reflexivity|]. split; [reflexivity|].
  split; [reflexivity|]. split.
  - intros t m. split; reflexivity.
  - intros t1 m1 t2 m2 Hne H. apply Hne.
    apply (f_equal error_text) in H.
    change (Some (JStr (Translation.translate_text_prefix ++ m1))
            = Some (JStr (Translation.translate_text_prefix ++ m2))) in H.
    assert (E : Translation.translate_text_prefix ++ m1
                = Translation.translate_text_prefix ++ m2) by congruence.
    exact (app_inv_head _ _ _ E).
Qed.

End Main.

(* ================================================================== *)
(** * services/sign_grammar.py: word-order conversion *)
(* ================================================================== *)

Module SignGrammar.
Import Py.

Inductive SignLanguage : Type := ASL | CSL.

(** The processor's vocabulary: five sets of words. *)
Record SignGrammarProcessor := {
  sign_language : SignLanguage;
  time_expressions : list pystr;
  place_expressions : list pystr;
  pronouns : list pystr;
  verbs : list pystr;
  nouns : list pystr
}.

(** [word in s] *)
Definition mem (word : pystr) (s : list pystr) : bool :=
  if in_dec pystr_eq_dec word s then true else false.

(** [_initialize_vocabulary] *)
Definition initial_time_expressions : list pystr :=
  map u [ "现在"; "今天"; "明天"; "昨天"; "刚才"; "后来";
          "早晨"; "晚上"; "中午"; "白天"; "夜间";
          "以前"; "以后"; "总是"; "经常"; "偶尔";
          "星期一"; "星期二"; "星期三"; "星期四"; "星期五";
          "星期六"; "星期日"; "周一"; "周二"; "周三"; "周四";
          "周五"; "周六"; "周日"; "一"; "二"; "三"; "四"; "五"; "六"; "日";
          "早上"; "下午"; "傍晚"; "深夜"; "清晨" ]%string.

Definition initial_place_expressions : list pystr :=
  map u [ "这里"; "那里"; "家"; "学校"; "医院"; "商场";
          "北京"; "上海"; "广州"; "深圳"; "杭州";
          "办公室"; "教室"; "图书馆"; "公园"; "餐厅";
          "家"; "房间"; "客厅"; "卧室"; "厨房";
          "里面"; "外面"; "上面"; "下面"; "前面"; "后面";
          "左边"; "右边"; "旁边"; "附近"; "远处" ]%string.

Definition initial_pronouns : list pystr :=
  map u [ "我"; "你"; "他"; "她"; "它"; "我们"; "你们"; "他们"; "她们";
          "这"; "那"; "谁"; "什么"; "哪里"; "什么时候"; "怎么";
          "大家"; "别人"; "自己"; "各自"; "互相" ]%string.

Definition initial_verbs : list pystr :=
  map u [ "来"; "去"; "看"; "听"; "说"; "做"; "吃"; "喝";
          "学"; "教"; "帮"; "喜欢"; "爱"; "恨"; "想"; "要";
          "买"; "卖"; "读"; "写"; "玩"; "工作"; "休息";
          "开始"; "结束"; "继续"; "停止"; "等待"; "寻找";
          "认识"; "了解"; "相信"; "怀疑"; "知道"; "明白";
          "给"; "拿"; "放"; "带"; "送"; "拿走"; "放下";
          "走"; "跑"; "飞"; "跳"; "爬"; "坐"; "站"; "躺" ]%string.

Definition initial_nouns : list pystr :=
  map u [ "书"; "笔"; "杯子"; "桌子"; "椅子"; "手机"; "电脑";
          "饭"; "菜"; "水"; "桌子"; "杯子"; "杯子";
          "妈妈"; "爸爸"; "哥哥"; "姐姐"; "弟弟"; "妹妹";
          "朋友"; "老师"; "学生"; "医生"; "护士"; "警察";
          "衣服"; "鞋子"; "帽子"; "裤子"; "衣服";
          "车"; "公交车"; "火车"; "飞机"; "船";
          "天空"; "太阳"; "月亮"; "星星"; "云"; "雨"; "雪" ]%string.

(** [SignGrammarProcessor(sign_language)] *)
Definition new_processor (language : SignLanguage) : SignGrammarProcessor :=
  {| sign_language := language;
     time_expressions := initial_time_expressions;
     place_expressions := initial_place_expressions;
     pronouns := initial_pronouns;
     verbs := initial_verbs;
     nouns := initial_nouns |}.

(** The characters the pattern [[^\s,，.。、！？;；]+] excludes. *)
Definition is_delimiter (c : N) : bool :=
  isspace c || existsb (N.eqb c) (u ",，.。、！？;；").

(** [re.findall(r'[^\s,，.。、！？;；]+', sentence)] *)
Definition words_of (sentence : pystr) : list pystr :=
  fields is_delimiter [] sentence.

Record Structure := {
  time : list pystr;
  place : list pystr;
  subject : list pystr;
  verb : list pystr;
  object : list pystr;
  other : list pystr
}.

Definition empty_structure : Structure :=
  {| time := []; place := []; subject := []; verb := []; object := [];
     other := [] |}.

Definition add_time (s : Structure) (w : pystr) : Structure :=
  {| time := time s ++ [w]; place := place s; subject := subject s;
     verb := verb s; object := object s; other := other s |}.
Definition add_place (s : Structure) (w : pystr) : Structure :=
  {| time := time s; place := place s ++ [w]; subject := subject s;
     verb := verb s; object := object s; other := other s |}.
Definition add_subject (s : Structure) (w : pystr) : Structure :=
  {| time := time s; place := place s; subject := subject s ++ [w];
     verb := verb s; object := object s; other := other s |}.
Definition add_verb (s : Structure) (w : pystr) : Structure :=
  {| time := time s; place := place s; subject := subject s;
     verb := verb s ++ [w]; object := object s; other := other s |}.
Definition add_object (s : Structure) (w : pystr) : Structure :=
  {| time := time s; place := place s; subject := subject s;
     verb := verb s; object := object s ++ [w]; other := other s |}.
Definition add_other (s : Structure) (w : pystr) : Structure :=
  {| time := time s; place := place s; subject := subject s;
     verb := verb s; object := object s; other := other s ++ [w] |}.

Definition is_empty {A} (l : list A) : bool :=
  match l with [] => true | _ => false end.

(** One round of the loop over the words. *)
Definition analyze_word (p : SignGrammarProcessor) (structure : Structure)
           (word : pystr) : Structure :=
  let categorized := false in
  let '(structure, categorized) :=
    if mem word (time_expressions p)
    then (add_time structure word, true) else (structure, categorized) in
  let '(structure, categorized) :=
    if mem word (place_expressions p)
    then (add_place structure word, true) else (structure, categorized) in
  let '(structure, categorized) :=
    if mem word (pronouns p) || mem word (nouns p) then
      ((if is_empty (subject structure) && is_empty (object structure)
        then add_subject structure word
        else if is_empty (object structure)
             then add_object structure word
             else add_other structure word), true)
    else (structure, categorized) in
  let '(structure, categorized) :=
    if mem word (verbs p)
    then (add_verb structure word, true) else (structure, categorized) in
  if negb categorized then add_other structure word else structure.

Definition analyze_sentence_structure (p : SignGrammarProcessor)
           (sentence : pystr) : Structure :=
  fold_left (analyze_word p) (words_of sentence) empty_structure.

(** [ordered_parts] as the conversion assembles it. *)
Definition ordered_parts (language : SignLanguage) (s : Structure) : list pystr :=
  match language with
  | CSL => time s ++ place s ++ subject s ++ verb s ++ object s ++ other s
  | ASL => (time s ++ place s) ++ (subject s ++ object s ++ verb s) ++ other s
  end.

Definition convert_to_sign_language_word_order (p : SignGrammarProcessor)
           (sentence : pystr) : pystr :=
  let structure := analyze_sentence_structure p sentence in
  let parts := ordered_parts (sign_language p) structure in
  if is_empty parts then sentence else join (u " ") parts.

(** In how many of the four tests of the loop a word succeeds. *)
Definition category_count (p : SignGrammarProcessor) (word : pystr) : nat :=
  (Nat.b2n (mem word (time_expressions p))
   + Nat.b2n (mem word (place_expressions p))
   + Nat.b2n (mem word (pronouns p) || mem word (nouns p))
   + Nat.b2n (mem word (verbs p)))%nat.

(** ** Tokens and joining *)

Section Fields.
Variable delim : N -> bool.

(** A token: non-empty and free of delimiters. *)
Definition clean (t : pystr) : Prop :=
  t <> [] /\ Forall (fun c => delim c = false) t.

Lemma fields_run (t s cur : pystr) :
  Forall (fun c => delim c = false) t ->
  fields delim cur (t ++ s) = fields delim (cur ++ t) s.
Proof.
  revert cur. induction t as [|c t IH]; intros cur Ht; simpl.
  - now rewrite app_nil_r.
  - inversion Ht as [|? ? Hc Ht']; subst. rewrite Hc, IH by exact Ht'.
    now rewrite <- app_assoc.
Qed.

Lemma fields_clean (s cur : pystr) :
  Forall (fun c => delim c = false) cur ->
  Forall clean (fields delim cur s).
Proof.
  revert cur. induction s as [|c s IH]; intros cur Hcur; simpl.
  - destruct cur as [|a cur']; constructor; [|constructor].
    split; [discriminate | exact Hcur].
  - destruct (delim c) eqn:Hc.
    + destruct cur as [|a cur'].
      * apply IH. constructor.
      * constructor; [split; [discriminate | exact Hcur]|]. apply IH. constructor.
    + apply IH. apply Forall_app. split; [exact Hcur|]. now repeat constructor.
Qed.

Lemma fields_join (sp : N) (parts : list pystr) :
  delim sp = true ->
  Forall clean parts ->
  fields delim [] (join [sp] parts) = parts.
Proof.
  intros Hsp. induction parts as [|t rest IH]; intros Hall; [reflexivity|].
  inversion Hall as [|? ? [Hne Ht] Hrest]; subst.
  destruct rest as [|t' rest'].
  - simpl. rewrite <- (app_nil_r t) at 1. rewrite fields_run by exact Ht.
    simpl. destruct t; [congruence | reflexivity].
  - change (join [sp] (t :: t' :: rest'))
      with (t ++ [sp] ++ join [sp] (t' :: rest')).
    rewrite fields_run by exact Ht. simpl app at 1 2. simpl fields at 1.
    cbn [fields app]. rewrite Hsp.
    destruct t as [|a t0]; [congruence|]. f_equal. apply IH. exact Hrest.
Qed.

End Fields.

(** ** Every word lands in exactly one bucket *)

Definition count (l : list pystr) (x : pystr) : nat :=
  count_occ pystr_eq_dec l x.

Lemma analyze_word_count (p : SignGrammarProcessor) (s : Structure)
      (w x : pystr) :
  (category_count p w <= 1)%nat ->
  count (ordered_parts CSL (analyze_word p s w)) x
  = count (w :: ordered_parts CSL s) x.
Proof.
  unfold category_count, analyze_word, count. intros Hone.
  destruct (mem w (time_expressions p));
    destruct (mem w (place_expressions p));
    destruct (mem w (pronouns p) || mem w (nouns p));
    destruct (mem w (verbs p));
    simpl in Hone; try lia;
    cbn [negb add_time add_place add_verb add_other subject object];
    try (destruct (is_empty (subject s) && is_empty (object s));
         [|destruct (is_empty (object s))]);
    unfold ordered_parts, add_time, add_place, add_subject, add_verb,
           add_object, add_other;
    cbn [time place subject verb object other];
    rewrite ?count_occ_app; simpl;
    destruct (pystr_eq_dec w x); rewrite ?count_occ_app; lia.
Qed.

Lemma analyze_words_count (p : SignGrammarProcessor) (ws : list pystr)
      (s : Structure) (x : pystr) :
  (forall w, In w ws -> (category_count p w <= 1)%nat) ->
  count (ordered_parts CSL (fold_left (analyze_word p) ws s)) x
  = (count ws x + count (ordered_parts CSL s) x)%nat.
Proof.
  revert s. induction ws as [|w ws IH]; intros s Hone; [reflexivity|].
  cbn [fold_left].
  rewrite IH by (intros w' Hw'; apply Hone; now right).
  rewrite analyze_word_count by (apply Hone; now left).
  unfold count. cbn [count_occ]. destruct (pystr_eq_dec w x); lia.
Qed.

Lemma ordered_parts_language (language : SignLanguage) (s : Structure) (x : pystr) :
  count (ordered_parts language s) x = count (ordered_parts CSL s) x.
Proof.
  destruct language; [|reflexivity].
  unfold ordered_parts, count. rewrite !count_occ_app. lia.
Qed.

(** The parts assembled for a sentence are a rearrangement of its words. *)
Lemma ordered_parts_permutation (p : SignGrammarProcessor) (sentence : pystr) :
  (forall w, In w (words_of sentence) -> (category_count p w <= 1)%nat) ->
  Permutation
    (ordered_parts (sign_language p) (analyze_sentence_structure p sentence))
    (words_of sentence).
Proof.
  intros Hone. apply (Permutation_count_occ pystr_eq_dec). intros x.
  fold (count (ordered_parts (sign_language p)
                 (analyze_sentence_structure p sentence)) x).
  rewrite ordered_parts_language. unfold analyze_sentence_structure.
  rewrite analyze_words_count by exact Hone.
  unfold count, ordered_parts. simpl. lia.
Qed.

Lemma words_of_join (parts : list pystr) :
  Forall (clean is_delimiter) parts ->
  words_of (join (u " ") parts) = parts.
Proof.
  intros H. unfold words_of. change (u " ") with [32%N].
  now apply fields_join.
Qed.

(** C9. For every processor and every sentence whose words each succeed in
    at most one of the loop's tests (time, place, pronoun or noun, verb),
    the converted sentence consists of the same words as the input, each
    exactly as often: the parts that are joined with single spaces are a
    rearrangement of the extracted words, splitting the result into words
    gives them back, and a sentence without any word is returned as it
    is. *)
Theorem word_order_preserves_tokens :
  forall (p : SignGrammarProcessor) (sentence : pystr),
    (forall w, In w (words_of sentence) -> (category_count p w <= 1)%nat) ->
    Permutation (words_of (convert_to_sign_language_word_order p sentence))
                (words_of sentence)
    /\ Permutation
         (ordered_parts (sign_language p) (analyze_sentence_structure p sentence))
         (words_of sentence)
    /\ (words_of sentence <> [] ->
        convert_to_sign_language_word_order p sentence
        = join (u " ")
               (ordered_parts (sign_language p)
                              (analyze_sentence_structure p sentence)))
    /\ (words_of sentence = [] ->
        convert_to_sign_language_word_order p sentence = sentence).
Proof.
  intros p sentence Hone.
  pose proof (ordered_parts_permutation p sentence Hone) as Hperm.
  assert (Hclean : Forall (clean is_delimiter)
                     (ordered_parts (sign_language p)
                                    (analyze_sentence_structure p sentence))).
  { eapply Permutation_Forall; [apply Permutation_sym, Hperm|].
    apply fields_clean. constructor. }
  unfold convert_to_sign_language_word_order.
  destruct (ordered_parts (sign_language p) (analyze_sentence_structure p sentence))
    as [|t rest] eqn:Eparts.
  - simpl is_empty. cbv iota. repeat split.
    + apply Permutation_refl.
    + exact Hperm.
    + intros Hne. apply Permutation_nil in Hperm. congruence.
  - simpl is_empty. cbv iota. repeat split.
    + rewrite words_of_join by exact Hclean. exact Hperm.
    + exact Hperm.
    + intros Hnil. rewrite Hnil in Hperm.
      apply Permutation_sym, Permutation_nil in Hperm. discriminate.
Qed.

Lemma word_order_preserves_tokens_witness :
  convert_to_sign_language_word_order (new_processor CSL) (u "我 今天 去 学校")
  = u "今天 学校 我 去"
  /\ Permutation
       (words_of (convert_to_sign_language_word_order
                    (new_processor CSL) (u "我 今天 去 学校")))
       (words_of (u "我 今天 去 学校")).
Proof.
  split; [vm_compute; reflexivity|].
  refine (proj1 (word_order_preserves_tokens
                   (new_processor CSL) (u "我 今天 去 学校") _)).
  intros w Hin. vm_compute in Hin.
  destruct Hin as [<-|[<-|[<-|[<-|[]]]]]; vm_compute; lia.
Defined.

End SignGrammar.

(* ================================================================== *)
(** * utils/speaker_db.py: the comparison of [verify_speaker], over the reals *)
(* ================================================================== *)

Module SpeakerDatabase.
Import Py Numpy.
Local Open Scope R_scope.

(** The search and the verification run the same operations on the same
    values, so what is proved of their agreement in [SpeakerSearch] does not
    depend on how the arithmetic rounds: embeddings are real vectors here.
    [SpeakerVerification] has [verify_speaker] in binary64. *)

Record SpeakerProfile := {
  id : pystr;
  name : pystr;
  description : pystr;
  created_at : pystr;
  updated_at : pystr;
  sample_count : Z;
  is_active : bool;
  embedding : option (list R)
}.

(** [self.speakers_index] *)
Definition speakers_index := @dict pystr SpeakerProfile.

(** The query as it enters the comparison:
    [if query_norm > 0: query_embedding = query_embedding / query_norm]. *)
Definition normalize_query (query_embedding : list R) : list R :=
  let query_norm := norm query_embedding in
  if Rlt_dec 0 query_norm
  then map (fun x => x / query_norm) query_embedding
  else query_embedding.

(** The body of the [try] block. *)
Definition verify_speaker_body (index : speakers_index) (speaker_id : pystr)
           (query_embedding : list R) (threshold : R) : result (bool * R) :=
  match dict_get pystr_eq_dec index speaker_id with
  | None => Ok (false, 0)
  | Some profile =>
    match embedding profile with
    | None => Ok (false, 0)
    | Some profile_embedding =>
      let query_embedding := normalize_query query_embedding in
      similarity <- dot query_embedding profile_embedding ;;
      let is_match := if Rle_dec threshold similarity then true else false in
      Ok (is_match, similarity)
    end
  end.

(** [except Exception: return False, 0.0] *)
Definition verify_speaker (index : speakers_index) (speaker_id : pystr)
           (query_embedding : list R) (threshold : R) : bool * R :=
  match verify_speaker_body index speaker_id query_embedding threshold with
  | Ok r => r
  | Raise _ => (false, 0)
  end.

Definition alice : SpeakerProfile :=
  {| id := u "alice"; name := u "Alice"; description := [];
     created_at := []; updated_at := []; sample_count := 1;
     is_active := true; embedding := Some [1; 0] |}.

Definition pending : SpeakerProfile :=
  {| id := u "carol"; name := u "Carol"; description := [];
     created_at := []; updated_at := []; sample_count := 0;
     is_active := true; embedding := None |}.

Definition demo_index : speakers_index :=
  [(u "alice", alice); (u "carol", pending)].

End SpeakerDatabase.

(* ================================================================== *)
(** * utils/speaker_db.py: [verify_speaker] in binary64 *)
(* ================================================================== *)

Module SpeakerVerification.
Import Py.

Record SpeakerProfile := {
  id : pystr;
  name : pystr;
  description : pystr;
  created_at : pystr;
  updated_at : pystr;
  sample_count : Z;
  is_active : bool;
  embedding : option (list Float64.float)
}.

(** [self.speakers_index] *)
Definition speakers_index := @dict pystr SpeakerProfile.

Section Verify.
(** [np.linalg.norm] of a [float64] vector. *)
Variable np_norm : list Float64.float -> Float64.float.
(** [np.dot] of two [float64] vectors; shapes that differ raise
    [ValueError].  The order of the additions is the library's. *)
Variable np_dot : list Float64.float -> list Float64.float -> result Float64.float.

(** The query as it enters the comparison:
    [if query_norm > 0: query_embedding = query_embedding / query_norm]. *)
Definition normalize_query (query_embedding : list Float64.float)
  : list Float64.float :=
  let query_norm := np_norm query_embedding in
  if Float64.ltb Float64.zero query_norm
  then map (fun x => Float64.div x query_norm) query_embedding
  else query_embedding.

(** The body of the [try] block. *)
Definition verify_speaker_body (index : speakers_index) (speaker_id : pystr)
           (query_embedding : list Float64.float) (threshold : Float64.float)
  : result (bool * Float64.float) :=
  match dict_get pystr_eq_dec index speaker_id with
  | None => Ok (false, Float64.zero)
  | Some profile =>
    match embedding profile with
    | None => Ok (false, Float64.zero)
    | Some profile_embedding =>
      let query_embedding := normalize_query query_embedding in
      similarity <- np_dot query_embedding profile_embedding ;;
      let is_match := Float64.leb threshold similarity in
      Ok (is_match, similarity)
    end
  end.

(** [except Exception: return False, 0.0] *)
Definition verify_speaker (index : speakers_index) (speaker_id : pystr)
           (query_embedding : list Float64.float) (threshold : Float64.float)
  : bool * Float64.float :=
  match verify_speaker_body index speaker_id query_embedding threshold with
  | Ok r => r
  | Raise _ => (false, Float64.zero)
  end.






End Verify.

(** ** The claim at concrete queries *)

(** The dot product with the additions in the order of the entries, and the
    norm taken from it.  Both are used below on vectors of one and of two
    entries, where every product and sum is exact or a single rounding
    decides, so that the order of the additions plays no role. *)
Definition dot_in_order (a b : list Float64.float) : result Float64.float :=
  if (List.length a =? List.length b)%nat
  then Ok (fold_left Float64.add
                     (map (fun '(x, y) => Float64.mul x y) (combine a b))
                     Float64.zero)
  else Raise (PyError "ValueError" (u "shapes not aligned")).

Definition norm_in_order (a : list Float64.float) : Float64.float :=
  Float64.sqrt (fold_left Float64.add (map (fun x => Float64.mul x x) a)
                          Float64.zero).

Definition profile_of (embedding : option (list Float64.float)) : SpeakerProfile :=
  {| id := u "alice"; name := u "Alice"; description := [];
     created_at := []; updated_at := []; sample_count := 1;
     is_active := true; embedding := embedding |}.

(** [1e200], [0.7], [0.7071067811865475] and [0.7071067811865476] *)
Definition f1e200 : Float64.float := S754_finite false 5883593420661338 612.
Definition f0_7 : Float64.float := S754_finite false 6305039478318694 (-53).


(** The two answers without a comparison, and a shape mismatch. *)
Example verify_speaker_without_comparison :
  verify_speaker norm_in_order dot_in_order
    [(u "alice", profile_of (Some [Float64.one]))] (u "bob") [f1e200] f0_7
  = (false, Float64.zero)
  /\ verify_speaker norm_in_order dot_in_order
       [(u "alice", profile_of None)] (u "alice") [f1e200] f0_7
     = (false, Float64.zero)
  /\ verify_speaker norm_in_order dot_in_order
       [(u "alice", profile_of (Some [Float64.one]))] (u "alice")
       [Float64.one; Float64.one] f0_7
     = (false, Float64.zero).
Proof. split; [|split]; vm_compute; reflexivity. Qed.

End SpeakerVerification.

(* ================================================================== *)
(** * services/dual_translator.py: the other quality measures *)
(* ================================================================== *)

Module QualityEvaluator.
Import Py.

(** ** [evaluate_edit_distance]

    The table [dp] is filled row by row; a row is the list
    [dp[i][0], ..., dp[i][n]]. *)

(** One cell: [dp[i-1][j-1]] on equal characters, otherwise
    [1 + min(dp[i-1][j], dp[i][j-1], dp[i-1][j-1])]. *)
Definition cell (same : bool) (up left diag : nat) : nat :=
  if same then diag else (1 + Nat.min up (Nat.min left diag))%nat.

(** The cells [dp[i][j], ..., dp[i][n]] for the character [c] of the
    reference, given the previous row from column [j-1] on and the cell to
    the left. *)
Fixpoint fill_row (c : N) (hypothesis : pystr) (prev : list nat) (left : nat)
  : list nat :=
  match hypothesis, prev with
  | h :: hyp', diag :: ((up :: _) as prev') =>
    let v := cell (c =? h)%N up left diag in
    v :: fill_row c hyp' prev' v
  | _, _ => []
  end.

(** The rows below row [i], ending with the last one. *)
Fixpoint fill_rows (reference : pystr) (i : nat) (hypothesis : pystr)
         (prev : list nat) : list nat :=
  match reference with
  | [] => prev
  | c :: r =>
    fill_rows r (S i) hypothesis (S i :: fill_row c hypothesis prev (S i))
  end.

(** [dp[m][n]] *)
Definition dp_corner (reference hypothesis : pystr) : nat :=
  last (fill_rows reference 0 hypothesis (seq 0 (S (List.length hypothesis)))) 0%nat.

(** The returned similarity [1.0 - dp[m][n] / max_len], or [1.0] when both
    strings are empty. *)
Definition evaluate_edit_distance (reference hypothesis : pystr) : Q :=
  let m := List.length reference in
  let n := List.length hypothesis in
  let max_len := Nat.max m n in
  let normalized_distance :=
    if (0 <? max_len)%nat
    then (Z.of_nat (dp_corner reference hypothesis) # Pos.of_nat max_len)%Q
    else 0%Q in
  (1 - normalized_distance)%Q.

(** The Levenshtein distance by its recursion on the last characters; the
    arguments are read back to front. *)
Fixpoint lev (s : pystr) : pystr -> nat :=
  fix lev_s (t : pystr) : nat :=
    match s, t with
    | [], _ => List.length t
    | _, [] => List.length s
    | a :: s', b :: t' =>
      if (a =? b)%N then lev s' t'
      else (1 + Nat.min (lev s' t) (Nat.min (lev_s t') (lev s' t')))%nat
    end.

(** The reversed prefixes of [rest] stacked on [rt]. *)
Fixpoint rprefixes (rt rest : pystr) : list pystr :=
  rt :: match rest with
        | [] => []
        | h :: r => rprefixes (h :: rt) r
        end.

(** ** [_semantic_similarity] *)

(** [set(text.split())] *)
Definition word_set (text : pystr) : list pystr :=
  nodup pystr_eq_dec (split text).

Definition member (w : pystr) (s : list pystr) : bool :=
  if in_dec pystr_eq_dec w s then true else false.

Definition is_nil {A} (l : list A) : bool :=
  match l with [] => true | _ => false end.

Definition _semantic_similarity (text1 text2 : pystr) : Q :=
  let words1 := word_set text1 in
  let words2 := word_set text2 in
  if is_nil words1 || is_nil words2 then 0%Q
  else
    let intersection :=
      List.length (filter (fun w => member w words2) words1) in
    let union := List.length (nodup pystr_eq_dec (words1 ++ words2)) in
    if (0 <? union)%nat
    then (Z.of_nat intersection # Pos.of_nat union)%Q
    else 0%Q.

(** ** The table holds Levenshtein distances *)

Lemma lev_nil_l (t : pystr) : lev [] t = List.length t.
Proof. now destruct t. Qed.

Lemma lev_nil_r (s : pystr) : lev s [] = List.length s.
Proof. now destruct s. Qed.

Lemma lev_cons (a b : N) (s t : pystr) :
  lev (a :: s) (b :: t) =
  cell (a =? b)%N (lev s (b :: t)) (lev (a :: s) t) (lev s t).
Proof. reflexivity. Qed.

Lemma fill_row_lev (c : N) (rp rest rt : pystr) :
  fill_row c rest (map (lev rp) (rprefixes rt rest)) (lev (c :: rp) rt)
  = map (lev (c :: rp)) (tl (rprefixes rt rest)).
Proof.
  revert rt. induction rest as [|h r IH]; intros rt; [reflexivity|].
  cbn [rprefixes map tl fill_row].
  destruct r as [|h' r'].
  - cbn [rprefixes map fill_row]. now rewrite lev_cons.
  - specialize (IH (h :: rt)). cbn [rprefixes map tl] in IH.
    cbn [rprefixes map]. rewrite <- lev_cons. f_equal. exact IH.
Qed.

Lemma rprefixes_lengths (rt rest : pystr) :
  map (@List.length N) (rprefixes rt rest)
  = seq (List.length rt) (S (List.length rest)).
Proof.
  revert rt. induction rest as [|h r IH]; intros rt; [reflexivity|].
  cbn [rprefixes map]. rewrite IH. reflexivity.
Qed.

Lemma rprefixes_last (rt rest : pystr) :
  last (rprefixes rt rest) [] = rev rest ++ rt.
Proof.
  revert rt. induction rest as [|h r IH]; intros rt; [reflexivity|].
  cbn [rprefixes]. destruct r as [|h' r'].
  - reflexivity.
  - specialize (IH (h :: rt)). cbn [rprefixes] in IH |- *.
    cbn [last] in IH |- *. rewrite IH. cbn [rev]. now rewrite <- !app_assoc.
Qed.

Lemma fill_rows_lev (reference hypothesis rp : pystr) :
  fill_rows reference (List.length rp) hypothesis
            (map (lev rp) (rprefixes [] hypothesis))
  = map (lev (rev reference ++ rp)) (rprefixes [] hypothesis).
Proof.
  revert rp. induction reference as [|c r IH]; intros rp; [reflexivity|].
  cbn [fill_rows rev].
  replace (S (List.length rp)) with (lev (c :: rp) []) at 2
    by (rewrite lev_nil_r; reflexivity).
  rewrite fill_row_lev.
  change (S (List.length rp)) with (List.length (c :: rp)).
  replace (lev (c :: rp) [] :: map (lev (c :: rp)) (tl (rprefixes [] hypothesis)))
    with (map (lev (c :: rp)) (rprefixes [] hypothesis))
    by (destruct hypothesis; reflexivity).
  rewrite IH. now rewrite <- app_assoc.
Qed.

Lemma last_map {A B} (f : A -> B) (l : list A) (a : A) :
  l <> [] -> last (map f l) (f a) = f (last l a).
Proof.
  induction l as [|x l IH]; [congruence|]. intros _.
  destruct l as [|y l']; [reflexivity|].
  cbn [map last] in *. apply IH. discriminate.
Qed.

(** The corner of the table is the Levenshtein distance of the two
    strings. *)
Lemma dp_corner_lev (reference hypothesis : pystr) :
  dp_corner reference hypothesis = lev (rev reference) (rev hypothesis).
Proof.
  unfold dp_corner.
  replace (seq 0 (S (List.length hypothesis)))
    with (map (lev []) (rprefixes [] hypothesis)).
  - pose proof (fill_rows_lev reference hypothesis []) as E.
    cbn [List.length] in E. rewrite E. clear E. rewrite app_nil_r.
    assert (Hne : rprefixes [] hypothesis <> []) by (destruct hypothesis; discriminate).
    pose proof (last_map (lev (rev reference)) (rprefixes [] hypothesis) [] Hne) as H.
    rewrite rprefixes_last, app_nil_r in H. rewrite <- H.
    destruct (rprefixes [] hypothesis) as [|p ps]; [congruence|].
    clear. revert p. induction ps as [|q ps IH]; intros p; [reflexivity|].
    cbn [map last]. apply IH.
  - transitivity (map (@List.length N) (rprefixes [] hypothesis));
      [apply map_ext, lev_nil_l | apply rprefixes_lengths].
Qed.

(** ** Facts about the distance *)

Lemma lev_refl (s : pystr) : lev s s = 0%nat.
Proof.
  induction s as [|a s IH]; [reflexivity|].
  rewrite lev_cons, N.eqb_refl. exact IH.
Qed.

Lemma lev_le_max (s t : pystr) :
  (lev s t <= Nat.max (List.length s) (List.length t))%nat.
Proof.
  revert t. induction s as [|a s IH]; intros t.
  - rewrite lev_nil_l. simpl. lia.
  - destruct t as [|b t]; [rewrite lev_nil_r; lia|].
    rewrite lev_cons. specialize (IH t). unfold cell.
    cbn [List.length]. destruct (a =? b)%N; lia.
Qed.

Lemma lev_zero_eq (s t : pystr) : lev s t = 0%nat -> s = t.
Proof.
  revert t. induction s as [|a s IH]; intros t.
  - rewrite lev_nil_l. now destruct t.
  - destruct t as [|b t]; [rewrite lev_nil_r; discriminate|].
    rewrite lev_cons. unfold cell. destruct (a =? b)%N eqn:E; [|discriminate].
    apply N.eqb_eq in E. intros H. f_equal; [exact E | now apply IH].
Qed.

Lemma lev_sym (s t : pystr) : lev s t = lev t s.
Proof.
  revert t. induction s as [|a s IHs]; intros t.
  - now rewrite lev_nil_l, lev_nil_r.
  - induction t as [|b t IHt]; [now rewrite lev_nil_l, lev_nil_r|].
    rewrite !lev_cons, (N.eqb_sym b a), (IHs (b :: t)), IHt, (IHs t).
    unfold cell. destruct (a =? b)%N; lia.
Qed.

(** The Levenshtein distance of two strings. *)
Definition levenshtein (s t : pystr) : nat := lev (rev s) (rev t).

Lemma unit_fraction_bounds (d : nat) (p : positive) :
  (Z.of_nat d <= Z.pos p)%Z ->
  (0 <= 1 - (Z.of_nat d # p) /\ 1 - (Z.of_nat d # p) <= 1)%Q.
Proof.
  intros H. unfold Qle, Qminus, Qplus, Qopp. cbn [Qnum Qden].
  rewrite ?Pos2Z.inj_mul. split; lia.
Qed.

Lemma unit_fraction_zero (p : positive) : (1 - (Z.of_nat 0 # p) == 1)%Q.
Proof.
  unfold Qeq, Qminus, Qplus, Qopp. cbn [Qnum Qden Z.of_nat].
  rewrite ?Pos2Z.inj_mul. lia.
Qed.

Lemma unit_fraction_one (d : nat) (p : positive) :
  (1 - (Z.of_nat d # p) == 1)%Q -> d = 0%nat.
Proof.
  intros H. unfold Qeq, Qminus, Qplus, Qopp in H. cbn [Qnum Qden] in H.
  rewrite ?Pos2Z.inj_mul in H. lia.
Qed.

Lemma max_len_pos (m n : nat) :
  (0 <? Nat.max m n)%nat = true ->
  Z.pos (Pos.of_nat (Nat.max m n)) = Z.of_nat (Nat.max m n).
Proof.
  intros H. apply Nat.ltb_lt in H.
  destruct (Nat.max m n) as [|k] eqn:E; [lia|].
  rewrite <- E. lia.
Qed.

(** X1. [evaluate_edit_distance] fills its table with Levenshtein distances:
    the value returned is [1 - d / max(len(reference), len(hypothesis))]
    where [d] is the Levenshtein distance of the two strings as its
    textbook recursion defines it, and [1] when both strings are empty. *)
Theorem evaluate_edit_distance_levenshtein :
  forall reference hypothesis : pystr,
    dp_corner reference hypothesis = levenshtein reference hypothesis
    /\ evaluate_edit_distance reference hypothesis
       = (if (0 <? Nat.max (List.length reference) (List.length hypothesis))%nat
          then (1 - (Z.of_nat (levenshtein reference hypothesis)
                     # Pos.of_nat (Nat.max (List.length reference)
                                           (List.length hypothesis))))%Q
          else (1 - 0)%Q).
Proof.
  intros reference hypothesis. split; [apply dp_corner_lev|].
  unfold evaluate_edit_distance. rewrite dp_corner_lev.
  now destruct (0 <? _)%nat.
Qed.

(** X2. The edit similarity lies in [0, 1], is 1 for identical strings
    (the empty ones included) and only for them, and does not depend on
    the order of its two arguments. *)
Theorem evaluate_edit_distance_properties :
  forall reference hypothesis : pystr,
    (0 <= evaluate_edit_distance reference hypothesis)%Q
    /\ (evaluate_edit_distance reference hypothesis <= 1)%Q
    /\ (evaluate_edit_distance reference reference == 1)%Q
    /\ ((evaluate_edit_distance reference hypothesis == 1)%Q ->
        reference = hypothesis)
    /\ evaluate_edit_distance reference hypothesis
       = evaluate_edit_distance hypothesis reference.
Proof.
  intros reference hypothesis.
  assert (Hb : forall r h,
             (0 <? Nat.max (List.length r) (List.length h))%nat = true ->
             (Z.of_nat (dp_corner r h)
              <= Z.pos (Pos.of_nat (Nat.max (List.length r) (List.length h))))%Z).
  { intros r h Hpos. rewrite (max_len_pos _ _ Hpos), dp_corner_lev.
    pose proof (lev_le_max (rev r) (rev h)) as H. rewrite !length_rev in H. lia. }
  split; [|split; [|split; [|split]]].
  - unfold evaluate_edit_distance.
    destruct (0 <? _)%nat eqn:E; [|now compute].
    apply unit_fraction_bounds, Hb, E.
  - unfold evaluate_edit_distance.
    destruct (0 <? _)%nat eqn:E; [|now compute].
    apply unit_fraction_bounds, Hb, E.
  - unfold evaluate_edit_distance. rewrite dp_corner_lev, lev_refl.
    destruct (0 <? _)%nat; [apply unit_fraction_zero | reflexivity].
  - unfold evaluate_edit_distance. rewrite dp_corner_lev.
    destruct (0 <? _)%nat eqn:E.
    + intros H. apply unit_fraction_one in H. rename H into Hz.
      apply lev_zero_eq in Hz.
      rewrite <- (rev_involutive reference), Hz. apply rev_involutive.
    + intros _. apply Nat.ltb_ge in E.
      destruct reference, hypothesis; simpl in E; try lia. reflexivity.
  - unfold evaluate_edit_distance.
    rewrite !dp_corner_lev, (lev_sym (rev hypothesis)), (Nat.max_comm (List.length hypothesis)).
    reflexivity.
Qed.

(** Two spellings one substitution apart. *)
Example evaluate_edit_distance_example :
  dp_corner (u "kitten") (u "sitting") = 3%nat
  /\ evaluate_edit_distance (u "kitten") (u "sitting") = (1 - (3 # 7))%Q
  /\ evaluate_edit_distance (u "") (u "") = (1 - 0)%Q
  /\ evaluate_edit_distance (u "你好") (u "") = (1 - (2 # 2))%Q.
Proof. repeat split. Qed.

(** ** Facts about the word overlap *)

Lemma member_true (w : pystr) (l : list pystr) : member w l = true <-> In w l.
Proof. unfold member. destruct (in_dec pystr_eq_dec w l); split; auto; discriminate. Qed.

Lemma intersection_comm (a b : list pystr) :
  NoDup a -> NoDup b ->
  List.length (filter (fun w => member w b) a)
  = List.length (filter (fun w => member w a) b).
Proof.
  intros Ha Hb. apply Permutation_length. apply NoDup_Permutation.
  - now apply NoDup_filter.
  - now apply NoDup_filter.
  - intros x. rewrite !filter_In, !member_true. tauto.
Qed.

Lemma union_comm (a b : list pystr) :
  List.length (nodup pystr_eq_dec (a ++ b))
  = List.length (nodup pystr_eq_dec (b ++ a)).
Proof.
  apply Permutation_length. apply NoDup_Permutation; try apply NoDup_nodup.
  intros x. rewrite !nodup_In, !in_app_iff. tauto.
Qed.

Lemma intersection_le_union (a b : list pystr) :
  NoDup a ->
  (List.length (filter (fun w => member w b) a)
   <= List.length (nodup pystr_eq_dec (a ++ b)))%nat.
Proof.
  intros Ha. apply NoDup_incl_length; [now apply NoDup_filter|].
  intros x Hx. apply filter_In in Hx. apply nodup_In, in_app_iff. tauto.
Qed.

Lemma intersection_self (a : list pystr) :
  filter (fun w => member w a) a = a.
Proof.
  apply forallb_filter_id. apply forallb_forall. intros x Hx. now apply member_true.
Qed.

Lemma union_self (a : list pystr) :
  NoDup a -> List.length (nodup pystr_eq_dec (a ++ a)) = List.length a.
Proof.
  intros Ha. apply Permutation_length. apply NoDup_Permutation;
    [apply NoDup_nodup | exact Ha |].
  intros x. rewrite nodup_In, in_app_iff. tauto.
Qed.

Lemma ratio_bounds (i n : nat) :
  (i <= n)%nat -> (0 < n)%nat ->
  (0 <= (Z.of_nat i # Pos.of_nat n) /\ (Z.of_nat i # Pos.of_nat n) <= 1)%Q.
Proof.
  intros Hle Hpos. unfold Qle. cbn [Qnum Qden].
  assert (E : Z.pos (Pos.of_nat n) = Z.of_nat n) by (destruct n; lia).
  rewrite E. split; lia.
Qed.

(** X3. The word-overlap similarity is symmetric, lies in [0, 1], is 0 as
    soon as one text has no word, and is 1 for a text with at least one
    word compared with itself. *)
Theorem semantic_similarity_properties :
  forall text1 text2 : pystr,
    _semantic_similarity text1 text2 = _semantic_similarity text2 text1
    /\ (0 <= _semantic_similarity text1 text2)%Q
    /\ (_semantic_similarity text1 text2 <= 1)%Q
    /\ (split text1 = [] -> _semantic_similarity text1 text2 = 0%Q)
    /\ (split text1 <> [] -> (_semantic_similarity text1 text1 == 1)%Q).
Proof.
  intros text1 text2.
  pose proof (NoDup_nodup pystr_eq_dec (split text1)) as H1.
  pose proof (NoDup_nodup pystr_eq_dec (split text2)) as H2.
  fold (word_set text1) in H1. fold (word_set text2) in H2.
  split; [|split; [|split; [|split]]].
  - unfold _semantic_similarity.
    rewrite (orb_comm (is_nil (word_set text2))).
    rewrite (intersection_comm _ _ H2 H1), (union_comm (word_set text2)).
    reflexivity.
  - unfold _semantic_similarity.
    destruct (is_nil (word_set text1) || is_nil (word_set text2)); [now compute|].
    destruct (0 <? _)%nat eqn:E; [|now compute].
    apply Nat.ltb_lt in E.
    apply ratio_bounds; [now apply intersection_le_union | exact E].
  - unfold _semantic_similarity.
    destruct (is_nil (word_set text1) || is_nil (word_set text2)); [now compute|].
    destruct (0 <? _)%nat eqn:E; [|now compute].
    apply Nat.ltb_lt in E.
    apply ratio_bounds; [now apply intersection_le_union | exact E].
  - intros Hempty. unfold _semantic_similarity, word_set. now rewrite Hempty.
  - intros Hne. unfold _semantic_similarity.
    assert (Hw : word_set text1 <> []).
    { unfold word_set. intros E. destruct (split text1) as [|w ws]; [congruence|].
      assert (Hin : In w (nodup pystr_eq_dec (w :: ws))) by (apply nodup_In; now left).
      rewrite E in Hin. exact Hin. }
    destruct (word_set text1) as [|w ws] eqn:Ews; [congruence|].
    cbn [is_nil orb]. rewrite intersection_self, (union_self _ H1).
    cbn [List.length Nat.ltb Nat.leb]. unfold Qeq. cbn [Qnum Qden]. lia.
Qed.

Example semantic_similarity_example :
  _semantic_similarity (u "我 爱 你") (u "你 爱 他") = (2 # 4)%Q
  /\ _semantic_similarity (u "a a b") (u "b a") = (2 # 2)%Q
  /\ _semantic_similarity (u "   ") (u "a") = 0%Q.
Proof. repeat split. Qed.

End QualityEvaluator.

(* ================================================================== *)
(** * services/dual_translator.py: more on the cache and the counters *)
(* ================================================================== *)

Module CacheOps.
Import Py.
Import DualTranslator.

Section Generic.
Context {Value : Type}.
Variable md5_hexdigest : pystr -> pystr.

Abbreviation key := (_generate_key md5_hexdigest).

(** [get_stats] *)
Record CacheStats := {
  stat_cache_size : nat;
  stat_max_size : Z;
  stat_ttl : Q
}.

Definition get_stats (self : @TranslationCache Value) : CacheStats :=
  {| stat_cache_size := List.length (cache self);
     stat_max_size := cache_size self;
     stat_ttl := ttl self |}.

Lemma set_ok_inv (self : @TranslationCache Value) content direction value now self' :
  set md5_hexdigest self content direction value now = Ok self' ->
  exists c, cache self' = dict_set pystr_eq_dec c (key content direction) (value, now)
            /\ ttl self' = ttl self /\ cache_size self' = cache_size self
            /\ (c = cache self
                \/ exists victim, c = dict_del pystr_eq_dec (cache self) victim
                                  /\ (cache_size self
                                      <= Z.of_nat (List.length (cache self)))%Z).
Proof.
  unfold set.
  destruct (cache_size self <=? Z.of_nat (List.length (cache self)))%Z eqn:E.
  - destruct (oldest_key (cache self)) as [k|e]; simpl; [|discriminate].
    intros [= <-]. eexists. repeat split. right. exists k. split; [reflexivity|].
    now apply Z.leb_le.
  - simpl. intros [= <-]. eexists. repeat split. now left.
Qed.

(** X4. Insert and look up.  On a cache of capacity at least 1, [set]
    returns, and a [get] of the same content and direction made before the
    entry is [ttl] old answers the stored value and leaves the cache as it
    is.  Whatever [get] answers was stored and is younger than [ttl] at the
    time of the lookup.  A [set] on a cache below its capacity does not
    change the answer for any other key. *)
Theorem cache_set_get :
  (forall (self : @TranslationCache Value) content direction value now later,
      (0 < cache_size self)%Z ->
      (later - now < ttl self)%Q ->
      exists self',
        set md5_hexdigest self content direction value now = Ok self'
        /\ get md5_hexdigest self' content direction later = (Some value, self'))
  /\ (forall (self : @TranslationCache Value) content direction now value self',
        get md5_hexdigest self content direction now = (Some value, self') ->
        self' = self
        /\ exists timestamp,
            In (key content direction, (value, timestamp)) (cache self)
            /\ (now - timestamp < ttl self)%Q)
  /\ (forall (self : @TranslationCache Value) content direction value now self'
             content' direction' later,
        (Z.of_nat (List.length (cache self)) < cache_size self)%Z ->
        set md5_hexdigest self content direction value now = Ok self' ->
        key content' direction' <> key content direction ->
        fst (get md5_hexdigest self' content' direction' later)
        = fst (get md5_hexdigest self content' direction' later)).
Proof.
  split; [|split].
  - intros self content direction value now later Hpos Hage.
    assert (Hs : exists self', set md5_hexdigest self content direction value now = Ok self').
    { unfold set.
      destruct (cache_size self <=? Z.of_nat (List.length (cache self)))%Z eqn:E.
      - apply Z.leb_le in E.
        destruct (cache self) as [|[k [v ts]] rest]; [simpl in E; lia|].
        simpl. eauto.
      - simpl. eauto. }
    destruct Hs as (self' & Hs). exists self'. split; [exact Hs|].
    destruct (set_ok_inv _ _ _ _ _ _ Hs) as (c & Hc & Httl & _).
    unfold get. rewrite Hc, dict_get_set_eq, Httl.
    destruct (Qlt_le_dec (later - now) (ttl self)) as [_|Hle]; [reflexivity|].
    exfalso. exact (Qlt_not_le _ _ Hage Hle).
  - intros self content direction now value self'. unfold get.
    destruct (dict_get pystr_eq_dec (cache self) (key content direction))
      as [[v ts]|] eqn:E; [|discriminate].
    destruct (Qlt_le_dec (now - ts) (ttl self)) as [Hlt|]; [|discriminate].
    intros [= <- <-]. split; [reflexivity|]. exists ts.
    split; [now apply dict_get_In in E | exact Hlt].
  - intros self content direction value now self' content' direction' later
           Hroom Hs Hne.
    destruct (set_ok_inv _ _ _ _ _ _ Hs) as (c & Hc & Httl & _ & [->|(victim & _ & Hfull)]);
      [|lia].
    unfold get. rewrite Hc, Httl.
    rewrite dict_get_set_neq by (intros E; apply Hne; now rewrite E).
    destruct (dict_get pystr_eq_dec (cache self) (key content' direction'))
      as [[v ts]|]; [|reflexivity].
    now destruct (Qlt_le_dec (later - ts) (ttl self)).
Qed.

(** X5. A cache created with capacity 0 or less can store nothing: it stays
    empty, and every [set] raises the [ValueError] of [min()] on an empty
    sequence. *)
Theorem cache_without_capacity :
  forall (size : Z) (ttl_seconds : Q) content direction (value : Value) now,
    (size <= 0)%Z ->
    set md5_hexdigest (new_cache size ttl_seconds) content direction value now
    = Raise (PyError "ValueError" (u "min() arg is an empty sequence"))
    /\ get md5_hexdigest (@new_cache Value size ttl_seconds) content direction now
       = (None, new_cache size ttl_seconds).
Proof.
  intros size ttl_seconds content direction value now Hsize. split.
  - unfold set, new_cache. cbn [cache cache_size List.length Z.of_nat].
    apply Z.leb_le in Hsize. rewrite Hsize. reflexivity.
  - reflexivity.
Qed.

End Generic.

Lemma cache_without_capacity_witness :
  set (fun raw => raw) (new_cache 0 3600) (u "hi") (u "text_to_sign") 7%nat 1%Q
  = Raise (PyError "ValueError" (u "min() arg is an empty sequence")).
Proof.
  refine (proj1 (cache_without_capacity (fun raw => raw) 0 3600 (u "hi")
                                        (u "text_to_sign") 7%nat 1%Q _)).
  lia.
Defined.

End CacheOps.

Module TranslatorOps.
Import Py.
Import DualTranslator.

Section Counters.
Variable md5_hexdigest : pystr -> pystr.
Context {SignSequence : Type}.
Variable actions_len : SignSequence -> nat.
Variable total_duration : SignSequence -> Q.
Context {AnimationParameters : Type}.
Variable service_translate : pystr -> bool -> option pystr -> result SignSequence.
Variable export_animation_parameters : SignSequence -> AnimationParameters.

Abbreviation translator := (@t SignSequence AnimationParameters).
Abbreviation call_text_to_sign :=
  (text_to_sign md5_hexdigest actions_len total_duration service_translate
                export_animation_parameters).

(** [DualTranslator(cache_size=...)]: an empty cache with the default TTL
    and all counters at 0. *)
Definition new_translator (size : Z) : translator :=
  {| tcache := new_cache size 3600;
     stats := {| sign_to_text_count := 0; text_to_sign_count := 0;
                 total_translations := 0; cache_hits := 0; cache_misses := 0 |} |}.

(** The [hit_rate] entry of [get_translation_statistics]. *)
Definition hit_rate (self : translator) : Q :=
  let hits := cache_hits (stats self) in
  let misses := cache_misses (stats self) in
  if (0 <? hits + misses)%Z
  then (inject_Z hits / inject_Z (hits + misses))%Q
  else 0%Q.

(** One [text_to_sign] call with its arguments and clock readings. *)
Record Call := {
  call_text : pystr;
  call_use_cache : bool;
  call_apply_grammar : bool;
  call_rhythm : option pystr;
  call_clock : Clock
}.

Definition perform (self : translator) (c : Call) : result TranslationResult * translator :=
  call_text_to_sign self (call_text c) (call_use_cache c) (call_apply_grammar c)
                    (call_rhythm c) (call_clock c).

(** The translator after a sequence of calls, exceptions being left to the
    callers. *)
Fixpoint run (calls : list Call) (self : translator) : translator :=
  match calls with
  | [] => self
  | c :: rest => run rest (snd (perform self c))
  end.

Definition cached_calls (calls : list Call) : nat :=
  List.length (filter call_use_cache calls).

(** What one call does to the counters. *)
Lemma perform_counters (self : translator) (c : Call) :
  let s := stats self in
  let s' := stats (snd (perform self c)) in
  (cache_hits s' + cache_misses s'
   = cache_hits s + cache_misses s + (if call_use_cache c then 1 else 0))%Z
  /\ (cache_hits s <= cache_hits s')%Z
  /\ (cache_misses s <= cache_misses s')%Z
  /\ sign_to_text_count s' = sign_to_text_count s
  /\ (total_translations s' - text_to_sign_count s'
      = total_translations s - text_to_sign_count s)%Z
  /\ (text_to_sign_count s <= text_to_sign_count s')%Z
  /\ (text_to_sign_count s' - text_to_sign_count s
      + (cache_hits s' - cache_hits s) <= 1)%Z.
Proof.
  unfold perform, text_to_sign. destruct c as [text uc ag rh clock]. cbn [call_text call_use_cache call_apply_grammar call_rhythm call_clock].
  destruct uc.
  - destruct (get md5_hexdigest (tcache self) text text_to_sign_direction (at_get clock))
      as [[r|] c'].
    + cbn. lia.
    + destruct (service_translate text ag rh) as [sequence|e]; [|cbn; lia].
      match goal with
      | |- context [set ?m ?c ?x ?d ?v ?n] => destruct (set m c x d v n)
      end; cbn; lia.
  - destruct (service_translate text ag rh) as [sequence|e]; cbn; lia.
Qed.

(** X6. Counter accounting.  After any sequence of [text_to_sign] calls on
    a new translator, raised exceptions included: [cache_hits +
    cache_misses] is the number of calls made with the cache enabled,
    [total_translations] equals [text_to_sign_count], which is at most the
    number of calls that were not hits, and the reported hit rate lies in
    [0, 1]. *)
Theorem text_to_sign_accounting :
  forall (size : Z) (calls : list Call),
    let s := stats (run calls (new_translator size)) in
    (cache_hits s + cache_misses s = Z.of_nat (cached_calls calls))%Z
    /\ (0 <= cache_hits s)%Z /\ (0 <= cache_misses s)%Z
    /\ total_translations s = text_to_sign_count s
    /\ sign_to_text_count s = 0%Z
    /\ (0 <= text_to_sign_count s)%Z
    /\ (text_to_sign_count s + cache_hits s <= Z.of_nat (List.length calls))%Z
    /\ (0 <= hit_rate (run calls (new_translator size)))%Q
    /\ (hit_rate (run calls (new_translator size)) <= 1)%Q.
Proof.
  intros size calls.
  assert (G : forall (self : translator),
             let s0 := stats self in
             let s := stats (run calls self) in
             (cache_hits s + cache_misses s
              = cache_hits s0 + cache_misses s0 + Z.of_nat (cached_calls calls))%Z
             /\ (cache_hits s0 <= cache_hits s)%Z
             /\ (cache_misses s0 <= cache_misses s)%Z
             /\ sign_to_text_count s = sign_to_text_count s0
             /\ (total_translations s - text_to_sign_count s
                 = total_translations s0 - text_to_sign_count s0)%Z
             /\ (text_to_sign_count s0 <= text_to_sign_count s)%Z
             /\ (text_to_sign_count s - text_to_sign_count s0
                 + (cache_hits s - cache_hits s0)
                 <= Z.of_nat (List.length calls))%Z).
  { induction calls as [|c rest IH]; intros self.
    - cbn. lia.
    - cbn [run]. specialize (IH (snd (perform self c))).
      pose proof (perform_counters self c) as P. cbv zeta in IH, P |- *.
      unfold cached_calls in *. cbn [filter List.length].
      destruct (call_use_cache c); cbn [List.length]; lia. }
  specialize (G (new_translator size)). cbv zeta in G |- *.
  cbn [new_translator stats cache_hits cache_misses sign_to_text_count
       total_translations text_to_sign_count] in G.
  destruct G as (G1 & G2 & G3 & G4 & G5 & G6 & G7).
  repeat split; try lia.
  - unfold hit_rate. destruct (0 <? _)%Z eqn:E; [|now compute].
    apply Z.ltb_lt in E. apply Qle_shift_div_l.
    + unfold Qlt. cbn. lia.
    + unfold Qle. cbn. lia.
  - unfold hit_rate. destruct (0 <? _)%Z eqn:E; [|now compute].
    apply Z.ltb_lt in E. apply Qle_shift_div_r.
    + unfold Qlt. cbn. lia.
    + rewrite Qmult_1_l, <- Zle_Qle. lia.
Qed.

End Counters.

(** ** [batch_translate] *)
Section Batch.
(** The translator state, the inputs, the results and [self.translate] as an
    operation on the state that returns or raises. *)
Variables (State Input Output : Type).
Variable translate : State -> Input -> result Output * State.

Record BatchTranslationResult := {
  results : list Output;
  total_count : nat;
  success_count : nat;
  failure_count : nat
}.

(** The loop: a result joins the list, an exception only counts. *)
Fixpoint batch_loop (self : State) (inputs : list Input)
         (acc : list Output) (successes failures : nat)
  : list Output * nat * nat * State :=
  match inputs with
  | [] => (acc, successes, failures, self)
  | input_data :: rest =>
    match translate self input_data with
    | (Ok result, self') => batch_loop self' rest (acc ++ [result]) (S successes) failures
    | (Raise _, self') => batch_loop self' rest acc successes (S failures)
    end
  end.

Definition batch_translate (self : State) (inputs : list Input)
  : BatchTranslationResult * State :=
  let '(res, successes, failures, self') := batch_loop self inputs [] 0%nat 0%nat in
  ({| results := res; total_count := List.length inputs;
      success_count := successes; failure_count := failures |}, self').

(** The outcomes of translating the inputs one after the other. *)
Fixpoint outcomes (self : State) (inputs : list Input) : list (result Output) :=
  match inputs with
  | [] => []
  | input_data :: rest =>
    fst (translate self input_data) :: outcomes (snd (translate self input_data)) rest
  end.

Definition successes_of (l : list (result Output)) : list Output :=
  flat_map (fun o => match o with Ok r => [r] | Raise _ => [] end) l.

Lemma batch_loop_spec (self : State) (inputs : list Input) acc successes failures :
  let '(res, s, f, _) := batch_loop self inputs acc successes failures in
  res = acc ++ successes_of (outcomes self inputs)
  /\ s = (successes + List.length (successes_of (outcomes self inputs)))%nat
  /\ (s + f = successes + failures + List.length inputs)%nat.
Proof.
  revert self acc successes failures.
  induction inputs as [|x rest IH]; intros self acc successes failures.
  - cbn. rewrite app_nil_r. repeat split; lia.
  - cbn [batch_loop outcomes successes_of flat_map].
    destruct (translate self x) as [[r|e] self'] eqn:E; cbn [fst snd].
    + specialize (IH self' (acc ++ [r]) (S successes) failures).
      destruct (batch_loop self' rest (acc ++ [r]) (S successes) failures)
        as [[[res s] f] st].
      destruct IH as (-> & -> & IH3). fold (successes_of (outcomes self' rest)).
      rewrite <- app_assoc. cbn [app List.length]. repeat split; lia.
    + specialize (IH self' acc successes (S failures)).
      destruct (batch_loop self' rest acc successes (S failures))
        as [[[res s] f] st].
      destruct IH as (-> & -> & IH3). fold (successes_of (outcomes self' rest)).
      cbn [app List.length]. repeat split; lia.
Qed.

(** X7. [batch_translate] never raises because of an input: its result
    lists, in input order, the results of exactly the inputs whose
    translation returned; [success_count] is the length of that list,
    [total_count] the number of inputs, and [success_count + failure_count =
    total_count]. *)
Theorem batch_translate_counts :
  forall (self : State) (inputs : list Input),
    let b := fst (batch_translate self inputs) in
    results b = successes_of (outcomes self inputs)
    /\ success_count b = List.length (results b)
    /\ total_count b = List.length inputs
    /\ (success_count b + failure_count b = total_count b)%nat.
Proof.
  intros self inputs. unfold batch_translate.
  pose proof (batch_loop_spec self inputs [] 0%nat 0%nat) as H.
  destruct (batch_loop self inputs [] 0%nat 0%nat) as [[[res s] f] st].
  destruct H as (-> & -> & H3). cbn. repeat split; lia.
Qed.

End Batch.

End TranslatorOps.

(* ================================================================== *)
(** * api/routes/translation.py: the batch route *)
(* ================================================================== *)

Module TranslationBatch.
Import Py.
Import Translation.

Record BatchTranslationRequest := {
  texts : list pystr;
  batch_source_lang : option pystr;
  batch_target_lang : option pystr
}.

(** One dict of [results]: the entry of a translated text, or the entry the
    [except] clause of the loop appends. *)
Inductive Entry :=
| Translated (index : nat) (original_text translated_text : pystr)
             (success : bool) (confidence : Q)
| Failed (index : nat) (original_text : pystr) (success : bool) (error : pystr).

Record BatchTranslationResponse := {
  batch_success : bool;
  batch_results : list Entry;
  total : nat;
  successful : nat;
  failed : nat
}.

(** The loop over [request.texts].  Formatting a string raises nothing, so
    the [except] clause of the loop body is never entered. *)
Fixpoint batch_loop (source_lang target_lang : pystr) (todo : list pystr)
         (results : list Entry) (successful failed : nat)
  : list Entry * nat * nat :=
  match todo with
  | [] => (results, successful, failed)
  | text :: rest =>
    let translated :=
      if pystr_eqb source_lang (u "zh") && pystr_eqb target_lang (u "en")
      then u "[EN] " ++ text
      else if pystr_eqb source_lang (u "en") && pystr_eqb target_lang (u "zh")
      then u "[中文] " ++ text
      else u "[" ++ target_lang ++ u "] " ++ text in
    batch_loop source_lang target_lang rest
               (results ++ [Translated (List.length results) text translated
                                       true (95 # 100)%Q])
               (S successful) failed
  end.

Definition translate_text_batch_body (request : BatchTranslationRequest)
  : result BatchTranslationResponse :=
  let source := or_default (batch_source_lang request) (DEFAULT_SOURCE_LANG settings) in
  let target := or_default (batch_target_lang request) (DEFAULT_TARGET_LANG settings) in
  if pystr_eqb source target then
    Raise (HTTPException 400 (u "源语言和目标语言不能相同"))
  else
    let '(results, successful, failed) :=
      batch_loop source target (texts request) [] 0%nat 0%nat in
    Ok {| batch_success := true;
          batch_results := results;
          total := List.length (texts request);
          successful := successful;
          failed := failed |}.

Definition translate_text_batch (request : BatchTranslationRequest)
  : result BatchTranslationResponse :=
  guarded (u "批量翻译失败: ") (translate_text_batch_body request).

(** The single request made of one text of a batch. *)
Definition single (request : BatchTranslationRequest) (text : pystr)
  : TranslationRequest :=
  {| req_text := text;
     req_source_lang := batch_source_lang request;
     req_target_lang := batch_target_lang request |}.

(** The entry the batch route builds from the answer of the single route. *)
Definition entry_of (index : nat) (r : TranslationResponse) : Entry :=
  Translated index (original_text r) (translated_text r) true (resp_confidence r).

Fixpoint entries_from (index : nat) (rs : list TranslationResponse) : list Entry :=
  match rs with
  | [] => []
  | r :: rest => entry_of index r :: entries_from (S index) rest
  end.

Lemma entries_from_length index rs :
  List.length (entries_from index rs) = List.length rs.
Proof.
  revert index. induction rs as [|r rs IH]; intros index; cbn; [reflexivity|].
  now rewrite IH.
Qed.

Lemma entries_from_nth rs : forall index i r,
  nth_error rs i = Some r ->
  nth_error (entries_from index rs) i = Some (entry_of (index + i) r).
Proof.
  induction rs as [|r0 rs IH]; intros index i r.
  - destruct i; discriminate.
  - destruct i as [|i]; cbn.
    + intros [= ->]. now rewrite Nat.add_0_r.
    + intros H. rewrite (IH (S index) i r H). f_equal. f_equal. lia.
Qed.

(** The response the single route gives for a pair of distinct languages. *)
Definition answer (source target text : pystr) : TranslationResponse :=
  {| resp_success := true;
     original_text := text;
     translated_text :=
       if pystr_eqb source (u "zh") && pystr_eqb target (u "en")
       then u "[EN] " ++ text
       else if pystr_eqb source (u "en") && pystr_eqb target (u "zh")
       then u "[中文] " ++ text
       else u "[" ++ target ++ u "] " ++ text;
     source_lang := source;
     target_lang := target;
     resp_confidence := (95 # 100)%Q;
     message := u "翻译成功" |}.

Lemma route_batch_loop_spec source target todo : forall results successful failed,
  batch_loop source target todo results successful failed
  = (results ++ entries_from (List.length results)
                             (map (answer source target) todo),
     (successful + List.length todo)%nat, failed).
Proof.
  induction todo as [|text rest IH]; intros results successful failed.
  - cbn. now rewrite app_nil_r, Nat.add_0_r.
  - cbn [batch_loop]. rewrite IH. rewrite <- app_assoc, length_app.
    cbn [List.length map entries_from app entry_of answer original_text
         translated_text resp_confidence].
    rewrite Nat.add_1_r. f_equal. f_equal. lia.
Qed.

Lemma translate_text_cases (request : TranslationRequest) :
  let source := or_default (req_source_lang request) (DEFAULT_SOURCE_LANG settings) in
  let target := or_default (req_target_lang request) (DEFAULT_TARGET_LANG settings) in
  translate_text request
  = if pystr_eqb source target
    then Raise (HTTPException 400 (u "源语言和目标语言不能相同"))
    else Ok (answer source target (req_text request)).
Proof.
  cbv zeta. unfold translate_text, translate_text_body.
  destruct (pystr_eqb _ _); reflexivity.
Qed.

(** X8. The batch route agrees with the single route.  With the same
    language settings, either both raise the same [HTTPException] 400
    (equal effective languages; the batch then translates nothing, even an
    empty list), or the batch returns one entry per text, in order, entry
    [i] carrying index [i] and the original and translated text that
    [translate_text] returns for text [i]; [total] and [successful] are the
    number of texts and [failed] is 0.  Neither route answers with status
    500. *)
Theorem translate_text_batch_agrees :
  forall (request : BatchTranslationRequest),
    (forall status detail,
        translate_text_batch request = Raise (HTTPException status detail) ->
        status = 400%Z
        /\ forall text, translate_text (single request text)
                        = Raise (HTTPException status detail))
    /\ (forall type_name msg,
           translate_text_batch request <> Raise (PyError type_name msg))
    /\ (forall response,
           translate_text_batch request = Ok response ->
           batch_success response = true
           /\ total response = List.length (texts request)
           /\ successful response = List.length (texts request)
           /\ failed response = 0%nat
           /\ List.length (batch_results response) = List.length (texts request)
           /\ forall i text,
               nth_error (texts request) i = Some text ->
               exists r,
                 translate_text (single request text) = Ok r
                 /\ nth_error (batch_results response) i = Some (entry_of i r)
                 /\ original_text r = text).
Proof.
  intros request.
  unfold translate_text_batch, translate_text_batch_body.
  set (source := or_default (batch_source_lang request) (DEFAULT_SOURCE_LANG settings)).
  set (target := or_default (batch_target_lang request) (DEFAULT_TARGET_LANG settings)).
  assert (S1 : forall text,
             translate_text (single request text)
             = if pystr_eqb source target
               then Raise (HTTPException 400 (u "源语言和目标语言不能相同"))
               else Ok (answer source target text)).
  { intros text. apply (translate_text_cases (single request text)). }
  rewrite route_batch_loop_spec.
  set (same := u "源语言和目标语言不能相同") in *.
  set (prefix := u "批量翻译失败: ").
  destruct (pystr_eqb source target) eqn:E; cbn [guarded route_catch].
  - split; [|split].
    + intros status detail H. injection H as <- <-.
      split; [reflexivity|]. intros text. apply S1.
    + intros tn msg H. discriminate H.
    + intros response H. discriminate H.
  - split; [|split].
    + intros status detail H. discriminate H.
    + intros tn msg H. discriminate H.
    + intros response H. injection H as <-.
      cbn [batch_success total successful failed batch_results app List.length Nat.add].
      rewrite entries_from_length, length_map. repeat split.
      intros i text Hi. exists (answer source target text).
      split; [apply S1|]. split; [|reflexivity].
      change i with (0 + i)%nat at 2. apply entries_from_nth.
      now rewrite nth_error_map, Hi.
Qed.

End TranslationBatch.

(* ================================================================== *)
(** * api/config.py: the registry over sequences of operations *)
(* ================================================================== *)

Module RegistryRuns.
Import Py.
Import ConnectionManager.

Section Runs.
Context {Message : Type}.

Abbreviation registry := (@ConnectionManager.t Message).

(** The calls made on the shared [manager]. *)
Inductive Op :=
| Connect (websocket : @WebSocket Message) (client_id : pystr)
| Disconnect (client_id : pystr)
| Send (message : Message) (client_id : pystr)
| Broadcast (message : Message) (exclude_client_id : option pystr).

(** The registry after one call; a call that raises ([connect] when
    [accept] does) has changed nothing by then. *)
Definition step (self : registry) (op : Op) : registry :=
  match op with
  | Connect websocket client_id =>
    match connect self websocket client_id with
    | Ok self' => self'
    | Raise _ => self
    end
  | Disconnect client_id => disconnect self client_id
  | Send message client_id =>
    match send_personal_message self message client_id with
    | Ok (self', _) => self'
    | Raise _ => self
    end
  | Broadcast message exclude_client_id =>
    fst (broadcast self message exclude_client_id)
  end.

Definition run (ops : list Op) (self : registry) : registry :=
  fold_left step ops self.

(** Whether a call is a completed [connect] under an id that is still
    registered. *)
Definition reconnects (self : registry) (op : Op) : bool :=
  match op with
  | Connect websocket client_id =>
    match accept websocket with
    | Ok _ => is_connected self client_id
    | Raise _ => false
    end
  | _ => false
  end.

Fixpoint reconnections (ops : list Op) (self : registry) : nat :=
  match ops with
  | [] => 0
  | op :: rest =>
    ((if reconnects self op then 1 else 0) + reconnections rest (step self op))%nat
  end.

(** The counter minus the number of registered connections. *)
Definition surplus (self : registry) : Z :=
  (connection_count self - Z.of_nat (List.length (active_connections self)))%Z.

Lemma surplus_disconnect self client_id :
  surplus (disconnect self client_id) = surplus self.
Proof.
  unfold surplus, disconnect.
  destruct (dict_mem pystr_eq_dec (active_connections self) client_id) eqn:E;
    [|reflexivity].
  cbn [connection_count active_connections].
  pose proof (dict_length_del pystr_eq_dec (active_connections self) client_id E).
  lia.
Qed.

Lemma surplus_fold_disconnect l : forall self,
  surplus (fold_left disconnect l self) = surplus self.
Proof.
  induction l as [|c l IH]; intros self; cbn [fold_left]; [reflexivity|].
  now rewrite IH, surplus_disconnect.
Qed.

Lemma surplus_step self op :
  surplus (step self op)
  = (surplus self + (if reconnects self op then 1 else 0))%Z.
Proof.
  destruct op as [ws c|c|m c|m ex]; cbn [step reconnects].
  - unfold connect. destruct (accept ws); cbn [bind]; [|lia].
    unfold surplus. cbn [connection_count active_connections].
    rewrite (dict_length_set pystr_eq_dec). unfold is_connected.
    destruct (dict_mem pystr_eq_dec (active_connections self) c); lia.
  - rewrite surplus_disconnect. lia.
  - unfold send_personal_message.
    destruct (dict_get pystr_eq_dec (active_connections self) c) as [ws|];
      [|lia].
    destruct (send_json ws m); cbn; [lia|]. rewrite surplus_disconnect. lia.
  - rewrite broadcast_unfold. cbn [fst]. rewrite surplus_fold_disconnect. lia.
Qed.

Lemma step_wf self op :
  dict_wf (active_connections self) -> dict_wf (active_connections (step self op)).
Proof.
  intros Hwf. destruct op as [ws c|c|m c|m ex]; cbn [step].
  - destruct (connect self ws c) as [s|e] eqn:E; [|exact Hwf].
    exact (connect_wf self ws c s Hwf E).
  - now apply disconnect_wf.
  - destruct (send_personal_message self m c) as [[s b]|e] eqn:E; [|exact Hwf].
    exact (send_personal_message_wf self m c s b Hwf E).
  - now apply broadcast_wf.
Qed.

(** X9. The separate counter drifts.  After any sequence of [connect],
    [disconnect], [send_personal_message] and [broadcast] calls on a new
    registry, the client ids are pairwise distinct and
    [get_connection_count()] is the number of registered connections plus
    the number of completed [connect] calls that reused an id still
    registered; so it is never below the number of connections, and equal to
    it as long as no id is connected twice. *)
Theorem connection_count_drift :
  forall (ops : list Op),
    let self := run ops init in
    NoDup (get_all_client_ids self)
    /\ get_connection_count self
       = (Z.of_nat (List.length (get_all_client_ids self))
          + Z.of_nat (reconnections ops init))%Z
    /\ (Z.of_nat (List.length (get_all_client_ids self))
        <= get_connection_count self)%Z.
Proof.
  intros ops.
  assert (G : forall (s0 : registry),
             dict_wf (active_connections s0) ->
             dict_wf (active_connections (run ops s0))
             /\ surplus (run ops s0)
                = (surplus s0 + Z.of_nat (reconnections ops s0))%Z).
  { induction ops as [|op rest IH]; intros s0 Hwf.
    - cbn. split; [exact Hwf | lia].
    - cbn [run fold_left reconnections].
      destruct (IH (step s0 op) (step_wf s0 op Hwf)) as (W & S1).
      split; [exact W|]. unfold run in S1. rewrite S1, surplus_step.
      destruct (reconnects s0 op); lia. }
  destruct (G init init_wf) as (W & S1). cbv zeta.
  unfold surplus in S1. cbn [init connection_count active_connections List.length] in S1.
  unfold get_all_client_ids, get_connection_count, dict_keys.
  rewrite length_map. split; [exact W|]. split; lia.
Qed.

End Runs.

(** A second [connect] under the same id followed by its [disconnect]
    leaves the counter at 1 with no connection registered. *)
Example connection_count_after_reconnect :
  let ws := {| accept := Ok tt; send_json := fun _ : unit => Ok tt |} in
  let self := run [Connect ws (u "a"); Connect ws (u "a"); Disconnect (u "a")] init in
  get_connection_count self = 1%Z /\ get_all_client_ids self = [].
Proof. split; reflexivity. Qed.

End RegistryRuns.

(* ================================================================== *)
(** * services/sign_grammar.py: the analysis as a partition of the words *)
(* ================================================================== *)

Module SignGrammarOps.
Import Py.
Import SignGrammar.

Definition is_time_expression (p : SignGrammarProcessor) (word : pystr) : bool :=
  mem word (time_expressions p).
Definition is_place_expression (p : SignGrammarProcessor) (word : pystr) : bool :=
  mem word (place_expressions p).
Definition is_pronoun (p : SignGrammarProcessor) (word : pystr) : bool :=
  mem word (pronouns p).
Definition is_verb (p : SignGrammarProcessor) (word : pystr) : bool :=
  mem word (verbs p).
Definition is_noun (p : SignGrammarProcessor) (word : pystr) : bool :=
  mem word (nouns p).

(** The parts [convert_from_sign_language_word_order] assembles; both
    branches of the method extend the list in this order. *)
Definition restored_parts (language : SignLanguage) (s : Structure) : list pystr :=
  match language with
  | CSL => subject s ++ time s ++ place s ++ verb s ++ object s ++ other s
  | ASL => subject s ++ time s ++ place s ++ verb s ++ object s ++ other s
  end.

Definition convert_from_sign_language_word_order (p : SignGrammarProcessor)
           (sign_sequence : pystr) : pystr :=
  let structure := analyze_sentence_structure p sign_sequence in
  let parts := restored_parts (sign_language p) structure in
  if is_empty parts then sign_sequence else join (u " ") parts.

Section Analysis.
Variable p : SignGrammarProcessor.

(** The third test of the loop: a pronoun or a noun. *)
Definition names (word : pystr) : bool := is_pronoun p word || is_noun p word.

(** A word none of the four tests accepts. *)
Definition uncategorized (word : pystr) : bool :=
  negb (is_time_expression p word) && negb (is_place_expression p word)
  && negb (names word) && negb (is_verb p word).

(** What ends in [other], given how many of subject and object are taken:
    the pronouns and nouns from the third on, and the uncategorized
    words. *)
Fixpoint leftovers (taken : nat) (words : list pystr) : list pystr :=
  match words with
  | [] => []
  | w :: rest =>
    if names w
    then (if (2 <=? taken)%nat then [w] else []) ++ leftovers (Nat.min 2 (S taken)) rest
    else (if uncategorized w then [w] else []) ++ leftovers taken rest
  end.

Definition taken (s : Structure) : nat :=
  if is_empty (object s) then (if is_empty (subject s) then 0 else 1)%nat else 2%nat.

(** The structure as a function of the list of words. *)
Definition partition_of (words : list pystr) : Structure :=
  {| time := filter (is_time_expression p) words;
     place := filter (is_place_expression p) words;
     subject := firstn 1 (filter names words);
     verb := filter (is_verb p) words;
     object := firstn 1 (skipn 1 (filter names words));
     other := leftovers 0 words |}.

Lemma analyze_fold (words : list pystr) : forall (s : Structure),
  fold_left (analyze_word p) words s
  = {| time := time s ++ filter (is_time_expression p) words;
       place := place s ++ filter (is_place_expression p) words;
       subject := subject s ++ match taken s with
                               | O => firstn 1 (filter names words)
                               | _ => []
                               end;
       verb := verb s ++ filter (is_verb p) words;
       object := object s ++ match taken s with
                             | O => firstn 1 (skipn 1 (filter names words))
                             | S O => firstn 1 (filter names words)
                             | _ => []
                             end;
       other := other s ++ leftovers (taken s) words |}.
Proof.
  induction words as [|w rest IH]; intros s.
  - destruct s as [t pl su v o ot]. cbn [fold_left filter leftovers firstn skipn time place subject verb object other].
    destruct (taken _) as [|[|k]]; now rewrite !app_nil_r.
  - cbn [fold_left]. rewrite IH. clear IH.
    destruct s as [t pl su v o ot].
    unfold analyze_word, taken.
    cbn [filter leftovers time place subject verb object other].
    unfold uncategorized. unfold names, is_time_expression,
      is_place_expression, is_pronoun, is_noun, is_verb.
    destruct (mem w (time_expressions p)), (mem w (place_expressions p)),
      (mem w (pronouns p) || mem w (nouns p)), (mem w (verbs p));
      destruct su as [|su0 su'], o as [|o0 o'];
      cbn; rewrite <- ?app_assoc; cbn; try reflexivity.
Qed.

Lemma analyze_partition (words : list pystr) :
  fold_left (analyze_word p) words empty_structure = partition_of words.
Proof. rewrite analyze_fold. reflexivity. Qed.

(** ** Re-analysing an arrangement of the parts *)

(** A word at most one of the four tests accepts. *)
Definition single (w : pystr) : Prop := (category_count p w <= 1)%nat.

Ltac classify w :=
  unfold single, category_count, uncategorized, names, is_time_expression,
    is_place_expression, is_pronoun, is_noun, is_verb in *;
  destruct (mem w (time_expressions p)), (mem w (place_expressions p)),
    (mem w (pronouns p) || mem w (nouns p)), (mem w (verbs p));
  cbn in *; try reflexivity; try discriminate; try lia; auto.

Lemma filter_all (f : pystr -> bool) (l : list pystr) :
  Forall (fun w => f w = true) l -> filter f l = l.
Proof.
  induction 1 as [|w l Hw Hl IH]; cbn; [reflexivity|]. now rewrite Hw, IH.
Qed.

Lemma filter_none (f : pystr -> bool) (l : list pystr) :
  Forall (fun w => f w = false) l -> filter f l = [].
Proof.
  induction 1 as [|w l Hw Hl IH]; cbn; [reflexivity|]. now rewrite Hw, IH.
Qed.

Lemma filter_nil_none (f : pystr -> bool) (l : list pystr) :
  filter f l = [] -> Forall (fun w => f w = false) l.
Proof.
  induction l as [|w l IH]; cbn; [constructor|].
  destruct (f w) eqn:E; [discriminate|]. intros H. constructor; auto.
Qed.

Lemma block_facts (f g : pystr -> bool) (b : bool) (ws : list pystr) :
  (forall w, single w -> f w = true -> g w = b) ->
  Forall single ws -> Forall (fun w => g w = b) (filter f ws).
Proof.
  intros Hfg HS. apply Forall_forall. intros w Hw. apply filter_In in Hw.
  destruct Hw as [Hin Hf]. apply Hfg; [|exact Hf].
  exact (proj1 (Forall_forall _ _) HS w Hin).
Qed.

Lemma leftovers_skip (k : nat) (A B : list pystr) :
  Forall (fun w => names w = false) A ->
  Forall (fun w => uncategorized w = false) A ->
  leftovers k (A ++ B) = leftovers k B.
Proof.
  induction A as [|a A IH]; intros Hn Hu; [reflexivity|].
  inversion Hn as [|? ? Hn1 Hn2]; inversion Hu as [|? ? Hu1 Hu2]; subst.
  cbn [app leftovers]. rewrite Hn1, Hu1. now apply IH.
Qed.

Lemma leftovers_name (k : nat) (a : pystr) (B : list pystr) :
  names a = true ->
  leftovers k (a :: B)
  = (if (2 <=? k)%nat then [a] else []) ++ leftovers (Nat.min 2 (S k)) B.
Proof. intros H. cbn [leftovers]. now rewrite H. Qed.

Lemma leftovers_keep (k : nat) (X : list pystr) :
  k = 2%nat \/ Forall (fun w => names w = false) X ->
  Forall (fun w => names w = true \/ uncategorized w = true) X ->
  leftovers k X = X.
Proof.
  revert k. induction X as [|a X IH]; intros k Hk HX; [reflexivity|].
  inversion HX as [|? ? Ha HX']; subst. cbn [leftovers].
  destruct (names a) eqn:En.
  - destruct Hk as [->|Hn]; [|inversion Hn; congruence].
    cbn. f_equal. apply IH; auto.
  - destruct Ha as [Ha|Ha]; [congruence|]. rewrite Ha. cbn. f_equal.
    apply IH; [|exact HX']. destruct Hk as [Hk|Hn]; [now left|right].
    now inversion Hn.
Qed.

Lemma leftovers_parts (ws : list pystr) : forall k,
  Forall (fun w => In w ws /\ (names w = true \/ uncategorized w = true))
         (leftovers k ws).
Proof.
  induction ws as [|a ws IH]; intros k; cbn [leftovers]; [constructor|].
  assert (M : forall k', Forall (fun w => In w (a :: ws)
                                          /\ (names w = true \/ uncategorized w = true))
                                (leftovers k' ws)).
  { intros k'. eapply Forall_impl; [|apply IH]. cbn. intros w [H1 H2]. auto. }
  destruct (names a) eqn:En.
  - destruct (2 <=? k)%nat; cbn [app]; [constructor|]; auto. cbn; auto.
  - destruct (uncategorized a) eqn:Eu; cbn [app]; [constructor|]; auto. cbn; auto.
Qed.

Lemma leftovers_names (ws : list pystr) : forall k,
  (k <= 2)%nat ->
  filter names (leftovers k ws) = skipn (2 - k) (filter names ws).
Proof.
  induction ws as [|a ws IH]; intros k Hk; cbn [leftovers filter].
  - now rewrite skipn_nil.
  - destruct (names a) eqn:En.
    + destruct k as [|[|[|k]]]; try lia; cbn; rewrite ?En; rewrite IH by lia;
        reflexivity.
    + destruct (uncategorized a); cbn; rewrite ?En; now apply IH.
Qed.

Lemma leftovers_facts (g : pystr -> bool) (k : nat) (ws : list pystr) :
  (forall w, single w -> names w = true \/ uncategorized w = true -> g w = false) ->
  Forall single ws -> Forall (fun w => g w = false) (leftovers k ws).
Proof.
  intros Hg HS. eapply Forall_impl; [|apply leftovers_parts].
  cbn. intros w [Hin Hw]. apply Hg; [|exact Hw].
  exact (proj1 (Forall_forall _ _) HS w Hin).
Qed.

(** The arrangements the two conversions build. *)
Definition arrangement (s : Structure) (parts : list pystr) : Prop :=
  parts = ordered_parts CSL s \/ parts = ordered_parts ASL s
  \/ parts = restored_parts CSL s.

Ltac blk :=
  first [ apply block_facts; [intros ?w ?Hs ?Hf; classify w | assumption]
        | apply leftovers_facts;
          [intros ?w ?Hs [?Hf|?Hf]; classify w | assumption] ].

Ltac simp_parts :=
  repeat first
    [ rewrite <- app_assoc
    | rewrite filter_app
    | progress cbn [filter app Nat.leb Nat.min]
    | match goal with
      | H : ?f ?a = _ |- context [?f ?a] => rewrite H
      | |- context [filter ?g (filter ?f ?l)] =>
        first [ rewrite (filter_none g (filter f l)) by blk
              | rewrite (filter_all g (filter f l)) by blk ]
      | |- context [filter ?g (leftovers ?k ?l)] =>
        rewrite (filter_none g (leftovers k l)) by blk
      end
    | rewrite leftovers_skip by blk
    | rewrite leftovers_name by assumption
    | rewrite app_nil_r ].

Lemma reanalyse (ws parts : list pystr) :
  Forall single ws ->
  arrangement (partition_of ws) parts ->
  partition_of parts = partition_of ws.
Proof.
  intros HS Harr.
  assert (HN : forall a, In a (filter names ws) ->
                         names a = true /\ is_time_expression p a = false
                         /\ is_place_expression p a = false
                         /\ is_verb p a = false /\ uncategorized a = false).
  { intros a Ha. apply filter_In in Ha. destruct Ha as [Hin Hn].
    pose proof (proj1 (Forall_forall _ _) HS a Hin) as Hs.
    repeat split; classify a. }
  pose proof (leftovers_names ws 0 (Nat.le_0_l 2)) as HO. cbn [Nat.sub] in HO.
  pose proof (leftovers_parts ws 0) as HP.
  assert (HP' : Forall (fun w => names w = true \/ uncategorized w = true)
                       (leftovers 0 ws)).
  { eapply Forall_impl; [|exact HP]. cbn. tauto. }
  unfold arrangement, ordered_parts, restored_parts, partition_of in Harr.
  cbn [time place subject verb object other] in Harr.
  unfold partition_of.
  destruct (filter names ws) as [|a [|b N']] eqn:EN; cbn [firstn skipn] in *.
  - destruct Harr as [ -> | [ -> | -> ] ]; simp_parts.
    all: rewrite leftovers_keep; [reflexivity | right; now apply filter_nil_none | exact HP'].
  - destruct (HN a (or_introl eq_refl)) as (Ha1 & Ha2 & Ha3 & Ha4 & Ha5).
    destruct Harr as [ -> | [ -> | -> ] ]; simp_parts.
    all: rewrite leftovers_keep; [reflexivity | right; now apply filter_nil_none | exact HP'].
  - destruct (HN a (or_introl eq_refl)) as (Ha1 & Ha2 & Ha3 & Ha4 & Ha5).
    destruct (HN b (or_intror (or_introl eq_refl))) as (Hb1 & Hb2 & Hb3 & Hb4 & Hb5).
    destruct Harr as [ -> | [ -> | -> ] ]; simp_parts.
    all: rewrite leftovers_keep; [reflexivity | now left | exact HP'].
Qed.

(** The conversions' last step: join the parts, or keep the sentence when
    there is none. *)
Definition assemble (parts : list pystr) (sentence : pystr) : pystr :=
  if is_empty parts then sentence else join (u " ") parts.

Lemma analyze_sentence_partition (sentence : pystr) :
  analyze_sentence_structure p sentence = partition_of (words_of sentence).
Proof. apply analyze_partition. Qed.

Lemma restored_permutation (language : SignLanguage) (s : Structure) :
  Permutation (restored_parts language s) (ordered_parts CSL s).
Proof.
  destruct language; unfold restored_parts, ordered_parts;
    (eapply Permutation_trans; [apply Permutation_app_swap_app|];
     apply Permutation_app_head, Permutation_app_swap_app).
Qed.

Lemma arrangement_permutation (sentence : pystr) (parts : list pystr) :
  Forall single (words_of sentence) ->
  arrangement (analyze_sentence_structure p sentence) parts ->
  Permutation parts (words_of sentence).
Proof.
  intros HS Harr.
  assert (H : forall language,
             Permutation (ordered_parts language (analyze_sentence_structure p sentence))
                         (words_of sentence)).
  { intros language.
    pose proof (ordered_parts_permutation
                  {| sign_language := language;
                     time_expressions := time_expressions p;
                     place_expressions := place_expressions p;
                     pronouns := pronouns p; verbs := verbs p; nouns := nouns p |}
                  sentence) as P.
    apply P. intros w Hw. exact (proj1 (Forall_forall _ _) HS w Hw). }
  destruct Harr as [ -> | [ -> | -> ] ]; [apply H | apply H |].
  eapply Permutation_trans; [apply restored_permutation | apply H].
Qed.

Lemma analyze_assemble (sentence : pystr) (parts : list pystr) :
  Forall single (words_of sentence) ->
  arrangement (analyze_sentence_structure p sentence) parts ->
  analyze_sentence_structure p (assemble parts sentence)
  = analyze_sentence_structure p sentence.
Proof.
  intros HS Harr. unfold assemble.
  destruct parts as [|t rest] eqn:E; [reflexivity|]. cbn [is_empty].
  rewrite <- E in *. clear E.
  pose proof (arrangement_permutation sentence parts HS Harr) as HP.
  rewrite !analyze_sentence_partition.
  rewrite words_of_join.
  - apply reanalyse; [exact HS|]. now rewrite <- analyze_sentence_partition.
  - eapply Permutation_Forall; [apply Permutation_sym, HP|].
    apply fields_clean. constructor.
Qed.

Lemma assemble_twice (sentence : pystr) (first second : Structure -> list pystr) :
  Forall single (words_of sentence) ->
  (forall s, arrangement s (first s)) ->
  (forall s, arrangement s (second s)) ->
  let once := assemble (first (analyze_sentence_structure p sentence)) sentence in
  assemble (second (analyze_sentence_structure p once)) once
  = assemble (second (analyze_sentence_structure p sentence)) sentence.
Proof.
  intros HS H1 H2 once. unfold once.
  rewrite analyze_assemble by auto.
  pose proof (arrangement_permutation sentence _ HS
                (H1 (analyze_sentence_structure p sentence))) as P1.
  pose proof (arrangement_permutation sentence _ HS
                (H2 (analyze_sentence_structure p sentence))) as P2.
  unfold assemble.
  destruct (second (analyze_sentence_structure p sentence)) as [|t rest];
    [|reflexivity].
  cbn [is_empty]. apply Permutation_nil in P2. rewrite P2 in P1.
  apply Permutation_sym, Permutation_nil in P1. now rewrite P1.
Qed.

End Analysis.

Lemma analyze_language (p : SignGrammarProcessor) (language : SignLanguage)
      (sentence : pystr) :
  analyze_sentence_structure
    {| sign_language := language;
       time_expressions := time_expressions p;
       place_expressions := place_expressions p;
       pronouns := pronouns p; verbs := verbs p; nouns := nouns p |} sentence
  = analyze_sentence_structure p sentence.
Proof. reflexivity. Qed.

(** X10. [analyze_sentence_structure] partitions the words of the
    sentence: [time], [place] and [verb] are the words of the respective
    vocabulary in sentence order; [subject] is the first pronoun or noun,
    [object] the second, so each holds at most one word and there is no
    object without a subject; [other] holds, in sentence order, the pronouns
    and nouns from the third on and the words of no vocabulary. *)
Theorem analyze_sentence_structure_partition :
  forall (p : SignGrammarProcessor) (sentence : pystr),
    let s := analyze_sentence_structure p sentence in
    let words := words_of sentence in
    time s = filter (is_time_expression p) words
    /\ place s = filter (is_place_expression p) words
    /\ verb s = filter (is_verb p) words
    /\ subject s = firstn 1 (filter (names p) words)
    /\ object s = firstn 1 (skipn 1 (filter (names p) words))
    /\ other s = leftovers p 0 words
    /\ (List.length (subject s) <= 1)%nat
    /\ (List.length (object s) <= 1)%nat
    /\ (subject s = [] -> object s = [])
    /\ filter (names p) (other s) = skipn 2 (filter (names p) words)
    /\ Forall (fun w => In w words
                        /\ (names p w = true \/ uncategorized p w = true))
              (other s).
Proof.
  intros p sentence. cbv zeta. rewrite analyze_sentence_partition.
  unfold partition_of. cbn [time place subject verb object other].
  repeat split.
  - rewrite length_firstn. lia.
  - rewrite length_firstn. lia.
  - destruct (filter (names p) (words_of sentence)) as [|a l]; [reflexivity|].
    discriminate.
  - apply (leftovers_names p (words_of sentence) 0). lia.
  - apply leftovers_parts.
Qed.

(** X11. For a sentence whose words each pass at most one of the four
    tests, the two conversions only rearrange: analysing a converted
    sentence gives the structure of the original, so each conversion is
    idempotent, converting to sign order and back gives what converting back
    alone gives (subject, time, place, verb, object, other; not the original
    order), and the words of the restored sentence are those of the
    input. *)
Theorem word_order_conversions_compose :
  forall (p : SignGrammarProcessor) (sentence : pystr),
    (forall w, In w (words_of sentence) -> (category_count p w <= 1)%nat) ->
    let to_sign := convert_to_sign_language_word_order p in
    let from_sign := convert_from_sign_language_word_order p in
    analyze_sentence_structure p (to_sign sentence)
    = analyze_sentence_structure p sentence
    /\ analyze_sentence_structure p (from_sign sentence)
       = analyze_sentence_structure p sentence
    /\ to_sign (to_sign sentence) = to_sign sentence
    /\ from_sign (from_sign sentence) = from_sign sentence
    /\ from_sign (to_sign sentence) = from_sign sentence
    /\ to_sign (from_sign sentence) = to_sign sentence
    /\ Permutation (words_of (from_sign sentence)) (words_of sentence).
Proof.
  intros p sentence Hone to_sign from_sign.
  assert (HS : Forall (single p) (words_of sentence)).
  { apply Forall_forall. exact Hone. }
  assert (A1 : forall s, arrangement s (ordered_parts (sign_language p) s)).
  { intros s. unfold arrangement. destruct (sign_language p); auto. }
  assert (A2 : forall s, arrangement s (restored_parts (sign_language p) s)).
  { intros s. unfold arrangement. destruct (sign_language p); auto. }
  assert (E1 : analyze_sentence_structure p (to_sign sentence)
               = analyze_sentence_structure p sentence).
  { apply (analyze_assemble p sentence _ HS (A1 _)). }
  assert (E2 : analyze_sentence_structure p (from_sign sentence)
               = analyze_sentence_structure p sentence).
  { apply (analyze_assemble p sentence _ HS (A2 _)). }
  split; [exact E1|]. split; [exact E2|].
  split; [exact (assemble_twice p sentence _ _ HS A1 A1)|].
  split; [exact (assemble_twice p sentence _ _ HS A2 A2)|].
  split; [exact (assemble_twice p sentence _ _ HS A1 A2)|].
  split; [exact (assemble_twice p sentence _ _ HS A2 A1)|].
  pose proof (arrangement_permutation p sentence _ HS
                (A2 (analyze_sentence_structure p sentence))) as P.
  unfold from_sign, convert_from_sign_language_word_order.
  destruct (restored_parts (sign_language p) (analyze_sentence_structure p sentence))
    as [|t rest] eqn:E; cbn [is_empty]; [apply Permutation_refl|].
  rewrite words_of_join; [exact P|].
  eapply Permutation_Forall; [apply Permutation_sym, P|].
  apply fields_clean. constructor.
Qed.

Lemma word_order_conversions_compose_witness :
  convert_from_sign_language_word_order
    (new_processor CSL)
    (convert_to_sign_language_word_order (new_processor CSL) (u "今天 我 去 学校"))
  = convert_from_sign_language_word_order (new_processor CSL) (u "今天 我 去 学校").
Proof.
  refine (proj1 (proj2 (proj2 (proj2 (proj2
           (word_order_conversions_compose
              (new_processor CSL) (u "今天 我 去 学校") _)))))).
  intros w Hin. vm_compute in Hin.
  destruct Hin as [<-|[<-|[<-|[<-|[]]]]]; vm_compute; lia.
Defined.

(** The restored order differs from the original one. *)
Example convert_from_example :
  convert_to_sign_language_word_order (new_processor CSL) (u "今天 我 去 学校")
  = u "今天 学校 我 去"
  /\ convert_from_sign_language_word_order (new_processor CSL) (u "今天 学校 我 去")
     = u "我 今天 学校 去".
Proof. split; vm_compute; reflexivity. Qed.

End SignGrammarOps.

Module GrammarAnalyzer.
Import Py.
Import SignGrammar.

(** [len(re.findall(r'[...]', sentence))] for a class of single characters *)
Definition count_class (class : pystr) (sentence : pystr) : nat :=
  List.length (filter (fun c => existsb (N.eqb c) class) sentence).

(** [re.search(r'[...]', sentence)] as a truth value *)
Definition search_class (class : pystr) (sentence : pystr) : bool :=
  existsb (fun c => existsb (N.eqb c) class) sentence.

Definition analyze_sentence_complexity (sentence : pystr) : nat :=
  let words := words_of sentence in
  let length_score := Nat.min (List.length words / 3) 2 in
  let punctuation := count_class (u "，；、；;") sentence in
  let question := if search_class (u "？?") sentence then 1%nat else 0%nat in
  let complexity := (1 + length_score + Nat.min punctuation 1 + question)%nat in
  Nat.min complexity 5.

(** X12. The complexity score lies between 1 and 5, and the final cap at 5
    never cuts anything: the score is 1 plus one point per three words up to
    two, one point for any of the listed separators and one for a question
    mark.  It is 5 exactly for a sentence of six or more words with a
    separator and a question mark, and 1 exactly for at most two words with
    neither. *)
Theorem analyze_sentence_complexity_range :
  forall (sentence : pystr),
    let n := List.length (words_of sentence) in
    let separators := count_class (u "，；、；;") sentence in
    let asks := search_class (u "？?") sentence in
    (1 <= analyze_sentence_complexity sentence <= 5)%nat
    /\ analyze_sentence_complexity sentence
       = (1 + Nat.min (n / 3) 2 + Nat.min separators 1 + Nat.b2n asks)%nat
    /\ (analyze_sentence_complexity sentence = 5%nat
        <-> (6 <= n)%nat /\ (1 <= separators)%nat /\ asks = true)
    /\ (analyze_sentence_complexity sentence = 1%nat
        <-> (n <= 2)%nat /\ separators = 0%nat /\ asks = false).
Proof.
  intros sentence. cbv zeta. unfold analyze_sentence_complexity.
  set (n := List.length (words_of sentence)).
  set (k := count_class _ sentence).
  set (q := search_class _ sentence).
  assert (D : (n / 3 <= 1 <-> n <= 5)%nat /\ (n / 3 = 0 <-> n <= 2)%nat).
  { split; split; intros H.
    - destruct (le_lt_dec 6 n) as [L|L]; [|lia].
      pose proof (Nat.Div0.div_le_mono 6 n 3 L) as M.
      change (6 / 3)%nat with 2%nat in M. lia.
    - pose proof (Nat.Div0.div_le_mono n 5 3 H) as M.
      change (5 / 3)%nat with 1%nat in M. lia.
    - destruct (le_lt_dec 3 n) as [L|L]; [|lia].
      pose proof (Nat.Div0.div_le_mono 3 n 3 L) as M.
      change (3 / 3)%nat with 1%nat in M. lia.
    - apply Nat.div_small. lia. }
  destruct D as [D1 D2]. destruct q; cbn [Nat.b2n]; repeat split; try lia;
    try (intros H; assert (n / 3 <= 1)%nat by lia; lia);
    try (intros H; assert (n / 3 = 0)%nat by lia; lia).
Qed.

Example analyze_sentence_complexity_example :
  analyze_sentence_complexity (u "你好") = 1%nat
  /\ analyze_sentence_complexity (u "今天 我 去 学校，你 去 哪里？") = 5%nat.
Proof. split; vm_compute; reflexivity. Qed.

End GrammarAnalyzer.

(* ================================================================== *)
(** * utils/sign_vocab.py *)
(* ================================================================== *)

Module SignVocab.
Import Py.

Abbreviation Categories := (@dict pystr (list pystr)).

(** What [self.categories] refers to: a dict of the instance's own, or the
    class attribute [VOCAB_CATEGORIES] itself, which
    [_build_category_mapping] assigns without copying. *)
Inductive CategoriesRef :=
| OwnCategories (d : Categories)
| ClassCategories.

Record t := {
  word_to_idx : @dict pystr Z;
  idx_to_word : @dict Z pystr;
  categories : CategoriesRef;
  word_to_category : @dict pystr pystr
}.

Definition DEFAULT_VOCAB : @dict Z pystr :=
  [ (0, u "你好");
    (1, u "谢谢");
    (2, u "对不起");
    (3, u "再见");
    (4, u "是");
    (5, u "不是");
    (6, u "请");
    (7, u "不客气");
    (8, u "早上好");
    (9, u "晚上好");
    (10, u "开心");
    (11, u "难过");
    (12, u "好的");
    (13, u "什么");
    (14, u "为什么");
    (15, u "帮助");
    (16, u "爱");
    (17, u "喜欢");
    (18, u "不喜欢");
    (19, u "等等");
    (20, u "吃饭");
    (21, u "喝水");
    (22, u "睡觉");
    (23, u "学习");
    (24, u "工作");
    (25, u "家人");
    (26, u "朋友");
    (27, u "医生");
    (28, u "老师");
    (29, u "安全");
    (30, u "危险") ]%Z.

(** The value of the class attribute [VOCAB_CATEGORIES] when the module is
    loaded.  Its current value is passed to and returned by the methods that
    can reach it. *)
Definition VOCAB_CATEGORIES : Categories :=
  [ (u "问候", map u ["你好"; "早上好"; "晚上好"; "再见"]%string);
    (u "礼貌", map u ["谢谢"; "不客气"; "对不起"; "请"]%string);
    (u "基本", map u ["是"; "不是"; "好的"; "等等"]%string);
    (u "情感", map u ["开心"; "难过"; "爱"; "喜欢"; "不喜欢"]%string);
    (u "疑问", map u ["什么"; "为什么"]%string);
    (u "日常", map u ["吃饭"; "喝水"; "睡觉"; "学习"; "工作"]%string);
    (u "人物", map u ["家人"; "朋友"; "医生"; "老师"]%string);
    (u "其他", map u ["帮助"; "安全"; "危险"]%string) ].

Definition deref (class_categories : Categories) (r : CategoriesRef) : Categories :=
  match r with
  | OwnCategories d => d
  | ClassCategories => class_categories
  end.

(** A mutation of the dict [self.categories] refers to. *)
Definition store (class_categories : Categories) (r : CategoriesRef)
           (d : Categories) : CategoriesRef * Categories :=
  match r with
  | OwnCategories _ => (OwnCategories d, class_categories)
  | ClassCategories => (ClassCategories, d)
  end.

(** [{v: k for k, v in d.items()}] *)
Definition invert (d : @dict Z pystr) : @dict pystr Z :=
  fold_left (fun m '(k, v) => dict_set pystr_eq_dec m v k) d [].

(** [{i: word for i, word in enumerate(word_list)}] *)
Definition enumerate (word_list : list pystr) : list (Z * pystr) :=
  combine (map Z.of_nat (seq 0 (List.length word_list))) word_list.

Definition of_enumerate (word_list : list pystr) : @dict Z pystr :=
  fold_left (fun m '(i, word) => dict_set Z.eq_dec m i word) (enumerate word_list) [].

Definition is_empty {A} (l : list A) : bool :=
  match l with [] => true | _ => false end.

Definition _build_category_mapping (class_categories : Categories) (self : t) : t :=
  let categories' :=
    if is_empty (deref class_categories (categories self))
    then ClassCategories else categories self in
  {| word_to_idx := word_to_idx self;
     idx_to_word := idx_to_word self;
     categories := categories';
     word_to_category :=
       fold_left
         (fun m '(category, words) =>
            fold_left (fun m word => dict_set pystr_eq_dec m word category) words m)
         (deref class_categories categories') [] |}.

Definition _load_default_vocab (class_categories : Categories) (self : t) : t :=
  _build_category_mapping class_categories
    {| word_to_idx := invert DEFAULT_VOCAB;
       idx_to_word := DEFAULT_VOCAB;
       categories := categories self;
       word_to_category := word_to_category self |}.

(** [SignVocab()] *)
Definition new (class_categories : Categories) : t :=
  _load_default_vocab class_categories
    {| word_to_idx := []; idx_to_word := [];
       categories := OwnCategories []; word_to_category := [] |}.

(** The method [def idx_to_word(self, idx)] of the class. *)
Definition idx_to_word_method (self : t) (idx : Z) : option pystr :=
  dict_get Z.eq_dec (idx_to_word self) idx.

(** What an attribute lookup on an instance gives. *)
Inductive Attribute (K V : Type) :=
| DictAttribute (d : @dict K V)
| BoundMethod (f : K -> option V).
Arguments DictAttribute {K V} d.
Arguments BoundMethod {K V} f.

(** [vocab.idx_to_word]: [__init__] stores a dict under this name in the
    instance, and a function of the class does not override an entry of the
    instance's [__dict__]; the lookup finds the dict, not the method. *)
Definition getattr_idx_to_word (self : t) : Attribute Z pystr :=
  DictAttribute (idx_to_word self).

(** [attribute(argument)] *)
Definition call {K V} (attribute : Attribute K V) (argument : K)
  : result (option V) :=
  match attribute with
  | DictAttribute _ =>
    Raise (PyError "TypeError" (u "'dict' object is not callable"))
  | BoundMethod f => Ok (f argument)
  end.

Definition get_category (self : t) (word : pystr) : option pystr :=
  dict_get pystr_eq_dec (word_to_category self) word.

Definition get_all_words (self : t) : list pystr := dict_keys (word_to_idx self).

Definition size (self : t) : nat := List.length (idx_to_word self).

(** [word in vocab] *)
Definition contains (self : t) (word : pystr) : bool :=
  dict_mem pystr_eq_dec (word_to_idx self) word.

(** [vocab[idx]] *)
Definition getitem (self : t) (idx : Z) : option pystr :=
  dict_get Z.eq_dec (idx_to_word self) idx.

Definition or_empty (x : option (list pystr)) : list pystr :=
  match x with Some l => l | None => [] end.

(** [add_word]: the index, the instance and the class attribute after the
    call. *)
Definition add_word (class_categories : Categories) (self : t) (word : pystr)
           (category : option pystr) : Z * t * Categories :=
  match dict_get pystr_eq_dec (word_to_idx self) word with
  | Some idx => (idx, self, class_categories)
  | None =>
    let new_idx := Z.of_nat (List.length (idx_to_word self)) in
    let idx_to_word' := dict_set Z.eq_dec (idx_to_word self) new_idx word in
    let word_to_idx' := dict_set pystr_eq_dec (word_to_idx self) word new_idx in
    match category with
    | Some c =>
      if truthy c then
        let d := deref class_categories (categories self) in
        let d := if dict_mem pystr_eq_dec d c then d
                 else dict_set pystr_eq_dec d c [] in
        let d := dict_set pystr_eq_dec d c
                          (or_empty (dict_get pystr_eq_dec d c) ++ [word]) in
        let '(ref, class_categories') := store class_categories (categories self) d in
        (new_idx,
         {| word_to_idx := word_to_idx'; idx_to_word := idx_to_word';
            categories := ref;
            word_to_category :=
              dict_set pystr_eq_dec (word_to_category self) word c |},
         class_categories')
      else
        (new_idx,
         {| word_to_idx := word_to_idx'; idx_to_word := idx_to_word';
            categories := categories self;
            word_to_category := word_to_category self |},
         class_categories)
    | None =>
      (new_idx,
       {| word_to_idx := word_to_idx'; idx_to_word := idx_to_word';
          categories := categories self;
          word_to_category := word_to_category self |},
       class_categories)
    end
  end.

(** [x in l] on a list *)
Definition in_list (x : pystr) (l : list pystr) : bool :=
  if in_dec pystr_eq_dec x l then true else false.

(** [l.remove(x)] on a list that contains [x] *)
Fixpoint remove_first (x : pystr) (l : list pystr) : list pystr :=
  match l with
  | [] => []
  | y :: r => if pystr_eq_dec x y then r else y :: remove_first x r
  end.

Definition str_of_Z (z : Z) : pystr :=
  match z with
  | Z0 => u "0"
  | Zpos _ => DualTranslator.str_of_nat (Z.to_nat z)
  | Zneg _ => u "-" ++ DualTranslator.str_of_nat (Z.to_nat (- z))
  end.

(** [remove_word]: [del self.idx_to_word[idx]] raises [KeyError] when the
    index is not a key, after the word has left [word_to_idx]. *)
Definition remove_word (class_categories : Categories) (self : t) (word : pystr)
  : result bool * t * Categories :=
  match dict_get pystr_eq_dec (word_to_idx self) word with
  | None => (Ok false, self, class_categories)
  | Some idx =>
    let word_to_idx' := dict_del pystr_eq_dec (word_to_idx self) word in
    if negb (dict_mem Z.eq_dec (idx_to_word self) idx) then
      (Raise (PyError "KeyError" (str_of_Z idx)),
       {| word_to_idx := word_to_idx'; idx_to_word := idx_to_word self;
          categories := categories self;
          word_to_category := word_to_category self |},
       class_categories)
    else
      let idx_to_word' := dict_del Z.eq_dec (idx_to_word self) idx in
      let d := deref class_categories (categories self) in
      match dict_get pystr_eq_dec (word_to_category self) word with
      | Some category =>
        if truthy category && dict_mem pystr_eq_dec d category then
          let words := or_empty (dict_get pystr_eq_dec d category) in
          let d := if in_list word words
                   then dict_set pystr_eq_dec d category (remove_first word words)
                   else d in
          let '(ref, class_categories') := store class_categories (categories self) d in
          (Ok true,
           {| word_to_idx := word_to_idx'; idx_to_word := idx_to_word';
              categories := ref;
              word_to_category :=
                dict_del pystr_eq_dec (word_to_category self) word |},
           class_categories')
        else
          (Ok true,
           {| word_to_idx := word_to_idx'; idx_to_word := idx_to_word';
              categories := categories self;
              word_to_category := word_to_category self |},
           class_categories)
      | None =>
        (Ok true,
         {| word_to_idx := word_to_idx'; idx_to_word := idx_to_word';
            categories := categories self;
            word_to_category := word_to_category self |},
         class_categories)
      end
  end.

(** [sorted] on integers *)
Fixpoint insert_sorted (x : Z) (l : list Z) : list Z :=
  match l with
  | [] => [x]
  | y :: r => if (x <=? y)%Z then x :: l else y :: insert_sorted x r
  end.

Definition sorted (l : list Z) : list Z := fold_right insert_sorted [] l.

(** [[self.idx_to_word[i] for i in keys]] *)
Fixpoint lookup_all (d : @dict Z pystr) (keys : list Z) : result (list pystr) :=
  match keys with
  | [] => Ok []
  | i :: rest =>
    match dict_get Z.eq_dec d i with
    | Some word => words <- lookup_all d rest ;; Ok (word :: words)
    | None => Raise (PyError "KeyError" (str_of_Z i))
    end
  end.

Definition export_to_list (self : t) : result (list pystr) :=
  lookup_all (idx_to_word self) (sorted (dict_keys (idx_to_word self))).

(** [import_from_list]; a dict given for [categories] is taken as the
    instance's own. *)
Definition import_from_list (class_categories : Categories) (self : t)
           (word_list : list pystr) (categories' : option Categories) : t :=
  let idx_to_word' := of_enumerate word_list in
  let self' :=
    {| word_to_idx := invert idx_to_word';
       idx_to_word := idx_to_word';
       categories := match categories' with
                     | Some d => if is_empty d then categories self
                                 else OwnCategories d
                     | None => categories self
                     end;
       word_to_category := word_to_category self |} in
  _build_category_mapping class_categories self'.

(** ** The index maps *)

(** The indices are [0 .. size-1], in this order. *)
Definition dense (self : t) : Prop :=
  dict_keys (idx_to_word self) = map Z.of_nat (seq 0 (size self)).

(** The two maps are inverse to each other. *)
Definition paired (self : t) : Prop :=
  forall w i,
    dict_get pystr_eq_dec (word_to_idx self) w = Some i
    <-> dict_get Z.eq_dec (idx_to_word self) i = Some w.

Fixpoint nodupb (l : list pystr) : bool :=
  match l with
  | [] => true
  | x :: r => negb (in_list x r) && nodupb r
  end.

Lemma nodupb_NoDup (l : list pystr) : nodupb l = true -> NoDup l.
Proof.
  induction l as [|x r IH]; cbn; [constructor|].
  unfold in_list. destruct (in_dec pystr_eq_dec x r); cbn; [discriminate|].
  intros H. constructor; auto.
Qed.

Lemma seq_keys_NoDup (a n : nat) : NoDup (map Z.of_nat (seq a n)).
Proof.
  revert a. induction n as [|n IH]; intros a; cbn; constructor; [|apply IH].
  rewrite in_map_iff. intros (x & E & Hx). apply Nat2Z.inj in E. subst x.
  apply in_seq in Hx. lia.
Qed.

Lemma dense_wf (self : t) : dense self -> dict_wf (idx_to_word self).
Proof. unfold dense, dict_wf. intros ->. apply seq_keys_NoDup. Qed.

Lemma dense_mem (self : t) (i : Z) :
  dense self ->
  dict_mem Z.eq_dec (idx_to_word self) i = true
  <-> (0 <= i < Z.of_nat (size self))%Z.
Proof.
  intros D. rewrite (dict_mem_keys Z.eq_dec), D, in_map_iff. split.
  - intros (n & <- & Hn). apply in_seq in Hn. lia.
  - intros H. exists (Z.to_nat i). split; [lia|]. apply in_seq. lia.
Qed.

Lemma dict_set_fresh {K V : Type} (K_eq_dec : forall a b : K, {a = b} + {a <> b})
      (d : @dict K V) (k : K) (v : V) :
  ~ In k (dict_keys d) -> dict_set K_eq_dec d k v = d ++ [(k, v)].
Proof.
  induction d as [|[k0 v0] r IH]; cbn; [reflexivity|].
  intros H. destruct (K_eq_dec k k0) as [->|Hne]; [tauto|].
  f_equal. apply IH. tauto.
Qed.

Lemma dict_set_In {K V : Type} (K_eq_dec : forall a b : K, {a = b} + {a <> b})
      (d : @dict K V) (k k0 : K) (v v0 : V) :
  In (k, v) (dict_set K_eq_dec d k0 v0) -> (k, v) = (k0, v0) \/ In (k, v) d.
Proof.
  induction d as [|[k1 v1] r IH]; cbn.
  - intros [H|[]]; auto.
  - destruct (K_eq_dec k0 k1) as [->|Hne]; cbn.
    + intros [H|H]; auto.
    + intros [H|H]; auto. destruct (IH H); auto.
Qed.

Lemma fold_set_distinct {K V : Type} (K_eq_dec : forall a b : K, {a = b} + {a <> b})
      (ps : list (K * V)) : forall acc,
  NoDup (map fst (acc ++ ps)) ->
  fold_left (fun m '(k, v) => dict_set K_eq_dec m k v) ps acc = acc ++ ps.
Proof.
  induction ps as [|[k v] ps IH]; intros acc H; cbn [fold_left].
  - now rewrite app_nil_r.
  - rewrite dict_set_fresh.
    + rewrite IH; rewrite <- app_assoc; [reflexivity | exact H].
    + rewrite map_app in H. cbn in H. apply NoDup_remove_2 in H.
      intros Hin. apply H. apply in_or_app. now left.
Qed.

Lemma enumerate_keys (l : list pystr) :
  map fst (enumerate l) = map Z.of_nat (seq 0 (List.length l)).
Proof.
  unfold enumerate. generalize 0%nat. induction l as [|x l IH]; intros a; cbn;
    [reflexivity|]. now rewrite IH.
Qed.

Lemma enumerate_values (l : list pystr) : map snd (enumerate l) = l.
Proof.
  unfold enumerate. generalize 0%nat. induction l as [|x l IH]; intros a; cbn;
    [reflexivity|]. now rewrite IH.
Qed.

Lemma of_enumerate_eq (l : list pystr) : of_enumerate l = enumerate l.
Proof.
  unfold of_enumerate. rewrite fold_set_distinct; [reflexivity|].
  cbn [app]. rewrite enumerate_keys. apply seq_keys_NoDup.
Qed.

(** With distinct values, the inverted dict holds exactly the swapped
    pairs. *)
Lemma invert_In (d : @dict Z pystr) (w : pystr) (i : Z) :
  NoDup (map snd d) ->
  dict_get pystr_eq_dec (invert d) w = Some i <-> In (i, w) d.
Proof.
  unfold invert. induction d as [|[k v] d IH] using rev_ind; intros Hnd.
  - cbn. split; [discriminate | tauto].
  - rewrite fold_left_app. cbn [fold_left].
    rewrite map_app in Hnd. cbn in Hnd.
    assert (Hd : NoDup (map snd d)) by (eapply NoDup_app_remove_r; exact Hnd).
    assert (Hv : ~ In v (map snd d)).
    { intros Hin. apply NoDup_remove_2 in Hnd. rewrite app_nil_r in Hnd. tauto. }
    rewrite in_app_iff. cbn [In].
    destruct (pystr_eq_dec v w) as [->|Hne].
    + rewrite dict_get_set_eq. split.
      * intros [= ->]. auto.
      * intros [H|[[= ->]|[]]]; [|reflexivity].
        exfalso. apply Hv. change w with (snd (i, w)). now apply in_map.
    + rewrite dict_get_set_neq by exact Hne. rewrite (IH Hd). split.
      * auto.
      * intros [H|[[= _ E]|[]]]; [exact H | congruence].
Qed.

Lemma invert_paired (d : @dict Z pystr) (w : pystr) (i : Z) :
  dict_wf d -> NoDup (map snd d) ->
  dict_get pystr_eq_dec (invert d) w = Some i <-> dict_get Z.eq_dec d i = Some w.
Proof.
  intros Hwf Hnd. rewrite (invert_In d w i Hnd). split.
  - now apply dict_In_get.
  - apply dict_get_In.
Qed.

Lemma new_idx_to_word (class_categories : Categories) :
  idx_to_word (new class_categories) = DEFAULT_VOCAB
  /\ word_to_idx (new class_categories) = invert DEFAULT_VOCAB
  /\ categories (new class_categories) = ClassCategories.
Proof. repeat split. Qed.

Lemma DEFAULT_VOCAB_distinct : NoDup (map snd DEFAULT_VOCAB).
Proof. apply nodupb_NoDup. vm_compute. reflexivity. Qed.

Lemma new_dense (class_categories : Categories) : dense (new class_categories).
Proof. unfold dense, size. reflexivity. Qed.

Lemma new_paired (class_categories : Categories) : paired (new class_categories).
Proof.
  intros w i. destruct (new_idx_to_word class_categories) as (-> & -> & _).
  apply invert_paired; [|apply DEFAULT_VOCAB_distinct].
  apply (dense_wf (new class_categories)), new_dense.
Qed.

(** The index maps after [add_word] of a word that is not in the
    vocabulary. *)
Lemma add_word_fresh (class_categories : Categories) (self : t) (word : pystr)
      (category : option pystr) :
  dict_get pystr_eq_dec (word_to_idx self) word = None ->
  let '(idx, self', _) := add_word class_categories self word category in
  idx = Z.of_nat (size self)
  /\ idx_to_word self' = dict_set Z.eq_dec (idx_to_word self) idx word
  /\ word_to_idx self' = dict_set pystr_eq_dec (word_to_idx self) word idx.
Proof.
  intros H. unfold add_word. rewrite H.
  destruct category as [c|]; [destruct (truthy c)|]; cbn; auto.
  destruct (store _ _ _). cbn. auto.
Qed.

(** X13. The index maps of a vocabulary.  A new vocabulary has the indices
    0..30 and maps that are inverse to each other.  [add_word] keeps both
    properties: it returns the index under which the word is then found in
    both directions; a known word changes nothing; a new word gets the
    index [size], the size grows by one and every other word keeps its
    index. *)
Theorem add_word_keeps_indices :
  (forall class_categories,
      dense (new class_categories) /\ paired (new class_categories)
      /\ size (new class_categories) = 31%nat)
  /\ (forall class_categories self word category idx self' class_categories',
         dense self -> paired self ->
         add_word class_categories self word category
         = (idx, self', class_categories') ->
         dense self' /\ paired self'
         /\ getitem self' idx = Some word
         /\ dict_get pystr_eq_dec (word_to_idx self') word = Some idx
         /\ (contains self word = true ->
             self' = self /\ class_categories' = class_categories)
         /\ (contains self word = false ->
             idx = Z.of_nat (size self) /\ size self' = S (size self))
         /\ (forall w i, dict_get pystr_eq_dec (word_to_idx self) w = Some i ->
                         dict_get pystr_eq_dec (word_to_idx self') w = Some i)).
Proof.
  split.
  - intros cls. split; [apply new_dense|]. split; [apply new_paired|reflexivity].
  - intros cls self word category idx self' cls' D P E.
    destruct (dict_get pystr_eq_dec (word_to_idx self) word) as [i|] eqn:G.
    + unfold add_word in E. rewrite G in E. injection E as <- <- <-.
      unfold contains, dict_mem, getitem. rewrite G.
      split; [exact D|]. split; [exact P|]. split; [now apply P|].
      split; [reflexivity|]. split; [auto|]. split; [discriminate|auto].
    + pose proof (add_word_fresh cls self word category G) as F. rewrite E in F.
      destruct F as (-> & Ei & Ew).
      assert (Hfresh : ~ In (Z.of_nat (size self)) (dict_keys (idx_to_word self))).
      { intros Hin. apply (dict_mem_keys Z.eq_dec) in Hin.
        apply (dense_mem self _ D) in Hin. lia. }
      assert (Hmem : dict_mem Z.eq_dec (idx_to_word self) (Z.of_nat (size self)) = false).
      { destruct (dict_mem Z.eq_dec (idx_to_word self) (Z.of_nat (size self))) eqn:M;
          [|reflexivity]. apply (dict_mem_keys Z.eq_dec) in M. tauto. }
      assert (Hsize : size self' = S (size self)).
      { unfold size at 1. rewrite Ei, (dict_length_set Z.eq_dec), Hmem.
        reflexivity. }
      unfold contains, dict_mem, getitem. rewrite G.
      split; [|split; [|split; [|split; [|split; [|split]]]]].
      * unfold dense. rewrite Hsize, Ei, (dict_keys_set Z.eq_dec), Hmem, D.
        rewrite seq_S, map_app. reflexivity.
      * intros w i. rewrite Ei, Ew. split.
        -- intros Hw. destruct (pystr_eq_dec word w) as [<-|Hne].
           ++ rewrite dict_get_set_eq in Hw. injection Hw as <-.
              apply dict_get_set_eq.
           ++ rewrite dict_get_set_neq in Hw by exact Hne.
              apply P in Hw. rewrite dict_get_set_neq; [exact Hw|].
              intros <-. unfold dict_mem in Hmem. now rewrite Hw in Hmem.
        -- intros Hi. destruct (Z.eq_dec (Z.of_nat (size self)) i) as [<-|Hne].
           ++ rewrite dict_get_set_eq in Hi. injection Hi as <-.
              apply dict_get_set_eq.
           ++ rewrite dict_get_set_neq in Hi by exact Hne.
              apply P in Hi. rewrite dict_get_set_neq; [exact Hi|].
              intros <-. congruence.
      * rewrite Ei. apply dict_get_set_eq.
      * rewrite Ew. apply dict_get_set_eq.
      * discriminate.
      * auto.
      * intros w i Hw. rewrite Ew, dict_get_set_neq; [exact Hw|]. intros <-. congruence.
Qed.

(** The index maps after [remove_word] of a word whose index is a key. *)
Lemma remove_word_maps (class_categories : Categories) (self : t) (word : pystr)
      (i : Z) :
  dict_get pystr_eq_dec (word_to_idx self) word = Some i ->
  dict_mem Z.eq_dec (idx_to_word self) i = true ->
  let '(r, self', _) := remove_word class_categories self word in
  r = Ok true
  /\ idx_to_word self' = dict_del Z.eq_dec (idx_to_word self) i
  /\ word_to_idx self' = dict_del pystr_eq_dec (word_to_idx self) word.
Proof.
  intros G M. unfold remove_word. rewrite G, M. cbn [negb].
  destruct (dict_get pystr_eq_dec (word_to_category self) word) as [category|];
    [|cbn; auto].
  destruct (truthy category && _); [|cbn; auto].
  destruct (store _ _ _). cbn. auto.
Qed.

(** X14. Indices are reused after a removal.  In a vocabulary with
    indices 0..n-1 and inverse maps, removing a word other than the last
    one and then adding a new word gives the new word the index n-1, which
    is still taken: the word that had it stays in the vocabulary with that
    index, but no index leads to it any more. *)
Theorem remove_then_add_collides :
  forall (class_categories : Categories) (self : t) (word fresh last : pystr)
         (category : option pystr) (i : Z),
    dense self -> paired self ->
    dict_get pystr_eq_dec (word_to_idx self) word = Some i ->
    i <> (Z.of_nat (size self) - 1)%Z ->
    contains self fresh = false ->
    getitem self (Z.of_nat (size self) - 1) = Some last ->
    forall r self1 class1 idx self2 class2,
      remove_word class_categories self word = (r, self1, class1) ->
      add_word class1 self1 fresh category = (idx, self2, class2) ->
      r = Ok true
      /\ idx = (Z.of_nat (size self) - 1)%Z
      /\ getitem self2 idx = Some fresh
      /\ dict_get pystr_eq_dec (word_to_idx self2) fresh = Some idx
      /\ contains self2 last = true
      /\ dict_get pystr_eq_dec (word_to_idx self2) last = Some idx
      /\ last <> fresh
      /\ (forall j, getitem self2 j <> Some last)
      /\ S (size self2) = size self.
Proof.
  intros cls self word fresh last category i D P G Hi Hfresh Hlast
         r self1 cls1 idx self2 cls2 E1 E2.
  unfold getitem, contains, dict_mem in *.
  set (n := size self) in *.
  assert (Gi : dict_get Z.eq_dec (idx_to_word self) i = Some word) by now apply P.
  assert (Mi : dict_mem Z.eq_dec (idx_to_word self) i = true).
  { unfold dict_mem. now rewrite Gi. }
  pose proof (remove_word_maps cls self word i G Mi) as R. rewrite E1 in R.
  destruct R as (-> & Ri & Rw).
  assert (Hn : S (size self1) = n).
  { unfold size at 1. rewrite Ri. apply (dict_length_del Z.eq_dec). exact Mi. }
  assert (Hwf : dict_wf (idx_to_word self)) by now apply dense_wf.
  assert (Glast : dict_get pystr_eq_dec (word_to_idx self) last
                  = Some (Z.of_nat n - 1)%Z) by now apply P.
  assert (Nw : word <> last) by (intros <-; congruence).
  assert (Nf : last <> fresh).
  { intros <-. now rewrite Glast in Hfresh. }
  assert (Nwf : word <> fresh).
  { intros <-. now rewrite G in Hfresh. }
  assert (F1 : dict_get pystr_eq_dec (word_to_idx self1) fresh = None).
  { rewrite Rw, dict_get_del_neq by exact Nwf.
    destruct (dict_get pystr_eq_dec (word_to_idx self) fresh); [discriminate|].
    reflexivity. }
  pose proof (add_word_fresh cls1 self1 fresh category F1) as A. rewrite E2 in A.
  destruct A as (Eidx & Ai & Aw).
  assert (Eidx' : idx = (Z.of_nat n - 1)%Z) by lia.
  assert (Mlast : dict_get Z.eq_dec (idx_to_word self1) idx = Some last).
  { rewrite Ri, Eidx', dict_get_del_neq; [exact Hlast | exact Hi]. }
  rewrite Ai, Aw. split; [reflexivity|]. split; [exact Eidx'|].
  split; [apply dict_get_set_eq|]. split; [apply dict_get_set_eq|].
  assert (L2 : dict_get pystr_eq_dec
                 (dict_set pystr_eq_dec (word_to_idx self1) fresh idx) last
               = Some idx).
  { rewrite dict_get_set_neq by (intros E; now apply Nf).
    rewrite Rw, dict_get_del_neq by exact Nw. now rewrite Eidx'. }
  split; [now rewrite L2|]. split; [exact L2|]. split; [exact Nf|]. split.
  - intros j Hj. destruct (Z.eq_dec idx j) as [<-|Hne].
    + rewrite dict_get_set_eq in Hj. congruence.
    + rewrite dict_get_set_neq in Hj by exact Hne. rewrite Ri in Hj.
      destruct (Z.eq_dec i j) as [<-|Hij].
      * rewrite dict_get_del_eq in Hj by exact Hwf. discriminate.
      * rewrite dict_get_del_neq in Hj by exact Hij.
        apply P in Hj. rewrite Glast in Hj. congruence.
  - unfold size at 1. rewrite Ai, (dict_length_set Z.eq_dec).
    unfold dict_mem. rewrite Mlast. exact Hn.
Qed.

Lemma remove_then_add_collides_witness :
  let v := new VOCAB_CATEGORIES in
  let '(_, v1, c1) := remove_word VOCAB_CATEGORIES v (u "你好") in
  let '(idx, v2, _) := add_word c1 v1 (u "新") None in
  idx = 30%Z /\ getitem v2 30 = Some (u "新")
  /\ dict_get pystr_eq_dec (word_to_idx v2) (u "危险") = Some 30%Z.
Proof.
  cbv zeta.
  destruct (remove_word VOCAB_CATEGORIES (new VOCAB_CATEGORIES) (u "你好"))
    as [[r v1] c1] eqn:E1.
  destruct (add_word c1 v1 (u "新") None) as [[idx v2] c2] eqn:E2.
  pose proof (remove_then_add_collides
                VOCAB_CATEGORIES (new VOCAB_CATEGORIES) (u "你好") (u "新")
                (u "危险") None 0%Z
                (new_dense _) (new_paired _)) as H.
  specialize (H eq_refl). 
  assert (H1 : 0%Z <> (Z.of_nat (size (new VOCAB_CATEGORIES)) - 1)%Z)
    by (vm_compute; discriminate).
  specialize (H H1 eq_refl eq_refl r v1 c1 idx v2 c2 E1 E2).
  destruct H as (_ & Hidx & Hget & _ & _ & Hlast & _).
  subst idx. change (Z.of_nat (size (new VOCAB_CATEGORIES)) - 1)%Z with 30%Z in *.
  auto.
Defined.

(** ** Export and import *)

Lemma sorted_increasing (n : nat) : forall a,
  sorted (map Z.of_nat (seq a n)) = map Z.of_nat (seq a n).
Proof.
  induction n as [|n IH]; intros a; [reflexivity|].
  cbn [seq map sorted fold_right]. fold (sorted (map Z.of_nat (seq (S a) n))).
  rewrite IH. destruct n as [|n]; [reflexivity|].
  cbn [seq map insert_sorted].
  destruct (Z.leb_spec (Z.of_nat a) (Z.of_nat (S a))); [reflexivity | lia].
Qed.

Lemma lookup_all_pairs (d : @dict Z pystr) (ps : list (Z * pystr)) :
  dict_wf d -> (forall p, In p ps -> In p d) ->
  lookup_all d (map fst ps) = Ok (map snd ps).
Proof.
  intros Hwf. induction ps as [|[k v] ps IH]; intros Hin; [reflexivity|].
  cbn [map fst snd lookup_all].
  rewrite (dict_In_get Z.eq_dec d k v Hwf (Hin _ (or_introl eq_refl))).
  rewrite IH; [reflexivity|]. intros p Hp. apply Hin. now right.
Qed.

Lemma enumerate_get (l : list pystr) (i : nat) :
  dict_get Z.eq_dec (enumerate l) (Z.of_nat i) = nth_error l i.
Proof.
  unfold enumerate.
  assert (G : forall a, dict_get Z.eq_dec
                          (combine (map Z.of_nat (seq a (List.length l))) l)
                          (Z.of_nat (a + i))
                        = nth_error l i).
  { revert i. induction l as [|x l IH]; intros i a.
    - destruct i; reflexivity.
    - cbn [List.length seq map combine dict_get].
      destruct i as [|i].
      + rewrite Nat.add_0_r. destruct (Z.eq_dec _ _); [reflexivity | congruence].
      + destruct (Z.eq_dec _ _) as [E|_]; [lia|].
        replace (a + S i)%nat with (S a + i)%nat by lia. apply IH. }
  apply (G 0%nat).
Qed.

(** X15. Export after import gives the list back.  For every word list,
    duplicates included, [import_from_list] leaves the indices
    [0 .. len-1] with word [i] under index [i], and [export_to_list] then
    returns the list itself without raising; if the words are distinct the
    two maps are inverse to each other. *)
Theorem export_import_round_trip :
  forall (class_categories : Categories) (self : t) (word_list : list pystr)
         (categories' : option Categories),
    let v := import_from_list class_categories self word_list categories' in
    export_to_list v = Ok word_list
    /\ size v = List.length word_list
    /\ dense v
    /\ (forall i, getitem v (Z.of_nat i) = nth_error word_list i)
    /\ (NoDup word_list -> paired v).
Proof.
  intros cls self l cats v.
  assert (Ei : idx_to_word v = enumerate l) by apply of_enumerate_eq.
  assert (Ew : word_to_idx v = invert (enumerate l)).
  { unfold v, import_from_list, _build_category_mapping. cbn [word_to_idx].
    now rewrite of_enumerate_eq. }
  assert (Hlen : List.length (enumerate l) = List.length l).
  { rewrite <- (length_map fst), enumerate_keys, length_map. apply length_seq. }
  assert (Hwf : dict_wf (enumerate l)).
  { unfold dict_wf, dict_keys. rewrite enumerate_keys. apply seq_keys_NoDup. }
  split; [|split; [|split; [|split]]].
  - unfold export_to_list. rewrite Ei. unfold dict_keys.
    rewrite enumerate_keys, sorted_increasing, <- enumerate_keys.
    rewrite lookup_all_pairs; [now rewrite enumerate_values | exact Hwf | auto].
  - unfold size. now rewrite Ei.
  - unfold dense, size. rewrite Ei, Hlen. apply enumerate_keys.
  - intros i. unfold getitem. rewrite Ei. apply enumerate_get.
  - intros Hnd w i. rewrite Ei, Ew. apply invert_paired; [exact Hwf|].
    now rewrite enumerate_values.
Qed.

(** ** The shared category table *)

(** The category the mapping gives a word: the last one listing it. *)
Definition find_last (d : Categories) (w : pystr) (r : option pystr) : option pystr :=
  fold_left (fun r '(category, words) =>
               if in_list w words then Some category else r) d r.

Lemma inner_mapping (category : pystr) (words : list pystr) (w : pystr) :
  forall m,
    dict_get pystr_eq_dec
      (fold_left (fun m word => dict_set pystr_eq_dec m word category) words m) w
    = if in_list w words then Some category else dict_get pystr_eq_dec m w.
Proof.
  unfold in_list. induction words as [|x words IH]; intros m; [reflexivity|].
  cbn [fold_left]. rewrite IH.
  destruct (in_dec pystr_eq_dec w words) as [Hin|Hnin];
    destruct (in_dec pystr_eq_dec w (x :: words)) as [Hin'|Hnin'];
    try reflexivity.
  - exfalso. apply Hnin'. now right.
  - destruct Hin' as [->|Hin']; [apply dict_get_set_eq | tauto].
  - apply dict_get_set_neq. intros ->. apply Hnin'. now left.
Qed.

Lemma mapping_find_last (d : Categories) (w : pystr) : forall m,
  dict_get pystr_eq_dec
    (fold_left
       (fun m '(category, words) =>
          fold_left (fun m word => dict_set pystr_eq_dec m word category) words m)
       d m) w
  = find_last d w (dict_get pystr_eq_dec m w).
Proof.
  unfold find_last. induction d as [|[category words] d IH]; intros m;
    [reflexivity|].
  cbn [fold_left]. now rewrite IH, inner_mapping.
Qed.

Lemma find_last_Some (d : Categories) (w category : pystr) : forall r,
  find_last d w r = Some category ->
  r = Some category \/ exists words, In (category, words) d /\ In w words.
Proof.
  unfold find_last. induction d as [|[c ws] d IH]; intros r; cbn [fold_left];
    [auto|].
  intros H. destruct (IH _ H) as [E|(words & Hin & Hw)].
  - unfold in_list in E. destruct (in_dec pystr_eq_dec w ws) as [Hin|_]; [|auto].
    injection E as ->. right. exists ws. split; [now left | exact Hin].
  - right. exists words. split; [now right | exact Hw].
Qed.

Lemma find_last_keeps (d : Categories) (w : pystr) : forall c0,
  find_last d w (Some c0) <> None.
Proof.
  unfold find_last. induction d as [|[c ws] d IH]; intros c0; cbn [fold_left];
    [discriminate|].
  destruct (in_list w ws); apply IH.
Qed.

Lemma find_last_listed (d : Categories) (w category : pystr) (words : list pystr) :
  In (category, words) d -> In w words -> forall r, find_last d w r <> None.
Proof.
  unfold find_last. induction d as [|[c ws] d IH]; intros Hin Hw r; [destruct Hin|].
  cbn [fold_left]. destruct Hin as [[= -> ->]|Hin]; [|now apply IH].
  unfold in_list. destruct (in_dec pystr_eq_dec w words) as [_|N]; [|tauto].
  apply find_last_keeps.
Qed.

Lemma get_category_new (class_categories : Categories) (w : pystr) :
  get_category (new class_categories) w = find_last class_categories w None.
Proof.
  unfold get_category, new, _load_default_vocab, _build_category_mapping.
  cbn [categories deref is_empty word_to_category].
  apply mapping_find_last.
Qed.

(** X16. The category table is shared between vocabularies.  A default
    vocabulary refers to the class attribute [VOCAB_CATEGORIES] itself, so
    adding a new word with a category to one vocabulary changes that table
    for all: a vocabulary created afterwards reports the category for the
    word although it does not contain the word. *)
Theorem category_table_is_shared :
  forall (class_categories : Categories) (word c : pystr),
    truthy c = true ->
    contains (new class_categories) word = false ->
    get_category (new class_categories) word = None ->
    forall idx self' class_categories',
      add_word class_categories (new class_categories) word (Some c)
      = (idx, self', class_categories') ->
      categories self' = ClassCategories
      /\ dict_get pystr_eq_dec class_categories' c
         = Some (or_empty (dict_get pystr_eq_dec class_categories c) ++ [word])
      /\ contains (new class_categories') word = false
      /\ get_category (new class_categories') word = Some c.
Proof.
  intros cls word c Hc Hnot Hcat idx self' cls' E.
  rewrite get_category_new in Hcat.
  destruct (new_idx_to_word cls) as (_ & Nw & Nc).
  destruct (new_idx_to_word cls') as (_ & Nw' & _).
  unfold contains, dict_mem in *. rewrite Nw', <- Nw.
  remember (new cls) as v eqn:Ev. clear Ev Nw Nw'.
  destruct (dict_get pystr_eq_dec (word_to_idx v) word) eqn:G;
    [discriminate|].
  unfold add_word in E. rewrite G, Hc, Nc in E. cbn [deref store] in E.
  injection E as _ <- <-. cbn [categories].
  set (d1 := if dict_mem pystr_eq_dec cls c then cls
             else dict_set pystr_eq_dec cls c []).
  assert (Hd1 : or_empty (dict_get pystr_eq_dec d1 c)
                = or_empty (dict_get pystr_eq_dec cls c)).
  { unfold d1, dict_mem.
    destruct (dict_get pystr_eq_dec cls c) eqn:Gc; [now rewrite Gc|].
    now rewrite dict_get_set_eq. }
  assert (Hin1 : forall k ws, In (k, ws) d1 -> In (k, ws) cls \/ ws = []).
  { unfold d1. intros k ws H. destruct (dict_mem pystr_eq_dec cls c); [auto|].
    apply dict_set_In in H. destruct H as [[= _ ->]|H]; auto. }
  rewrite Hd1. split; [reflexivity|]. split; [apply dict_get_set_eq|].
  split.
  - reflexivity.
  - rewrite get_category_new.
    set (cls' := dict_set pystr_eq_dec d1 c _).
    assert (Hlisted : In (c, or_empty (dict_get pystr_eq_dec cls c) ++ [word]) cls').
    { apply (dict_get_In pystr_eq_dec). apply dict_get_set_eq. }
    destruct (find_last cls' word None) as [c'|] eqn:F.
    + apply find_last_Some in F. destruct F as [F|(words & Hw & Hword)];
        [discriminate|].
      apply dict_set_In in Hw. destruct Hw as [[= -> _]|Hw]; [reflexivity|].
      apply Hin1 in Hw. destruct Hw as [Hw| ->]; [|destruct Hword].
      exfalso. exact (find_last_listed cls word c' words Hw Hword None Hcat).
    + exfalso. refine (find_last_listed cls' word c _ Hlisted _ None F).
      apply in_or_app. right. now left.
Qed.

Lemma category_table_is_shared_witness :
  let '(_, _, class_categories') :=
    add_word VOCAB_CATEGORIES (new VOCAB_CATEGORIES) (u "测试词汇") (Some (u "测试")) in
  contains (new class_categories') (u "测试词汇") = false
  /\ get_category (new class_categories') (u "测试词汇") = Some (u "测试").
Proof.
  destruct (add_word VOCAB_CATEGORIES (new VOCAB_CATEGORIES) (u "测试词汇")
                     (Some (u "测试"))) as [[idx v] c'] eqn:E.
  refine (proj2 (proj2 (category_table_is_shared
                          VOCAB_CATEGORIES (u "测试词汇") (u "测试")
                          eq_refl eq_refl eq_refl idx v c' E))).
Defined.

End SignVocab.

(* ================================================================== *)
(** * services/sign_recognition.py: frames and recognition *)
(* ================================================================== *)

Module RecognitionService.
Import Py.

Section Service.
(** Frames and hand keypoints; the hand detector; the model with
    [torch.max] on its output, giving the confidence and the index of the
    best class.  Each may raise. *)
Context {Frame Keypoints : Type}.
Variable extract_keypoints : Frame -> result (option Keypoints * Q).
Variable predict_max : list Keypoints -> result (Q * Z).

Record t := {
  vocab : SignVocab.t;
  window_size : Z;
  (** [maxlen] of [frame_buffer] and [confidence_buffer], fixed when
      [__init__] creates the deques *)
  buffer_maxlen : nat;
  frame_buffer : list Keypoints;
  confidence_buffer : list Q;
  prediction_history : SignRecognition.history;
  confidence_threshold : Q;
  total_frames : Z;
  total_predictions : Z;
  total_time : Q
}.

(** [SignRecognitionService(window_size=..., confidence_threshold=...)] *)
Definition init (vocabulary : SignVocab.t) (size : nat) (threshold : Q) : t :=
  {| vocab := vocabulary; window_size := Z.of_nat size; buffer_maxlen := size;
     frame_buffer := []; confidence_buffer := []; prediction_history := [];
     confidence_threshold := threshold;
     total_frames := 0; total_predictions := 0; total_time := 0 |}.

(** The dict [_recognize_from_buffer] returns. *)
Record Recognition := {
  rec_success : bool;
  rec_prediction : option pystr;
  rec_confidence : Q
}.

(** A key of the answer that may be missing. *)
Inductive Field (A : Type) := Absent | Present (value : A).
Arguments Absent {A}.
Arguments Present {A} value.

(** The dict [process_frame] returns. *)
Record Response := {
  success : bool;
  prediction : option pystr;
  confidence : Q;
  keypoints : option Keypoints;
  features : Field (option (list Keypoints))
}.

Definition Qltb (a b : Q) : bool :=
  if Qlt_le_dec a b then true else false.

Definition recognition_failed : Recognition :=
  {| rec_success := false; rec_prediction := None; rec_confidence := 0 |}.

Definition _recognize_from_buffer (self : t) : Recognition * t :=
  match predict_max (frame_buffer self) with
  | Raise _ => (recognition_failed, self)
  | Ok (confidence, predicted_idx) =>
    if Qltb confidence (confidence_threshold self) then
      ({| rec_success := true; rec_prediction := None;
          rec_confidence := confidence |}, self)
    else
      match SignVocab.call (SignVocab.getattr_idx_to_word (vocab self))
                           predicted_idx with
      | Raise _ => (recognition_failed, self)
      | Ok prediction =>
        let '(smoothed_prediction, prediction_history') :=
          SignRecognition._apply_smoothing (prediction_history self)
                                           prediction confidence in
        ({| rec_success := true; rec_prediction := smoothed_prediction;
            rec_confidence := confidence |},
         {| vocab := vocab self; window_size := window_size self;
            buffer_maxlen := buffer_maxlen self;
            frame_buffer := frame_buffer self;
            confidence_buffer := confidence_buffer self;
            prediction_history := prediction_history';
            confidence_threshold := confidence_threshold self;
            total_frames := total_frames self;
            total_predictions := total_predictions self + 1;
            total_time := total_time self |})
      end
  end.

Definition no_result : Response :=
  {| success := false; prediction := None; confidence := 0;
     keypoints := None; features := Present None |}.

(** [elapsed_time] is the difference of the two clock readings. *)
Definition process_frame (self : t) (frame : Frame) (return_features : bool)
           (elapsed_time : Q) : Response * t :=
  match extract_keypoints frame with
  | Raise _ => (no_result, self)
  | Ok (None, _) => (no_result, self)
  | Ok (Some points, detection_confidence) =>
    let self1 :=
      {| vocab := vocab self; window_size := window_size self;
         buffer_maxlen := buffer_maxlen self;
         frame_buffer :=
           SignRecognition.deque_append (buffer_maxlen self) (frame_buffer self) points;
         confidence_buffer :=
           SignRecognition.deque_append (buffer_maxlen self) (confidence_buffer self)
                                        detection_confidence;
         prediction_history := prediction_history self;
         confidence_threshold := confidence_threshold self;
         total_frames := total_frames self + 1;
         total_predictions := total_predictions self;
         total_time := total_time self |} in
    if (Z.of_nat (List.length (frame_buffer self1)) <? window_size self1)%Z then
      ({| success := true; prediction := None; confidence := 0;
          keypoints := Some points;
          features := Present (if return_features
                               then Some (frame_buffer self1) else None) |},
       self1)
    else
      let '(result, self2) := _recognize_from_buffer self1 in
      let self3 :=
        {| vocab := vocab self2; window_size := window_size self2;
           buffer_maxlen := buffer_maxlen self2;
           frame_buffer := frame_buffer self2;
           confidence_buffer := confidence_buffer self2;
           prediction_history := prediction_history self2;
           confidence_threshold := confidence_threshold self2;
           total_frames := total_frames self2;
           total_predictions := total_predictions self2;
           total_time := (total_time self2 + elapsed_time)%Q |} in
      ({| success := rec_success result;
          prediction := rec_prediction result;
          confidence := rec_confidence result;
          keypoints := Some points;
          features := if return_features
                      then Present (Some (frame_buffer self3)) else Absent |},
       self3)
  end.

Definition reset_buffer (self : t) : t :=
  {| vocab := vocab self; window_size := window_size self;
     buffer_maxlen := buffer_maxlen self;
     frame_buffer := []; confidence_buffer := []; prediction_history := [];
     confidence_threshold := confidence_threshold self;
     total_frames := total_frames self;
     total_predictions := total_predictions self;
     total_time := total_time self |}.

(** [set_window_size]: the deques keep the [maxlen] they were created
    with. *)
Definition set_window_size (self : t) (size : Z) : t :=
  if (0 <? size)%Z then
    reset_buffer
      {| vocab := vocab self; window_size := size;
         buffer_maxlen := buffer_maxlen self;
         frame_buffer := frame_buffer self;
         confidence_buffer := confidence_buffer self;
         prediction_history := prediction_history self;
         confidence_threshold := confidence_threshold self;
         total_frames := total_frames self;
         total_predictions := total_predictions self;
         total_time := total_time self |}
  else self.

Definition set_confidence_threshold (self : t) (threshold : Q) : t :=
  if Qle_bool 0 threshold && Qle_bool threshold 1 then
    {| vocab := vocab self; window_size := window_size self;
       buffer_maxlen := buffer_maxlen self;
       frame_buffer := frame_buffer self;
       confidence_buffer := confidence_buffer self;
       prediction_history := prediction_history self;
       confidence_threshold := threshold;
       total_frames := total_frames self;
       total_predictions := total_predictions self;
       total_time := total_time self |}
  else self.

(** The frames of a stream with their arguments, and the answers. *)
Fixpoint process_frames (self : t) (frames : list (Frame * bool * Q))
  : list Response * t :=
  match frames with
  | [] => ([], self)
  | (frame, return_features, elapsed_time) :: rest =>
    let '(response, self') := process_frame self frame return_features elapsed_time in
    let '(responses, self'') := process_frames self' rest in
    (response :: responses, self'')
  end.

Lemma deque_append_bounded {A} (maxlen : nat) (d : list A) (x : A) :
  (List.length d <= maxlen)%nat ->
  (List.length (SignRecognition.deque_append maxlen d x) <= maxlen)%nat.
Proof.
  intros H. unfold SignRecognition.deque_append.
  rewrite length_skipn, length_app. cbn [List.length]. lia.
Qed.

Lemma recognize_never_predicts (self : t) :
  rec_prediction (fst (_recognize_from_buffer self)) = None
  /\ snd (_recognize_from_buffer self) = self.
Proof.
  unfold _recognize_from_buffer.
  destruct (predict_max (frame_buffer self)) as [[c idx]|e]; [|split; reflexivity].
  destruct (Qltb c (confidence_threshold self)); split; reflexivity.
Qed.

(** X17. No frame is ever given a prediction.  [_recognize_from_buffer]
    looks the word up with [self.vocab.idx_to_word(predicted_idx)], which
    calls the dict stored under that name and raises [TypeError]; the
    [except] clause turns this into a failed recognition.  So for every
    state, detector and model, [process_frame] answers with [prediction]
    [None] and never counts a prediction or touches the smoothing history,
    and a full window whose confidence reaches the threshold gives
    [success = False] with confidence 0. *)
Theorem process_frame_never_predicts :
  forall (self : t) (frame : Frame) (return_features : bool) (elapsed_time : Q),
    let r := fst (process_frame self frame return_features elapsed_time) in
    let self' := snd (process_frame self frame return_features elapsed_time) in
    prediction r = None
    /\ total_predictions self' = total_predictions self
    /\ prediction_history self' = prediction_history self
    /\ (forall points detected c idx,
           extract_keypoints frame = Ok (Some points, detected) ->
           (window_size self
            <= Z.of_nat (List.length
                           (SignRecognition.deque_append
                              (buffer_maxlen self) (frame_buffer self) points)))%Z ->
           predict_max (SignRecognition.deque_append
                          (buffer_maxlen self) (frame_buffer self) points)
           = Ok (c, idx) ->
           (confidence_threshold self <= c)%Q ->
           success r = false /\ confidence r = 0%Q).
Proof.
  intros self frame rf elapsed. cbv zeta. unfold process_frame.
  destruct (extract_keypoints frame) as [[[points|] detected]|e];
    [| cbn; repeat split; intros; discriminate
     | cbn; repeat split; intros; discriminate].
  cbn [frame_buffer window_size].
  destruct (Z.ltb_spec
              (Z.of_nat (List.length
                           (SignRecognition.deque_append
                              (buffer_maxlen self) (frame_buffer self) points)))
              (window_size self)) as [Hlt|Hge].
  - cbn. split; [reflexivity|]. split; [reflexivity|]. split; [reflexivity|].
    intros p d c idx [= <- <-] Hw. lia.
  - match goal with
    | |- context [_recognize_from_buffer ?s] =>
      pose proof (recognize_never_predicts s) as [R1 R2];
        destruct (_recognize_from_buffer s) as [result self2] eqn:ER
    end.
    cbn [fst snd] in R1, R2. subst self2. cbn.
    split; [exact R1|]. split; [reflexivity|]. split; [reflexivity|].
    intros p d c idx [= <- <-] _ Hp Hc.
    unfold _recognize_from_buffer in ER. cbn [frame_buffer confidence_threshold] in ER.
    rewrite Hp in ER. unfold Qltb in ER.
    destruct (Qlt_le_dec c (confidence_threshold self)) as [Hlt|_].
    + exfalso. apply (Qlt_not_le _ _ Hlt). exact Hc.
    + cbn in ER. injection ER as <-. split; reflexivity.
Qed.

(** The answer for a frame that only fills the window. *)
Definition waiting (r : Response) : Prop :=
  r = no_result
  \/ exists points fs,
      r = {| success := true; prediction := None; confidence := 0;
             keypoints := Some points; features := Present fs |}.

Lemma process_frame_waiting (self : t) (frame : Frame) (rf : bool) (elapsed : Q) :
  (List.length (frame_buffer self) <= buffer_maxlen self)%nat ->
  (Z.of_nat (buffer_maxlen self) < window_size self)%Z ->
  let r := fst (process_frame self frame rf elapsed) in
  let self' := snd (process_frame self frame rf elapsed) in
  waiting r
  /\ (List.length (frame_buffer self') <= buffer_maxlen self')%nat
  /\ buffer_maxlen self' = buffer_maxlen self
  /\ window_size self' = window_size self
  /\ total_time self' = total_time self.
Proof.
  intros Hlen Hw. cbv zeta. unfold process_frame.
  destruct (extract_keypoints frame) as [[[points|] detected]|e];
    [| cbn; repeat split; auto; now left
     | cbn; repeat split; auto; now left].
  cbn [frame_buffer window_size].
  pose proof (deque_append_bounded (buffer_maxlen self) (frame_buffer self) points Hlen)
    as Hb.
  destruct (Z.ltb_spec
              (Z.of_nat (List.length
                           (SignRecognition.deque_append
                              (buffer_maxlen self) (frame_buffer self) points)))
              (window_size self)) as [Hlt|Hge]; [|lia].
  cbn. repeat split; auto. right. eauto.
Qed.

(** X18. A window enlarged by [set_window_size] is never filled.  The
    frame deques keep the [maxlen] they were created with, so after
    [set_window_size(size)] with [size] above it the buffer stays shorter
    than the window: every later frame is answered without running the
    model ([prediction] [None], confidence 0) and [total_time] stays as it
    is. *)
Theorem enlarged_window_never_recognises :
  forall (self : t) (size : Z) (frames : list (Frame * bool * Q)),
    (Z.of_nat (buffer_maxlen self) < size)%Z ->
    let resized := set_window_size self size in
    window_size resized = size
    /\ frame_buffer resized = []
    /\ Forall waiting (fst (process_frames resized frames))
    /\ total_time (snd (process_frames resized frames)) = total_time self
    /\ total_predictions (snd (process_frames resized frames))
       = total_predictions self.
Proof.
  intros self size frames Hsize. cbv zeta.
  assert (Hpos : (0 <? size)%Z = true) by (apply Z.ltb_lt; lia).
  unfold set_window_size. rewrite Hpos.
  set (s0 := reset_buffer _).
  assert (G : forall s,
             (List.length (frame_buffer s) <= buffer_maxlen s)%nat ->
             (Z.of_nat (buffer_maxlen s) < window_size s)%Z ->
             Forall waiting (fst (process_frames s frames))
             /\ total_time (snd (process_frames s frames)) = total_time s
             /\ total_predictions (snd (process_frames s frames))
                = total_predictions s).
  { induction frames as [|[[frame rf] elapsed] rest IH]; intros s Hl Hw.
    - cbn. auto.
    - cbn [process_frames].
      pose proof (process_frame_waiting s frame rf elapsed Hl Hw) as P.
      pose proof (process_frame_never_predicts s frame rf elapsed) as N.
      cbv zeta in P, N.
      destruct (process_frame s frame rf elapsed) as [r s1]. cbn [fst snd] in P, N.
      destruct P as (Pw & Pl & Pm & Pz & Pt). destruct N as (_ & Np & _).
      assert (Hw1 : (Z.of_nat (buffer_maxlen s1) < window_size s1)%Z)
        by (rewrite Pm, Pz; exact Hw).
      destruct (IH s1 Pl Hw1) as (I1 & I2 & I3).
      destruct (process_frames s1 rest) as [rs s2]. cbn [fst snd] in *.
      split; [constructor; assumption|]. split; congruence. }
  split; [reflexivity|]. split; [reflexivity|].
  apply (G s0); cbn; lia.
Qed.

End Service.

(** A detector that always finds a hand and a model that is always
    certain of class 0. *)
Definition demo_extract (frame : nat) : result (option nat * Q) :=
  Ok (Some frame, 1%Q).
Definition demo_predict (buffer : list nat) : result (Q * Z) := Ok (1%Q, 0%Z).
Definition demo_service : @t nat :=
  init (SignVocab.new SignVocab.VOCAB_CATEGORIES) 2 (1 # 2)%Q.

Lemma enlarged_window_never_recognises_witness :
  Forall waiting
         (fst (process_frames demo_extract demo_predict
                              (set_window_size demo_service 3)
                              [(1%nat, false, 0%Q); (2%nat, false, 0%Q);
                               (3%nat, false, 0%Q); (4%nat, false, 0%Q)])).
Proof.
  refine (proj1 (proj2 (proj2
           (enlarged_window_never_recognises
              demo_extract demo_predict demo_service 3
              [(1%nat, false, 0%Q); (2%nat, false, 0%Q);
               (3%nat, false, 0%Q); (4%nat, false, 0%Q)] _)))).
  cbn. lia.
Defined.

(** With the window the service was created with, the third frame fills
    it; the model is certain, and the answer is a failure. *)
Example process_frame_full_window :
  map (fun r => (success r, prediction r))
      (fst (process_frames demo_extract demo_predict demo_service
                           [(1%nat, false, 0%Q); (2%nat, false, 0%Q)]))
  = [(true, None); (false, None)].
Proof. reflexivity. Qed.

End RecognitionService.

(* ================================================================== *)
(** * Sorting as [list.sort(key=..., reverse=True)] does *)
(* ================================================================== *)

Module PySort.
Section Sort.
Context {A : Type}.
(** [key_lt a b]: the key of [a] is smaller than the key of [b]. *)
Variable key_lt : A -> A -> bool.

(** Descending by key; elements with equal keys keep their order (the sort
    is stable, also with [reverse=True]). *)
Fixpoint insert_desc (x : A) (l : list A) : list A :=
  match l with
  | [] => [x]
  | y :: r => if key_lt x y then y :: insert_desc x r else x :: l
  end.

Definition sort_desc (l : list A) : list A := fold_right insert_desc [] l.

(** [a] may stand before [b]. *)
Definition ordered (a b : A) : Prop := key_lt a b = false.

Lemma insert_desc_perm (x : A) (l : list A) : Permutation (insert_desc x l) (x :: l).
Proof.
  induction l as [|y r IH]; cbn; [apply Permutation_refl|].
  destruct (key_lt x y); [|apply Permutation_refl].
  eapply Permutation_trans; [apply perm_skip, IH | apply perm_swap].
Qed.

Lemma sort_desc_perm (l : list A) : Permutation (sort_desc l) l.
Proof.
  induction l as [|x l IH]; cbn; [constructor|].
  eapply Permutation_trans; [apply insert_desc_perm | now apply perm_skip].
Qed.

Lemma sort_desc_length (l : list A) : List.length (sort_desc l) = List.length l.
Proof. apply Permutation_length, sort_desc_perm. Qed.

Hypothesis key_lt_asym : forall a b, key_lt a b = true -> key_lt b a = false.
Hypothesis ordered_trans : forall a b c, ordered a b -> ordered b c -> ordered a c.

(** Every element may stand before all later ones. *)
Fixpoint sorted_desc (l : list A) : Prop :=
  match l with
  | [] => True
  | x :: r => Forall (ordered x) r /\ sorted_desc r
  end.

Lemma insert_desc_sorted (x : A) (l : list A) :
  sorted_desc l -> sorted_desc (insert_desc x l).
Proof.
  induction l as [|y r IH]; cbn.
  - auto.
  - intros [Hy Hr]. destruct (key_lt x y) eqn:E; cbn.
    + split; [|now apply IH].
      eapply Permutation_Forall; [apply Permutation_sym, insert_desc_perm|].
      constructor; [|exact Hy]. now apply key_lt_asym.
    + split; [|split; assumption].
      constructor; [exact E|].
      eapply Forall_impl; [|exact Hy]. intros b Hb. now apply (ordered_trans x y b).
Qed.

Lemma sort_desc_sorted (l : list A) : sorted_desc (sort_desc l).
Proof.
  induction l as [|x l IH]; cbn; [exact I | now apply insert_desc_sorted].
Qed.


End Sort.

(** [l[:k]] *)
Definition slice_to {A} (l : list A) (k : Z) : list A :=
  if (0 <=? k)%Z then firstn (Z.to_nat k) l
  else firstn (Z.to_nat (Z.of_nat (List.length l) + k)) l.

End PySort.

(* ================================================================== *)
(** * utils/translation_dict.py *)
(* ================================================================== *)

Module TranslationDict.
Import Py.

Definition pair_eq_dec (a b : pystr * pystr) : {a = b} + {a <> b}.
Proof. decide equality; apply pystr_eq_dec. Defined.

Record Term := {
  category : pystr;
  signs : list pystr;
  definition : pystr;
  examples : list pystr
}.

Record t := {
  sign_to_text : @dict pystr (list pystr);
  text_to_sign : @dict pystr (list pystr);
  (** the two sets of words, as lists without repetition *)
  sign_vocab : list pystr;
  text_vocab : list pystr;
  frequency : @dict (pystr * pystr) Z;
  terminology : @dict pystr Term
}.

Definition in_list (x : pystr) (l : list pystr) : bool :=
  if in_dec pystr_eq_dec x l then true else false.

(** [s.add(x)] *)
Definition set_add (s : list pystr) (x : pystr) : list pystr :=
  if in_list x s then s else s ++ [x].

(** [d[k]] read on a [defaultdict(list)] whose key may be missing *)
Definition items_of (d : @dict pystr (list pystr)) (k : pystr) : list pystr :=
  match dict_get pystr_eq_dec d k with
  | Some l => l
  | None => []
  end.

(** [d[k].append(v)] on a [defaultdict(list)] *)
Definition append_to (d : @dict pystr (list pystr)) (k v : pystr)
  : @dict pystr (list pystr) :=
  dict_set pystr_eq_dec d k (items_of d k ++ [v]).

(** [counter[k]], 0 for a missing key *)
Definition count (c : @dict (pystr * pystr) Z) (k : pystr * pystr) : Z :=
  match dict_get pair_eq_dec c k with
  | Some n => n
  | None => 0%Z
  end.

(** The fields as [__init__] creates them. *)
Definition empty : t :=
  {| sign_to_text := []; text_to_sign := []; sign_vocab := []; text_vocab := [];
     frequency := []; terminology := [] |}.

Definition add_mapping (self : t) (sign text : pystr) (freq : Z) : t :=
  let is_new :=
    negb (dict_mem pystr_eq_dec (sign_to_text self) sign)
    || negb (in_list text (items_of (sign_to_text self) sign)) in
  let self1 :=
    if is_new then
      {| sign_to_text := append_to (sign_to_text self) sign text;
         text_to_sign := append_to (text_to_sign self) text sign;
         sign_vocab := set_add (sign_vocab self) sign;
         text_vocab := set_add (text_vocab self) text;
         frequency := frequency self;
         terminology := terminology self |}
    else self in
  {| sign_to_text := sign_to_text self1;
     text_to_sign := text_to_sign self1;
     sign_vocab := sign_vocab self1;
     text_vocab := text_vocab self1;
     frequency := dict_set pair_eq_dec (frequency self1) (sign, text)
                           (count (frequency self1) (sign, text) + freq)%Z;
     terminology := terminology self1 |}.

Definition basic_mappings : list (pystr * list pystr) :=
  [ (u "你好", map u ["你好"; "您好"]%string);
    (u "再见", map u ["再见"; "拜拜"]%string);
    (u "谢谢", map u ["谢谢"; "感谢"]%string);
    (u "对不起", map u ["对不起"; "抱歉"]%string);
    (u "没关系", map u ["没关系"; "不客气"]%string);
    (u "我", map u ["我"; "咱们"]%string);
    (u "你", map u ["你"; "你们"]%string);
    (u "他", map u ["他"; "她"; "他们"]%string);
    (u "我们", map u ["我们"; "咱们"]%string);
    (u "来", map u ["来"; "过来"]%string);
    (u "去", map u ["去"; "走"]%string);
    (u "吃", map u ["吃"; "吃饭"]%string);
    (u "喝", map u ["喝"; "喝水"]%string);
    (u "看", map u ["看"; "看见"; "看"]%string);
    (u "听", map u ["听"; "听见"]%string);
    (u "说", map u ["说"; "讲"]%string);
    (u "做", map u ["做"; "干"]%string);
    (u "现在", map u ["现在"; "此刻"]%string);
    (u "今天", map u ["今天"; "今日"]%string);
    (u "明天", map u ["明天"; "明日"]%string);
    (u "昨天", map u ["昨天"; "昨日"]%string);
    (u "早晨", map u ["早晨"; "早上"]%string);
    (u "晚上", map u ["晚上"; "夜间"]%string);
    (u "一", map u ["1"; "一"]%string);
    (u "二", map u ["2"; "二"]%string);
    (u "三", map u ["3"; "三"]%string);
    (u "四", map u ["4"; "四"]%string);
    (u "五", map u ["5"; "五"]%string);
    (u "十", map u ["10"; "十"]%string);
    (u "爱", map u ["爱"; "喜欢"]%string);
    (u "喜欢", map u ["喜欢"; "爱"]%string);
    (u "帮助", map u ["帮助"; "帮忙"]%string);
    (u "学习", map u ["学习"; "学"]%string);
    (u "工作", map u ["工作"; "上班"]%string);
    (u "什么", map u ["什么"]%string);
    (u "哪里", map u ["哪里"; "什么地方"]%string);
    (u "为什么", map u ["为什么"; "干嘛"]%string);
    (u "怎么样", map u ["怎么样"; "如何"]%string);
    (u "几", map u ["几"; "多少"]%string) ].

Definition _initialize_basic_vocab (self : t) : t :=
  fold_left
    (fun self '(sign, texts) =>
       fold_left (fun self text => add_mapping self sign text 1) texts self)
    basic_mappings self.

(** [TranslationDict()] *)
Definition new : t := _initialize_basic_vocab empty.

Definition add_terminology (self : t) (term category' : pystr)
           (signs' : list pystr) (definition' : pystr) (examples' : list pystr) : t :=
  let self1 :=
    {| sign_to_text := sign_to_text self;
       text_to_sign := text_to_sign self;
       sign_vocab := sign_vocab self;
       text_vocab := text_vocab self;
       frequency := frequency self;
       terminology :=
         dict_set pystr_eq_dec (terminology self) term
                  {| category := category'; signs := signs';
                     definition := definition'; examples := examples' |} |} in
  fold_left (fun self sign => add_mapping self sign term 5) signs' self1.

Definition update_frequency (self : t) (sign text : pystr) (delta : Z) : t :=
  if dict_mem pair_eq_dec (frequency self) (sign, text) then
    {| sign_to_text := sign_to_text self;
       text_to_sign := text_to_sign self;
       sign_vocab := sign_vocab self;
       text_vocab := text_vocab self;
       frequency := dict_set pair_eq_dec (frequency self) (sign, text)
                             (count (frequency self) (sign, text) + delta)%Z;
       terminology := terminology self |}
  else self.

Definition batch_add_mappings (self : t) (mappings : list (pystr * pystr)) : t :=
  fold_left (fun self '(sign, text) => add_mapping self sign text 1) mappings self.

(** [sum(w for _, w in weights)] *)
Definition total_of (weights : list (pystr * Z)) : Z :=
  fold_left (fun acc '(_, w) => (acc + w)%Z) weights 0%Z.

Definition weight_lt (a b : pystr * Q) : bool :=
  if Qlt_le_dec (snd a) (snd b) then true else false.

(** The common body of [get_text_from_sign] and [get_sign_from_text]:
    normalise the counts, sort by weight, cut. *)
Definition ranked (weights : list (pystr * Z)) (top_k : Z) : list (pystr * Q) :=
  let total := total_of weights in
  let weights :=
    if (0 <? total)%Z
    then map (fun '(x, w) => (x, (inject_Z w / inject_Z total)%Q)) weights
    else map (fun '(x, _) =>
                (x, (1 / inject_Z (Z.of_nat (List.length weights)))%Q)) weights in
  PySort.slice_to (PySort.sort_desc weight_lt weights) top_k.


Definition get_sign_from_text (self : t) (text : pystr) (top_k : Z)
  : list (pystr * Q) :=
  if negb (dict_mem pystr_eq_dec (text_to_sign self) text) then []
  else
    let signs' := items_of (text_to_sign self) text in
    ranked (map (fun sign => (sign, count (frequency self) (sign, text))) signs') top_k.

(** ** The two directions stay in step *)

Record consistent (self : t) : Prop := {
  both_ways : forall s tx,
      In tx (items_of (sign_to_text self) s)
      <-> In s (items_of (text_to_sign self) tx);
  texts_distinct : forall s, NoDup (items_of (sign_to_text self) s);
  signs_distinct : forall tx, NoDup (items_of (text_to_sign self) tx);
  counted : forall s tx,
      dict_mem pair_eq_dec (frequency self) (s, tx) = true
      <-> In tx (items_of (sign_to_text self) s);
  signs_known : forall s,
      In s (sign_vocab self) <-> items_of (sign_to_text self) s <> [];
  texts_known : forall tx,
      In tx (text_vocab self) <-> items_of (text_to_sign self) tx <> [];
  sign_keys : forall s,
      dict_mem pystr_eq_dec (sign_to_text self) s = true
      <-> items_of (sign_to_text self) s <> [];
  text_keys : forall tx,
      dict_mem pystr_eq_dec (text_to_sign self) tx = true
      <-> items_of (text_to_sign self) tx <> []
}.

(** Every stored count is at least 1. *)
Definition positive (self : t) : Prop :=
  forall k n, dict_get pair_eq_dec (frequency self) k = Some n -> (1 <= n)%Z.

Lemma items_append (d : @dict pystr (list pystr)) (k v k0 : pystr) :
  items_of (append_to d k v) k0
  = if pystr_eq_dec k k0 then items_of d k ++ [v] else items_of d k0.
Proof.
  unfold append_to. unfold items_of at 1.
  destruct (pystr_eq_dec k k0) as [<-|Hne].
  - now rewrite dict_get_set_eq.
  - now rewrite dict_get_set_neq.
Qed.

Lemma mem_append (d : @dict pystr (list pystr)) (k v k0 : pystr) :
  dict_mem pystr_eq_dec (append_to d k v) k0
  = if pystr_eq_dec k k0 then true else dict_mem pystr_eq_dec d k0.
Proof.
  unfold append_to, dict_mem.
  destruct (pystr_eq_dec k k0) as [<-|Hne].
  - now rewrite dict_get_set_eq.
  - now rewrite dict_get_set_neq.
Qed.

Lemma mem_count_set (c : @dict (pystr * pystr) Z) (k k0 : pystr * pystr) (n : Z) :
  dict_mem pair_eq_dec (dict_set pair_eq_dec c k n) k0
  = if pair_eq_dec k k0 then true else dict_mem pair_eq_dec c k0.
Proof.
  unfold dict_mem. destruct (pair_eq_dec k k0) as [<-|Hne].
  - now rewrite dict_get_set_eq.
  - now rewrite dict_get_set_neq.
Qed.

Lemma in_set_add (s : list pystr) (x y : pystr) :
  In x (set_add s y) <-> In x s \/ x = y.
Proof.
  unfold set_add, in_list. destruct (in_dec pystr_eq_dec y s) as [Hin|Hnin].
  - split; [auto|]. intros [H | ->]; assumption.
  - rewrite in_app_iff. cbn. intuition congruence.
Qed.

Lemma in_list_true (x : pystr) (l : list pystr) : in_list x l = true <-> In x l.
Proof.
  unfold in_list. destruct (in_dec pystr_eq_dec x l); split; auto; discriminate.
Qed.

Lemma app_not_nil {A} (l : list A) (x : A) : l ++ [x] <> [].
Proof. destruct l; discriminate. Qed.

(** The test of [add_mapping] asks whether the pair is mapped. *)
Lemma is_new_spec (self : t) (sign text : pystr) :
  negb (dict_mem pystr_eq_dec (sign_to_text self) sign)
  || negb (in_list text (items_of (sign_to_text self) sign))
  = negb (in_list text (items_of (sign_to_text self) sign)).
Proof.
  unfold dict_mem, items_of.
  destruct (dict_get pystr_eq_dec (sign_to_text self) sign); reflexivity.
Qed.

Lemma empty_consistent : consistent empty.
Proof.
  constructor; cbn.
  - intros s tx. tauto.
  - intros s. constructor.
  - intros tx. constructor.
  - intros s tx. split; [discriminate | intros []].
  - intros s. split; [intros [] | congruence].
  - intros tx. split; [intros [] | congruence].
  - intros s. split; [discriminate | congruence].
  - intros tx. split; [discriminate | congruence].
Qed.

Lemma add_mapping_consistent (self : t) (sign text : pystr) (freq : Z) :
  consistent self -> consistent (add_mapping self sign text freq).
Proof.
  intros C. unfold add_mapping. rewrite is_new_spec.
  destruct (in_list text (items_of (sign_to_text self) sign)) eqn:E; cbn [negb].
  - apply in_list_true in E.
    constructor; cbn [sign_to_text text_to_sign sign_vocab text_vocab frequency];
      try apply C.
    intros s tx. rewrite mem_count_set.
    destruct (pair_eq_dec (sign, text) (s, tx)) as [[= <- <-]|Hne];
      [tauto | apply C].
  - assert (Hnot : ~ In text (items_of (sign_to_text self) sign)).
    { intros H. apply in_list_true in H. congruence. }
    assert (Hnot' : ~ In sign (items_of (text_to_sign self) text)).
    { intros H. apply Hnot. now apply C. }
    constructor; cbn [sign_to_text text_to_sign sign_vocab text_vocab frequency].
    + intros s tx. rewrite !items_append.
      destruct (pystr_eq_dec sign s) as [<-|Hs];
        destruct (pystr_eq_dec text tx) as [<-|Ht];
        rewrite ?in_app_iff; cbn [In]; pose proof (both_ways self C) as B.
      * tauto.
      * rewrite (B sign tx). intuition congruence.
      * rewrite (B s text). intuition congruence.
      * apply B.
    + intros s. rewrite items_append. destruct (pystr_eq_dec sign s) as [<-|Hs];
        [|apply C].
      apply NoDup_app; [apply C | repeat constructor; cbn; tauto |].
      intros a Ha [<-|[]]. exact (Hnot Ha).
    + intros tx. rewrite items_append. destruct (pystr_eq_dec text tx) as [<-|Ht];
        [|apply C].
      apply NoDup_app; [apply C | repeat constructor; cbn; tauto |].
      intros a Ha [<-|[]]. exact (Hnot' Ha).
    + intros s tx. rewrite mem_count_set, items_append.
      pose proof (counted self C s tx) as K.
      destruct (pair_eq_dec (sign, text) (s, tx)) as [[= <- <-]|Hne].
      * destruct (pystr_eq_dec sign sign); [|congruence].
        rewrite in_app_iff. cbn. tauto.
      * destruct (pystr_eq_dec sign s) as [<-|Hs]; [|exact K].
        rewrite in_app_iff. cbn [In]. rewrite K. intuition congruence.
    + intros s. rewrite in_set_add, items_append.
      pose proof (signs_known self C s) as K.
      destruct (pystr_eq_dec sign s) as [<-|Hs].
      * split; [intros _; apply app_not_nil | auto].
      * rewrite K. intuition congruence.
    + intros tx. rewrite in_set_add, items_append.
      pose proof (texts_known self C tx) as K.
      destruct (pystr_eq_dec text tx) as [<-|Ht].
      * split; [intros _; apply app_not_nil | auto].
      * rewrite K. intuition congruence.
    + intros s. rewrite mem_append, items_append.
      destruct (pystr_eq_dec sign s) as [<-|Hs]; [|apply C].
      split; [intros _; apply app_not_nil | auto].
    + intros tx. rewrite mem_append, items_append.
      destruct (pystr_eq_dec text tx) as [<-|Ht]; [|apply C].
      split; [intros _; apply app_not_nil | auto].
Qed.

Lemma count_nonneg (self : t) (k : pystr * pystr) :
  positive self -> (0 <= count (frequency self) k)%Z.
Proof.
  intros P. unfold count.
  destruct (dict_get pair_eq_dec (frequency self) k) as [n|] eqn:E; [|lia].
  specialize (P k n E). lia.
Qed.

Lemma add_mapping_positive (self : t) (sign text : pystr) (freq : Z) :
  (1 <= freq)%Z -> positive self -> positive (add_mapping self sign text freq).
Proof.
  intros Hf P. unfold add_mapping. rewrite is_new_spec.
  assert (G : forall k n,
             dict_get pair_eq_dec
               (dict_set pair_eq_dec (frequency self) (sign, text)
                         (count (frequency self) (sign, text) + freq)%Z) k = Some n ->
             (1 <= n)%Z).
  { intros k n. destruct (pair_eq_dec (sign, text) k) as [<-|Hne].
    - rewrite dict_get_set_eq. intros [= <-].
      pose proof (count_nonneg self (sign, text) P). lia.
    - rewrite dict_get_set_neq by exact Hne. apply P. }
  destruct (in_list text (items_of (sign_to_text self) sign)); exact G.
Qed.

(** The calls that change a dictionary. *)
Inductive Op :=
| AddMapping (sign text : pystr) (freq : Z)
| AddTerminology (term category' : pystr) (signs' : list pystr)
                 (definition' : pystr) (examples' : list pystr)
| UpdateFrequency (sign text : pystr) (delta : Z)
| BatchAddMappings (mappings : list (pystr * pystr)).

Definition step (self : t) (op : Op) : t :=
  match op with
  | AddMapping sign text freq => add_mapping self sign text freq
  | AddTerminology term c sg d e => add_terminology self term c sg d e
  | UpdateFrequency sign text delta => update_frequency self sign text delta
  | BatchAddMappings mappings => batch_add_mappings self mappings
  end.

Definition run (ops : list Op) (self : t) : t := fold_left step ops self.

(** A call that lowers no count and adds no pair with a count below 1. *)
Definition increasing (op : Op) : bool :=
  match op with
  | AddMapping _ _ freq => (1 <=? freq)%Z
  | UpdateFrequency _ _ delta => (0 <=? delta)%Z
  | _ => true
  end.

Lemma fold_add_mapping_consistent {X} (f : t -> X -> t) (l : list X) :
  (forall self x, consistent self -> consistent (f self x)) ->
  forall self, consistent self -> consistent (fold_left f l self).
Proof.
  intros Hf. induction l as [|x l IH]; intros self C; cbn; auto.
Qed.

Lemma fold_add_mapping_positive {X} (f : t -> X -> t) (l : list X) :
  (forall self x, positive self -> positive (f self x)) ->
  forall self, positive self -> positive (fold_left f l self).
Proof.
  intros Hf. induction l as [|x l IH]; intros self C; cbn; auto.
Qed.

Lemma step_consistent (self : t) (op : Op) :
  consistent self -> consistent (step self op).
Proof.
  intros C. destruct op as [s tx f|term c sg d e|s tx delta|ms]; cbn [step].
  - now apply add_mapping_consistent.
  - unfold add_terminology. apply fold_add_mapping_consistent.
    + intros self0 x. apply add_mapping_consistent.
    + constructor; cbn; apply C.
  - unfold update_frequency.
    destruct (dict_mem pair_eq_dec (frequency self) (s, tx)) eqn:M; [|exact C].
    constructor; cbn [sign_to_text text_to_sign sign_vocab text_vocab frequency];
      try apply C.
    intros s0 tx0. rewrite mem_count_set.
    destruct (pair_eq_dec (s, tx) (s0, tx0)) as [[= <- <-]|Hne]; [|apply C].
    split; [intros _; apply (counted _ C); exact M | reflexivity].
  - unfold batch_add_mappings. apply fold_add_mapping_consistent; [|exact C].
    intros self0 [s tx]. apply add_mapping_consistent.
Qed.

Lemma step_positive (self : t) (op : Op) :
  increasing op = true -> positive self -> positive (step self op).
Proof.
  intros I P. destruct op as [s tx f|term c sg d e|s tx delta|ms];
    cbn [step increasing] in *.
  - apply add_mapping_positive; [lia | exact P].
  - unfold add_terminology. apply fold_add_mapping_positive.
    + intros self0 x. apply add_mapping_positive. lia.
    + exact P.
  - unfold update_frequency.
    destruct (dict_mem pair_eq_dec (frequency self) (s, tx)) eqn:M; [|exact P].
    intros k n. cbn [frequency].
    destruct (pair_eq_dec (s, tx) k) as [<-|Hne].
    + rewrite dict_get_set_eq. intros [= <-]. unfold count, dict_mem in *.
      destruct (dict_get pair_eq_dec (frequency self) (s, tx)) as [m|] eqn:G;
        [|discriminate].
      specialize (P _ _ G). lia.
    + rewrite dict_get_set_neq by exact Hne. apply P.
  - unfold batch_add_mappings. apply fold_add_mapping_positive; [|exact P].
    intros self0 [s0 tx0]. apply add_mapping_positive. lia.
Qed.

Lemma new_consistent : consistent new /\ positive new.
Proof.
  unfold new, _initialize_basic_vocab. split.
  - apply fold_add_mapping_consistent; [|apply empty_consistent].
    intros self [s txs] C. apply fold_add_mapping_consistent; [|exact C].
    intros self0 tx. apply add_mapping_consistent.
  - apply fold_add_mapping_positive; [|intros k n; discriminate].
    intros self [s txs] P. apply fold_add_mapping_positive; [|exact P].
    intros self0 tx. apply add_mapping_positive. lia.
Qed.

(** X19. The two directions of the dictionary stay in step.  After any
    sequence of [add_mapping], [add_terminology], [update_frequency] and
    [batch_add_mappings] calls on a new dictionary: a text is listed for a
    sign exactly if the sign is listed for the text; no list repeats an
    entry; the counter has an entry exactly for the mapped pairs; the two
    vocabularies hold exactly the signs and texts with a mapping; and no key
    holds an empty list.  If no call passes a frequency below 1 or a
    negative delta, every count is at least 1. *)
Theorem translation_dict_consistent :
  forall (ops : list Op),
    let d := run ops new in
    (forall s tx, In tx (items_of (sign_to_text d) s)
                  <-> In s (items_of (text_to_sign d) tx))
    /\ (forall s, NoDup (items_of (sign_to_text d) s))
    /\ (forall tx, NoDup (items_of (text_to_sign d) tx))
    /\ (forall s tx, dict_mem pair_eq_dec (frequency d) (s, tx) = true
                     <-> In tx (items_of (sign_to_text d) s))
    /\ (forall s, In s (sign_vocab d)
                  <-> dict_mem pystr_eq_dec (sign_to_text d) s = true)
    /\ (forall tx, In tx (text_vocab d)
                   <-> dict_mem pystr_eq_dec (text_to_sign d) tx = true)
    /\ (forall s, dict_mem pystr_eq_dec (sign_to_text d) s = true
                  -> items_of (sign_to_text d) s <> [])
    /\ (forallb increasing ops = true ->
        forall s tx, In tx (items_of (sign_to_text d) s) ->
                     (1 <= count (frequency d) (s, tx))%Z).
Proof.
  intros ops.
  assert (G : forall self,
             consistent self ->
             consistent (run ops self)
             /\ (forallb increasing ops = true -> positive self ->
                 positive (run ops self))).
  { induction ops as [|op rest IH]; intros self C; cbn [run fold_left forallb].
    - auto.
    - destruct (IH (step self op) (step_consistent self op C)) as [IC IP].
      split; [exact IC|]. intros I P. apply andb_true_iff in I. destruct I as [I1 I2].
      apply IP; [exact I2|]. now apply step_positive. }
  destruct new_consistent as [NC NP]. destruct (G new NC) as [C P]. cbv zeta.
  split; [apply C|]. split; [apply C|]. split; [apply C|]. split; [apply C|].
  split; [|split; [|split]].
  - intros s. rewrite (signs_known _ C s). symmetry. apply C.
  - intros tx. rewrite (texts_known _ C tx). symmetry. apply C.
  - intros s. apply C.
  - intros I s tx Hin. specialize (P I NP).
    apply (counted _ C) in Hin. unfold dict_mem in Hin. unfold count.
    destruct (dict_get pair_eq_dec (frequency (run ops new)) (s, tx)) as [n|] eqn:E;
      [|discriminate].
    exact (P _ _ E).
Qed.

(** ** Ranking *)

Definition sumQ (l : list Q) : Q := fold_right Qplus 0%Q l.













End TranslationDict.

(* ================================================================== *)
(** * utils/speaker_db.py: search by similarity *)
(* ================================================================== *)

Module SpeakerSearch.
Import Py Numpy SpeakerDatabase.
Local Open Scope R_scope.

Definition similarity_lt (a b : SpeakerProfile * R) : bool :=
  if Rlt_dec (snd a) (snd b) then true else false.

(** The loop over [self.speakers_index.items()]. *)
Fixpoint search_loop (items : list (pystr * SpeakerProfile))
         (query_embedding : list R) (threshold : R)
         (results : list (SpeakerProfile * R))
  : result (list (SpeakerProfile * R)) :=
  match items with
  | [] => Ok results
  | (speaker_id, profile) :: rest =>
    if negb (is_active profile) then
      search_loop rest query_embedding threshold results
    else
      match embedding profile with
      | None => search_loop rest query_embedding threshold results
      | Some profile_embedding =>
        similarity <- dot query_embedding profile_embedding ;;
        if Rle_dec threshold similarity
        then search_loop rest query_embedding threshold
                         (results ++ [(profile, similarity)])
        else search_loop rest query_embedding threshold results
      end
  end.

Definition search_by_similarity_body (index : speakers_index)
           (query_embedding : list R) (top_k : Z) (threshold : R)
  : result (list (SpeakerProfile * R)) :=
  let query_embedding := normalize_query query_embedding in
  results <- search_loop index query_embedding threshold [] ;;
  Ok (PySort.slice_to (PySort.sort_desc similarity_lt results) top_k).

(** [except Exception: return []] *)
Definition search_by_similarity (index : speakers_index)
           (query_embedding : list R) (top_k : Z) (threshold : R)
  : list (SpeakerProfile * R) :=
  match search_by_similarity_body index query_embedding top_k threshold with
  | Ok results => results
  | Raise _ => []
  end.

(** An entry the loop accepts. *)
Definition accepted (items : list (pystr * SpeakerProfile)) (q : list R)
           (threshold : R) (profile : SpeakerProfile) (similarity : R) : Prop :=
  exists speaker_id e,
    In (speaker_id, profile) items /\ is_active profile = true
    /\ embedding profile = Some e /\ dot q e = Ok similarity
    /\ threshold <= similarity.

Lemma search_loop_ok (items : list (pystr * SpeakerProfile)) (q : list R)
      (threshold : R) : forall acc res,
  search_loop items q threshold acc = Ok res ->
  exists found,
    res = acc ++ found
    /\ (forall p s, In (p, s) found <-> accepted items q threshold p s).
Proof.
  induction items as [|[k p0] rest IH]; intros acc res; cbn [search_loop].
  - intros [= <-]. exists []. rewrite app_nil_r. split; [reflexivity|].
    intros p s. split; [intros [] | intros (k & e & [] & _)].
  - assert (Skip : forall found,
               (is_active p0 = false \/ embedding p0 = None
                \/ exists e, embedding p0 = Some e
                             /\ ((exists err, dot q e = Raise err)
                                 \/ exists s0, dot q e = Ok s0 /\ ~ threshold <= s0)) ->
               (forall p s, In (p, s) found <-> accepted rest q threshold p s) ->
               forall p s, In (p, s) found <-> accepted ((k, p0) :: rest) q threshold p s).
    { intros found Hskip Hf p s. rewrite Hf. unfold accepted. split.
      - intros (k' & e & Hin & H). exists k', e. split; [now right | exact H].
      - intros (k' & e & [[= <- <-]|Hin] & Ha & He & Hd & Ht).
        + exfalso. destruct Hskip as [H|[H|(e' & He' & [(err & H)|(s0 & H & Hn)])]];
            congruence.
        + exists k', e. auto. }
    destruct (is_active p0) eqn:Ea; cbn [negb].
    + destruct (embedding p0) as [e|] eqn:Ee.
      * destruct (dot q e) as [s0|err] eqn:Ed; cbn [bind]; [|discriminate].
        destruct (Rle_dec threshold s0) as [Hle|Hnle].
        -- intros H. destruct (IH _ _ H) as (found & -> & Hf).
           exists ((p0, s0) :: found). rewrite <- app_assoc. split; [reflexivity|].
           intros p s. cbn [In]. rewrite Hf. unfold accepted. split.
           ++ intros [[= <- <-]|(k' & e' & Hin & H')].
              ** exists k, e. repeat split; auto. now left.
              ** exists k', e'. split; [now right | exact H'].
           ++ intros (k' & e' & [[= <- <-]|Hin] & Ha & He & Hd & Ht).
              ** left. f_equal. congruence.
              ** right. exists k', e'. auto.
        -- intros H. destruct (IH _ _ H) as (found & -> & Hf).
           exists found. split; [reflexivity|]. apply Skip; [|exact Hf].
           right. right. exists e. split; [reflexivity|]. right. eauto.
      * intros H. destruct (IH _ _ H) as (found & -> & Hf).
        exists found. split; [reflexivity|]. apply Skip; auto.
    + intros H. destruct (IH _ _ H) as (found & -> & Hf).
      exists found. split; [reflexivity|]. apply Skip; auto.
Qed.

Lemma search_loop_raise (items : list (pystr * SpeakerProfile)) (q : list R)
      (threshold : R) (k : pystr) (p : SpeakerProfile) (e : list R) (err : exn) :
  In (k, p) items -> is_active p = true -> embedding p = Some e ->
  dot q e = Raise err ->
  forall acc, exists err', search_loop items q threshold acc = Raise err'.
Proof.
  intros Hin Ha He Hd. induction items as [|[k0 p0] rest IH]; [destruct Hin|].
  intros acc. cbn [search_loop]. destruct Hin as [[= -> ->]|Hin].
  - rewrite Ha, He, Hd. cbn. eauto.
  - destruct (is_active p0); cbn [negb]; [|now apply IH].
    destruct (embedding p0) as [e0|]; [|now apply IH].
    destruct (dot q e0) as [s0|err0]; cbn [bind]; [|eauto].
    destruct (Rle_dec threshold s0); now apply IH.
Qed.

Lemma similarity_lt_asym (a b : SpeakerProfile * R) :
  similarity_lt a b = true -> similarity_lt b a = false.
Proof.
  unfold similarity_lt. destruct (Rlt_dec (snd a) (snd b)); [|discriminate].
  intros _. destruct (Rlt_dec (snd b) (snd a)); [lra | reflexivity].
Qed.

Lemma similarity_ordered (a b : SpeakerProfile * R) :
  PySort.ordered similarity_lt a b <-> snd b <= snd a.
Proof.
  unfold PySort.ordered, similarity_lt.
  destruct (Rlt_dec (snd a) (snd b)); split; intros; try discriminate;
    try reflexivity; lra.
Qed.

Lemma similarity_ordered_trans (a b c : SpeakerProfile * R) :
  PySort.ordered similarity_lt a b -> PySort.ordered similarity_lt b c ->
  PySort.ordered similarity_lt a c.
Proof. rewrite !similarity_ordered. lra. Qed.

Lemma sorted_desc_firstn {A} (key_lt : A -> A -> bool) (l : list A) : forall n,
  PySort.sorted_desc key_lt l -> PySort.sorted_desc key_lt (firstn n l).
Proof.
  induction l as [|x l IH]; intros n H; [now destruct n|].
  destruct n as [|n]; [exact I|]. cbn [firstn PySort.sorted_desc] in *.
  destruct H as [H1 H2]. split; [|now apply IH].
  apply Forall_forall. intros y Hy.
  apply (proj1 (Forall_forall _ _) H1). rewrite <- (firstn_skipn n l).
  apply in_or_app. now left.
Qed.

(** X21. Search and verification agree.  In an index with distinct ids,
    every pair [search_by_similarity] returns is an active profile of the
    index together with the similarity [verify_speaker] computes for it, at
    or above the threshold, so that [verify_speaker] accepts it; the result
    is sorted by falling similarity, has at most [top_k] entries for
    [top_k >= 0], and with [top_k] the size of the index lists every active
    profile that [verify_speaker] accepts whenever no comparison raises.  If
    the comparison raises for one active profile (an embedding of another
    length), the search returns nothing at all. *)
Theorem search_agrees_with_verify :
  forall (index : speakers_index) (query_embedding : list R) (top_k : Z)
         (threshold : R),
    dict_wf index ->
    let results := search_by_similarity index query_embedding top_k threshold in
    (forall profile similarity,
        In (profile, similarity) results ->
        exists speaker_id,
          In (speaker_id, profile) index
          /\ is_active profile = true
          /\ threshold <= similarity
          /\ verify_speaker index speaker_id query_embedding threshold
             = (true, similarity))
    /\ PySort.sorted_desc similarity_lt results
    /\ ((0 <= top_k)%Z -> (Z.of_nat (List.length results) <= top_k)%Z)
    /\ (forall speaker_id profile e err,
           In (speaker_id, profile) index -> is_active profile = true ->
           embedding profile = Some e ->
           dot (normalize_query query_embedding) e = Raise err ->
           results = [])
    /\ ((forall speaker_id profile e,
            In (speaker_id, profile) index -> is_active profile = true ->
            embedding profile = Some e ->
            exists s, dot (normalize_query query_embedding) e = Ok s) ->
        forall speaker_id profile similarity,
          In (speaker_id, profile) index -> is_active profile = true ->
          verify_speaker index speaker_id query_embedding threshold
          = (true, similarity) ->
          In (profile, similarity)
             (search_by_similarity index query_embedding
                                   (Z.of_nat (List.length index)) threshold)).
Proof.
  intros index query top_k threshold Hwf. cbv zeta.
  assert (V : forall k p e s,
             In (k, p) index -> embedding p = Some e ->
             dot (normalize_query query) e = Ok s ->
             verify_speaker index k query threshold
             = ((if Rle_dec threshold s then true else false), s)).
  { intros k p e s Hin He Hd. unfold verify_speaker, verify_speaker_body.
    rewrite (dict_In_get pystr_eq_dec index k p Hwf Hin), He, Hd. reflexivity. }
  unfold search_by_similarity, search_by_similarity_body.
  split; [|split; [|split; [|split]]].
  - destruct (search_loop index (normalize_query query) threshold []) as [res|err] eqn:E;
      cbn [bind]; [|intros p s []].
    destruct (search_loop_ok _ _ _ _ _ E) as (found & -> & Hf). cbn [app].
    intros p s Hin.
    assert (Hin' : In (p, s) found).
    { eapply Permutation_in; [apply (PySort.sort_desc_perm similarity_lt)|].
      unfold PySort.slice_to in Hin.
      destruct (0 <=? top_k)%Z;
        match type of Hin with
        | In _ (firstn ?n ?l) => rewrite <- (firstn_skipn n l)
        end; apply in_or_app; now left. }
    apply Hf in Hin'. destruct Hin' as (k & e & Hi & Ha & He & Hd & Ht).
    exists k. repeat split; try assumption.
    rewrite (V k p e s Hi He Hd). destruct (Rle_dec threshold s); [reflexivity|].
    contradiction.
  - destruct (search_loop index (normalize_query query) threshold []) as [res|err];
      cbn [bind]; [|exact I].
    unfold PySort.slice_to. destruct (0 <=? top_k)%Z; apply sorted_desc_firstn;
      apply PySort.sort_desc_sorted;
      try apply similarity_lt_asym; apply similarity_ordered_trans.
  - intros Hk.
    destruct (search_loop index (normalize_query query) threshold []) as [res|err];
      cbn [bind]; [|cbn; lia].
    unfold PySort.slice_to. destruct (Z.leb_spec 0 top_k); [|lia].
    rewrite length_firstn. lia.
  - intros k p e err Hin Ha He Hd.
    destruct (search_loop_raise index (normalize_query query) threshold k p e err
                                Hin Ha He Hd []) as (err' & ->).
    reflexivity.
  - intros Hall k p s Hin Ha Hv.
    destruct (search_loop index (normalize_query query) threshold []) as [res|err] eqn:E;
      cbn [bind].
    + destruct (search_loop_ok _ _ _ _ _ E) as (found & -> & Hf). cbn [app].
      assert (Hacc : In (p, s) found).
      { apply Hf. unfold verify_speaker, verify_speaker_body in Hv.
        rewrite (dict_In_get pystr_eq_dec index k p Hwf Hin) in Hv.
        destruct (embedding p) as [e|] eqn:He; [|discriminate].
        destruct (Hall k p e Hin Ha He) as (s0 & Hd). rewrite Hd in Hv.
        cbn [bind] in Hv.
        destruct (Rle_dec threshold s0) as [Hle|_]; [|discriminate].
        injection Hv as <-. exists k, e. auto. }
      assert (Hlen : (List.length (PySort.sort_desc similarity_lt found)
                      <= List.length index)%nat).
      { rewrite PySort.sort_desc_length. clear - E.
        assert (G : forall items acc res,
                   search_loop items (normalize_query query) threshold acc = Ok res ->
                   (List.length res <= List.length acc + List.length items)%nat).
        { induction items as [|[k0 p0] rest IH]; intros acc res; cbn [search_loop].
          - intros [= <-]. lia.
          - destruct (is_active p0); cbn [negb List.length].
            + destruct (embedding p0) as [e0|].
              * destruct (dot (normalize_query query) e0) as [s0|]; cbn [bind];
                  [|discriminate].
                destruct (Rle_dec threshold s0); intros H; apply IH in H;
                  rewrite ?length_app in H; cbn [List.length] in H; lia.
              * intros H. apply IH in H. lia.
            + intros H. apply IH in H. lia. }
        apply G in E. cbn in E. exact E. }
      unfold PySort.slice_to. destruct (Z.leb_spec 0 (Z.of_nat (List.length index)));
        [|lia].
      rewrite Nat2Z.id, firstn_all2 by exact Hlen.
      eapply Permutation_in; [apply Permutation_sym, PySort.sort_desc_perm|].
      exact Hacc.
    + exfalso.
      assert (G : forall items acc,
                 (forall k0 p0 e0, In (k0, p0) items -> is_active p0 = true ->
                                   embedding p0 = Some e0 ->
                                   exists s0, dot (normalize_query query) e0 = Ok s0) ->
                 exists res, search_loop items (normalize_query query) threshold acc
                             = Ok res).
      { induction items as [|[k0 p0] rest IH]; intros acc Hok; cbn [search_loop];
          [eauto|].
        assert (Hrest : forall k1 p1 e1, In (k1, p1) rest -> is_active p1 = true ->
                                         embedding p1 = Some e1 ->
                                         exists s1, dot (normalize_query query) e1 = Ok s1).
        { intros k1 p1 e1 H1. apply (Hok k1). now right. }
        destruct (is_active p0) eqn:Ea0; cbn [negb]; [|exact (IH _ Hrest)].
        destruct (embedding p0) as [e0|] eqn:Ee0; [|exact (IH _ Hrest)].
        destruct (Hok k0 p0 e0 (or_introl eq_refl) Ea0 Ee0) as (s0 & ->). cbn [bind].
        destruct (Rle_dec threshold s0); exact (IH _ Hrest). }
      destruct (G index [] Hall) as (res & Hres). congruence.
Qed.

Lemma search_agrees_with_verify_witness :
  PySort.sorted_desc similarity_lt (search_by_similarity demo_index [3; 4] 5 (7 / 10)).
Proof.
  refine (proj1 (proj2 (search_agrees_with_verify demo_index [3; 4] 5 (7 / 10) _))).
  unfold dict_wf, demo_index. cbn. repeat constructor; cbn; intuition discriminate.
Defined.

End SpeakerSearch.

(* ================================================================== *)
(** * services/audio_preprocessor.py: silence ranges and frames *)
(* ================================================================== *)

Module AudioSegments.
Import Py.

(** ** [detect_silence] *)

(** The loop over the non-silent ranges (milliseconds), collecting the gaps
    in seconds. *)
Fixpoint silence_loop (nonsilent_ranges : list (Z * Z)) (prev_end : Z)
         (silence_ranges : list (Q * Q)) : list (Q * Q) * Z :=
  match nonsilent_ranges with
  | [] => (silence_ranges, prev_end)
  | (start, end_) :: rest =>
    silence_loop rest end_
      (if (prev_end <? start)%Z
       then silence_ranges ++ [((inject_Z prev_end / 1000)%Q, (inject_Z start / 1000)%Q)]
       else silence_ranges)
  end.

Definition Qltb (a b : Q) : bool := if Qlt_le_dec a b then true else false.

(** What follows the call of [detect_nonsilent]; [length_ms] is
    [len(audio_segment)]. *)
Definition silence_ranges_of (nonsilent_ranges : list (Z * Z)) (length_ms : Z)
  : list (Q * Q) :=
  let '(silence_ranges, prev_end) := silence_loop nonsilent_ranges 0 [] in
  let total_duration := (inject_Z length_ms / 1000)%Q in
  if Qltb (inject_Z prev_end) total_duration
  then silence_ranges ++ [((inject_Z prev_end / 1000)%Q, total_duration)]
  else silence_ranges.

Section Detect.
(** The pydub side: building the segment from the samples, its length in
    milliseconds and the detection of the non-silent ranges. *)
Context {Audio Segment : Type}.
Variable make_segment : Audio -> Z -> result Segment.
Variable segment_length : Segment -> Z.
Variable detect_nonsilent : Segment -> result (list (Z * Z)).

Definition detect_silence_body (audio_data : Audio) (sample_rate : Z)
  : result (list (Q * Q)) :=
  audio_segment <- make_segment audio_data sample_rate ;;
  nonsilent_ranges <- detect_nonsilent audio_segment ;;
  Ok (silence_ranges_of nonsilent_ranges (segment_length audio_segment)).

(** [except Exception: return []] *)
Definition detect_silence (audio_data : Audio) (sample_rate : Z) : list (Q * Q) :=
  match detect_silence_body audio_data sample_rate with
  | Ok silence_ranges => silence_ranges
  | Raise _ => []
  end.

End Detect.

(** Ranges as [detect_nonsilent] gives them: in order, without overlap,
    inside the recording. *)
Fixpoint in_order (ranges : list (Z * Z)) (from : Z) (length_ms : Z) : Prop :=
  match ranges with
  | [] => (from <= length_ms)%Z
  | (start, end_) :: rest =>
    (from <= start)%Z /\ (start < end_)%Z /\ in_order rest end_ length_ms
  end.

(** Where the last range ends ([from] when there is none). *)
Definition last_end (ranges : list (Z * Z)) (from : Z) : Z :=
  fold_left (fun _ r => snd r) ranges from.

Lemma silence_loop_spec (ranges : list (Z * Z)) (length_ms : Z) :
  forall from acc,
    (0 <= from)%Z -> in_order ranges from length_ms ->
    let '(out, prev_end) := silence_loop ranges from acc in
    prev_end = last_end ranges from
    /\ (from <= prev_end <= length_ms)%Z
    /\ exists gaps,
        out = acc ++ gaps
        /\ Forall (fun g => (fst g < snd g)%Q
                            /\ (inject_Z from / 1000 <= fst g)%Q
                            /\ (snd g <= inject_Z prev_end / 1000)%Q) gaps.
Proof.
  induction ranges as [|[start end_] rest IH]; intros from acc Hfrom Hord;
    cbn [silence_loop in_order last_end fold_left] in *.
  - split; [reflexivity|]. split; [lia|]. exists []. rewrite app_nil_r. auto.
  - destruct Hord as (H1 & H2 & H3).
    assert (Hend : (0 <= end_)%Z) by lia.
    specialize (IH end_ (if (from <? start)%Z
                         then acc ++ [((inject_Z from / 1000)%Q,
                                       (inject_Z start / 1000)%Q)]
                         else acc) Hend H3).
    destruct (silence_loop rest end_ _) as [out prev_end].
    destruct IH as (E & Hb & gaps & -> & Hg). cbn [snd].
    split; [exact E|]. split; [lia|].
    assert (Hmono : forall a b : Z, (a <= b)%Z -> (inject_Z a / 1000 <= inject_Z b / 1000)%Q).
    { intros a b Hab. unfold Qle, Qdiv, Qmult, Qinv, inject_Z. cbn. lia. }
    assert (Hstrict : forall a b : Z, (a < b)%Z -> (inject_Z a / 1000 < inject_Z b / 1000)%Q).
    { intros a b Hab. unfold Qlt, Qdiv, Qmult, Qinv, inject_Z. cbn. lia. }
    assert (Hg' : Forall (fun g => (fst g < snd g)%Q
                                   /\ (inject_Z from / 1000 <= fst g)%Q
                                   /\ (snd g <= inject_Z prev_end / 1000)%Q) gaps).
    { eapply Forall_impl; [|exact Hg]. cbn. intros g (G1 & G2 & G3).
      split; [exact G1|]. split; [|exact G3].
      eapply Qle_trans; [|exact G2]. apply Hmono. lia. }
    destruct (Z.ltb_spec from start) as [Hlt|Hge].
    + exists (((inject_Z from / 1000)%Q, (inject_Z start / 1000)%Q) :: gaps).
      rewrite <- app_assoc. split; [reflexivity|].
      constructor; [|exact Hg']. cbn [fst snd].
      split; [now apply Hstrict|]. split; [apply Qle_refl|]. apply Hmono. lia.
    + exists gaps. split; [reflexivity | exact Hg'].
Qed.

(** X22. The guard for the silence at the end compares milliseconds with
    seconds.  For non-silent ranges in order inside a recording of
    [length_ms] milliseconds, every range reported has positive length and
    lies inside the recording; the silence after the last non-silent range
    is reported exactly if that range ends before [length_ms / 1000]
    milliseconds.  So when sound ends at [e] with [length_ms <= 1000 * e],
    every reported range ends at or before [e], and the silence from [e] to
    the end of the recording is left out. *)
Theorem detect_silence_trailing_guard :
  forall (nonsilent_ranges : list (Z * Z)) (length_ms : Z),
    in_order nonsilent_ranges 0 length_ms ->
    let out := silence_ranges_of nonsilent_ranges length_ms in
    let e := last_end nonsilent_ranges 0 in
    Forall (fun g => (fst g < snd g)%Q /\ (0 <= fst g)%Q
                     /\ (snd g <= inject_Z length_ms / 1000)%Q) out
    /\ ((1000 * e < length_ms)%Z ->
        exists gaps,
          out = gaps ++ [((inject_Z e / 1000)%Q, (inject_Z length_ms / 1000)%Q)])
    /\ ((length_ms <= 1000 * e)%Z ->
        Forall (fun g => (snd g <= inject_Z e / 1000)%Q) out)
    /\ (nonsilent_ranges = [] -> (0 < length_ms)%Z ->
        out = [(0 / 1000, inject_Z length_ms / 1000)%Q]).
Proof.
  intros ranges len Hord. cbv zeta. unfold silence_ranges_of.
  pose proof (silence_loop_spec ranges len 0 [] (Z.le_refl 0) Hord) as S.
  destruct (silence_loop ranges 0 []) as [out prev_end].
  destruct S as (E & Hb & gaps & -> & Hg). cbn [app] in *. rewrite <- E.
  assert (Hcmp : Qltb (inject_Z prev_end) (inject_Z len / 1000) = true
                 <-> (1000 * prev_end < len)%Z).
  { unfold Qltb. destruct (Qlt_le_dec (inject_Z prev_end) (inject_Z len / 1000)) as [H|H].
    - split; [intros _|reflexivity].
      unfold Qlt, Qdiv, Qmult, Qinv, inject_Z in H. cbn in H. lia.
    - split; [discriminate|]. intros H'. exfalso.
      unfold Qle, Qdiv, Qmult, Qinv, inject_Z in H. cbn in H. lia. }
  assert (Hmono : forall a b : Z, (a <= b)%Z -> (inject_Z a / 1000 <= inject_Z b / 1000)%Q).
  { intros a b Hab. unfold Qle, Qdiv, Qmult, Qinv, inject_Z. cbn. lia. }
  assert (Hg0 : Forall (fun g => (fst g < snd g)%Q /\ (0 <= fst g)%Q
                                 /\ (snd g <= inject_Z len / 1000)%Q) gaps).
  { eapply Forall_impl; [|exact Hg]. cbn. intros g (G1 & G2 & G3).
    split; [exact G1|]. split.
    - eapply Qle_trans; [|exact G2]. unfold Qle. cbn. lia.
    - eapply Qle_trans; [exact G3|]. apply Hmono. lia. }
  destruct (Qltb (inject_Z prev_end) (inject_Z len / 1000)) eqn:C.
  - assert (Hlt : (1000 * prev_end < len)%Z) by now apply Hcmp.
    split; [|split; [|split]].
    + apply Forall_app. split; [exact Hg0|]. constructor; [|constructor]. cbn [fst snd].
      split; [|split].
      * unfold Qlt, Qdiv, Qmult, Qinv, inject_Z. cbn. lia.
      * unfold Qle, Qdiv, Qmult, Qinv, inject_Z. cbn. lia.
      * apply Qle_refl.
    + intros _. exists gaps. reflexivity.
    + intros H. lia.
    + intros -> Hl. cbn in E. subst prev_end.
      destruct gaps as [|g gaps]; [reflexivity|].
      cbn in Hg. inversion Hg as [|? ? (G1 & G2 & G3) _]; subst.
      exfalso. apply (Qlt_irrefl (fst g)).
      eapply Qlt_le_trans; [exact G1|]. eapply Qle_trans; [exact G3|]. exact G2.
  - assert (Hge : ~ (1000 * prev_end < len)%Z).
    { intros H. apply Hcmp in H. discriminate. }
    split; [|split; [|split]].
    + exact Hg0.
    + intros H. contradiction.
    + intros _. eapply Forall_impl; [|exact Hg]. cbn. tauto.
    + intros -> Hl. cbn in E. subst prev_end. lia.
Qed.

Lemma detect_silence_trailing_guard_witness :
  Forall (fun g => (snd g <= inject_Z 5000 / 1000)%Q)
         (silence_ranges_of [(0, 5000)%Z] 10000).
Proof.
  refine (proj1 (proj2 (proj2 (detect_silence_trailing_guard [(0, 5000)%Z] 10000 _))) _).
  - cbn. lia.
  - cbn. lia.
Defined.

(** Ten seconds of which the last five are silent: nothing is reported. *)
Example detect_silence_misses_the_end :
  silence_ranges_of [(0, 5000)%Z] 10000 = [].
Proof. reflexivity. Qed.

(** ** [frame_audio] *)

(** [range(0, stop, step)] *)
Definition range_from_zero (stop step : Z) : result (list Z) :=
  if (step =? 0)%Z then
    Raise (PyError "ValueError" (u "range() arg 3 must not be zero"))
  else if (0 <? step)%Z then
    Ok (map (fun i => (Z.of_nat i * step)%Z)
            (seq 0 (Z.to_nat ((stop + step - 1) / step))))
  else
    Ok (map (fun i => (Z.of_nat i * step)%Z)
            (seq 0 (Z.to_nat ((- stop - step - 1) / (- step))))).

(** An index of a slice, brought into [0 .. n]. *)
Definition clamp (n : nat) (i : Z) : nat :=
  if (i <? 0)%Z then Z.to_nat (Z.max 0 (i + Z.of_nat n))
  else Nat.min (Z.to_nat i) n.

(** [a[i:j]] and [a[i:]] *)
Definition slice {A} (a : list A) (i : Z) (j : option Z) : list A :=
  let n := List.length a in
  let lo := clamp n i in
  let hi := match j with Some j => clamp n j | None => n end in
  firstn (hi - lo) (skipn lo a).

Section Frames.
Context {Sample : Type}.
(** The sample [np.zeros] fills with. *)
Variable zero : Sample.

Record AudioSegmentInfo := {
  audio_data : list Sample;
  start_time : Q;
  end_time : Q;
  duration : Q
}.

(** [x / sr] *)
Definition seconds (x sr : Z) : result Q :=
  if (sr =? 0)%Z then Raise (PyError "ZeroDivisionError" (u "division by zero"))
  else Ok (inject_Z x / inject_Z sr)%Q.

Fixpoint frames_loop (audio : list Sample) (frame_length : Q) (sr frame_samples : Z)
         (starts : list Z) (segments : list AudioSegmentInfo)
  : result (list AudioSegmentInfo) :=
  match starts with
  | [] => Ok segments
  | i :: rest =>
    let start_sample := i in
    let end_sample := (i + frame_samples)%Z in
    let segment_audio := slice audio start_sample (Some end_sample) in
    t0 <- seconds start_sample sr ;;
    t1 <- seconds end_sample sr ;;
    frames_loop audio frame_length sr frame_samples rest
                (segments ++ [{| audio_data := segment_audio; start_time := t0;
                                 end_time := t1; duration := frame_length |}])
  end.

(** [np.zeros(n)] *)
Definition zeros (n : Z) : result (list Sample) :=
  if (n <? 0)%Z then
    Raise (PyError "ValueError" (u "negative dimensions are not allowed"))
  else Ok (repeat zero (Z.to_nat n)).

(** The body of the [try] block once [sr], [frame_samples =
    int(frame_length * sr)] and [hop_samples = int(hop_length * sr)] are
    computed. *)
Definition frame_audio_body (audio : list Sample) (frame_length : Q)
           (sr frame_samples hop_samples : Z)
  : result (list AudioSegmentInfo) :=
  let total_samples := Z.of_nat (List.length audio) in
  starts <- range_from_zero (total_samples - frame_samples + 1) hop_samples ;;
  segments <- frames_loop audio frame_length sr frame_samples starts [] ;;
  if (frame_samples <? total_samples)%Z then
    let start_sample := (total_samples - frame_samples)%Z in
    let segment_audio := slice audio start_sample None in
    segment_audio <-
      (if (Z.of_nat (List.length (slice audio start_sample None)) <? frame_samples)%Z
       then padding <- zeros (frame_samples - Z.of_nat (List.length segment_audio)) ;;
            Ok (segment_audio ++ padding)
       else Ok segment_audio) ;;
    t0 <- seconds start_sample sr ;;
    t1 <- seconds total_samples sr ;;
    Ok (segments ++ [{| audio_data := segment_audio; start_time := t0;
                        end_time := t1; duration := frame_length |}])
  else Ok segments.

(** [except Exception as e: raise RuntimeError(...)] *)
Definition frame_audio (audio : list Sample) (frame_length : Q)
           (sr frame_samples hop_samples : Z)
  : result (list AudioSegmentInfo) :=
  match frame_audio_body audio frame_length sr frame_samples hop_samples with
  | Ok segments => Ok segments
  | Raise e =>
    Raise (PyError "RuntimeError" (u "音频分帧失败: " ++ str_of_exn e))
  end.

(** The samples [start .. start + count - 1]. *)
Definition window (audio : list Sample) (start count : nat) : list Sample :=
  firstn count (skipn start audio).

Lemma slice_window (audio : list Sample) (i count : nat) :
  (i + count <= List.length audio)%nat ->
  slice audio (Z.of_nat i) (Some (Z.of_nat i + Z.of_nat count)%Z)
  = window audio i count.
Proof.
  intros H. unfold slice, clamp, window.
  destruct (Z.ltb_spec (Z.of_nat i) 0); [lia|].
  destruct (Z.ltb_spec (Z.of_nat i + Z.of_nat count) 0); [lia|].
  rewrite Nat2Z.id.
  replace (Nat.min i (List.length audio)) with i by lia.
  f_equal. lia.
Qed.

Lemma slice_tail (audio : list Sample) (i : nat) :
  (i <= List.length audio)%nat ->
  slice audio (Z.of_nat i) None = window audio i (List.length audio - i).
Proof.
  intros H. unfold slice, clamp, window.
  destruct (Z.ltb_spec (Z.of_nat i) 0); [lia|].
  rewrite Nat2Z.id.
  replace (Nat.min i (List.length audio)) with i by lia.
  reflexivity.
Qed.

Lemma window_length (audio : list Sample) (i count : nat) :
  (i + count <= List.length audio)%nat -> List.length (window audio i count) = count.
Proof.
  intros H. unfold window. rewrite length_firstn, length_skipn. lia.
Qed.

(** The regular frames: frame [k] starts at sample [k * hop]. *)
Definition regular (audio : list Sample) (frame_length : Q) (sr : Z)
           (frame hop : nat) (k : nat) : AudioSegmentInfo :=
  {| audio_data := window audio (k * hop) frame;
     start_time := (inject_Z (Z.of_nat (k * hop)) / inject_Z sr)%Q;
     end_time := (inject_Z (Z.of_nat (k * hop) + Z.of_nat frame) / inject_Z sr)%Q;
     duration := frame_length |}.

Lemma frames_loop_regular (audio : list Sample) (frame_length : Q) (sr : Z)
      (frame hop : nat) (ks : list nat) :
  (sr <> 0)%Z ->
  (forall k, In k ks -> (k * hop + frame <= List.length audio)%nat) ->
  forall acc,
    frames_loop audio frame_length sr (Z.of_nat frame)
                (map (fun i => (Z.of_nat i * Z.of_nat hop)%Z) ks) acc
    = Ok (acc ++ map (regular audio frame_length sr frame hop) ks).
Proof.
  intros Hsr. induction ks as [|k ks IH]; intros Hin acc; cbn [map frames_loop].
  - now rewrite app_nil_r.
  - unfold seconds. destruct (Z.eqb_spec sr 0) as [|_]; [contradiction|].
    cbn [bind]. rewrite IH by (intros k' Hk'; apply Hin; now right).
    rewrite <- app_assoc. cbn [app]. f_equal. f_equal. f_equal.
    unfold regular. rewrite <- Nat2Z.inj_mul.
    rewrite slice_window by (apply Hin; now left). reflexivity.
Qed.

(** X23. Frames.  With positive frame size, hop and sample rate,
    [frame_audio] returns without raising.  A recording shorter than one
    frame gives no frame at all.  Otherwise it gives the frames starting at
    0, hop, 2 hop, ... as long as they fit, each of exactly [frame_samples]
    samples, and, if the recording is longer than one frame, one more frame
    holding the last [frame_samples] samples; the padding branch is never
    taken.  When the hop divides [total - frame_samples] this last frame
    repeats the samples of the frame before it. *)
Theorem frame_audio_frames :
  forall (audio : list Sample) (frame_length : Q) (sr : Z) (frame hop : nat),
    (0 < frame)%nat -> (0 < hop)%nat -> (0 < sr)%Z ->
    let total := List.length audio in
    let count := ((total - frame) / hop + 1)%nat in
    let last :=
      {| audio_data := window audio (total - frame) frame;
         start_time := (inject_Z (Z.of_nat total - Z.of_nat frame) / inject_Z sr)%Q;
         end_time := (inject_Z (Z.of_nat total) / inject_Z sr)%Q;
         duration := frame_length |} in
    (total < frame ->
     frame_audio audio frame_length sr (Z.of_nat frame) (Z.of_nat hop) = Ok [])%nat
    /\ (total = frame ->
        frame_audio audio frame_length sr (Z.of_nat frame) (Z.of_nat hop)
        = Ok [regular audio frame_length sr frame hop 0])
    /\ (frame < total ->
        frame_audio audio frame_length sr (Z.of_nat frame) (Z.of_nat hop)
        = Ok (map (regular audio frame_length sr frame hop) (seq 0 count) ++ [last])
        /\ (Nat.modulo (total - frame) hop = 0 ->
            audio_data last
            = audio_data (regular audio frame_length sr frame hop (count - 1))))%nat
    /\ (forall segments,
           frame_audio audio frame_length sr (Z.of_nat frame) (Z.of_nat hop)
           = Ok segments ->
           Forall (fun s => List.length (audio_data s) = frame) segments).
Proof.
  intros audio frame_length sr frame hop Hf Hh Hsr. cbv zeta.
  set (total := List.length audio).
  assert (Hsr0 : sr <> 0%Z) by lia.
  assert (Hrange : range_from_zero (Z.of_nat total - Z.of_nat frame + 1) (Z.of_nat hop)
                   = Ok (map (fun i => (Z.of_nat i * Z.of_nat hop)%Z)
                             (seq 0 (if (total <? frame)%nat then 0
                                     else (total - frame) / hop + 1)%nat))).
  { unfold range_from_zero.
    destruct (Z.eqb_spec (Z.of_nat hop) 0); [lia|].
    destruct (Z.ltb_spec 0 (Z.of_nat hop)); [|lia].
    do 3 f_equal.
    destruct (Nat.ltb_spec total frame) as [Hlt|Hge].
    - assert ((Z.of_nat total - Z.of_nat frame + 1 + Z.of_nat hop - 1)
              / Z.of_nat hop < 1)%Z; [|lia].
      apply Z.div_lt_upper_bound; lia.
    - replace (Z.of_nat total - Z.of_nat frame + 1 + Z.of_nat hop - 1)%Z
        with (Z.of_nat (total - frame) + 1 * Z.of_nat hop)%Z by lia.
      rewrite Z.div_add by lia. rewrite <- Nat2Z.inj_div. lia. }
  assert (Hfit : forall k, (frame <= total)%nat ->
                           In k (seq 0 ((total - frame) / hop + 1)) ->
                           (k * hop + frame <= total)%nat).
  { intros k Hge Hk. apply in_seq in Hk.
    assert (k <= (total - frame) / hop)%nat by lia.
    pose proof (Nat.Div0.mul_div_le (total - frame) hop) as M.
    assert (k * hop <= (total - frame) / hop * hop)%nat by (apply Nat.mul_le_mono_r; lia).
    lia. }
  unfold frame_audio, frame_audio_body. fold total. rewrite Hrange. cbn [bind].
  split; [|split; [|split]].
  - intros Hlt. destruct (Nat.ltb_spec total frame); [|lia]. cbn [seq map frames_loop bind].
    destruct (Z.ltb_spec (Z.of_nat frame) (Z.of_nat total)); [lia | reflexivity].
  - intros Heq. destruct (Nat.ltb_spec total frame); [lia|].
    replace ((total - frame) / hop + 1)%nat with 1%nat
      by (rewrite Heq, Nat.sub_diag, Nat.Div0.div_0_l; reflexivity).
    rewrite (frames_loop_regular audio frame_length sr frame hop [0%nat] Hsr0)
      by (intros k [<-|[]]; cbn; fold total; lia).
    cbn [bind app map].
    destruct (Z.ltb_spec (Z.of_nat frame) (Z.of_nat total)); [lia | reflexivity].
  - intros Hgt. destruct (Nat.ltb_spec total frame); [lia|].
    rewrite (frames_loop_regular audio frame_length sr frame hop _ Hsr0)
      by (intros k Hk; fold total; apply Hfit; [lia | exact Hk]).
    cbn [bind app].
    destruct (Z.ltb_spec (Z.of_nat frame) (Z.of_nat total)); [|lia].
    replace (Z.of_nat total - Z.of_nat frame)%Z with (Z.of_nat (total - frame)) by lia.
    rewrite slice_tail by (fold total; lia). fold total.
    replace (total - (total - frame))%nat with frame by lia.
    rewrite window_length by (fold total; lia).
    rewrite Z.ltb_irrefl. cbn [bind]. unfold seconds.
    destruct (Z.eqb_spec sr 0); [contradiction|]. cbn [bind].
    split.
    + reflexivity.
    + intros Hmod. cbn [audio_data regular]. f_equal.
      replace ((total - frame) / hop + 1 - 1)%nat with ((total - frame) / hop)%nat by lia.
      pose proof (Nat.Div0.div_mod (total - frame) hop) as D. rewrite Hmod in D. lia.
  - intros segments.
    destruct (Nat.ltb_spec total frame) as [Hlt|Hge].
    + cbn [seq map frames_loop bind].
      destruct (Z.ltb_spec (Z.of_nat frame) (Z.of_nat total)); [lia|].
      intros [= <-]. constructor.
    + rewrite (frames_loop_regular audio frame_length sr frame hop _ Hsr0)
        by (intros k Hk; fold total; apply Hfit; [lia | exact Hk]).
      cbn [bind app].
      assert (Hreg : Forall (fun s => List.length (audio_data s) = frame)
                            (map (regular audio frame_length sr frame hop)
                                 (seq 0 ((total - frame) / hop + 1)))).
      { apply Forall_forall. intros s Hs. apply in_map_iff in Hs.
        destruct Hs as (k & <- & Hk). cbn [audio_data regular].
        apply window_length. fold total. now apply Hfit. }
      destruct (Z.ltb_spec (Z.of_nat frame) (Z.of_nat total)) as [Hlt|Hnlt].
      * replace (Z.of_nat total - Z.of_nat frame)%Z with (Z.of_nat (total - frame)) by lia.
        rewrite slice_tail by (fold total; lia). fold total.
        replace (total - (total - frame))%nat with frame by lia.
        rewrite window_length by (fold total; lia).
        rewrite Z.ltb_irrefl. cbn [bind]. unfold seconds.
        destruct (Z.eqb_spec sr 0); [contradiction|]. cbn [bind].
        intros [= <-]. apply Forall_app. split; [exact Hreg|].
        constructor; [|constructor]. cbn [audio_data].
        apply window_length. fold total. lia.
      * intros [= <-]. exact Hreg.
Qed.

End Frames.

Lemma frame_audio_frames_witness :
  frame_audio 0%nat [1; 2; 3]%nat (1 # 40)%Q 16000 (Z.of_nat 4) (Z.of_nat 2) = Ok [].
Proof.
  refine (proj1 (frame_audio_frames 0%nat [1; 2; 3]%nat (1 # 40)%Q 16000 4 2 _ _ _) _);
    cbn; lia.
Defined.

(** Six samples, frames of four, hop two: the frame added for the rest
    repeats the second frame. *)
Example frame_audio_repeats_last_frame :
  match frame_audio 0%nat [1; 2; 3; 4; 5; 6]%nat (1 # 40)%Q 16000 4 2 with
  | Ok segments => map (@audio_data nat) segments
  | Raise _ => []
  end
  = [[1; 2; 3; 4]; [3; 4; 5; 6]; [3; 4; 5; 6]]%nat.
Proof. reflexivity. Qed.

End AudioSegments.

(* ================================================================== *)
(** * services/text_to_sign.py: timing of the actions *)
(* ================================================================== *)

Module SequenceScheduler.
Import Py.

Record SignAction := {
  action_id : pystr;
  action_name : pystr;
  text_source : pystr;
  duration : Q;
  intensity : Q;
  hand_shape : option pystr;
  movement : option pystr;
  location : option pystr;
  non_manual : list (pystr * pystr);
  start_time : Q;
  end_time : Q;
  confidence : Q
}.

Definition with_times (a : SignAction) (s e : Q) : SignAction :=
  {| action_id := action_id a; action_name := action_name a;
     text_source := text_source a; duration := duration a;
     intensity := intensity a; hand_shape := hand_shape a;
     movement := movement a; location := location a;
     non_manual := non_manual a; start_time := s; end_time := e;
     confidence := confidence a |}.

Definition with_rhythm (a : SignAction) (d i : Q) : SignAction :=
  {| action_id := action_id a; action_name := action_name a;
     text_source := text_source a; duration := d;
     intensity := i; hand_shape := hand_shape a;
     movement := movement a; location := location a;
     non_manual := non_manual a; start_time := start_time a;
     end_time := end_time a; confidence := confidence a |}.

(** [schedule] on a list of distinct action objects, as [translate] builds
    it. *)
Fixpoint schedule (pause_duration : Q) (actions : list SignAction)
         (current_time : Q) : list SignAction :=
  match actions with
  | [] => []
  | action :: rest =>
    let end_ := (current_time + duration action)%Q in
    with_times action current_time end_
    :: schedule pause_duration rest (end_ + pause_duration)%Q
  end.

(** The multiplier and the intensity of a rhythm pattern. *)
Definition rhythm_factors (rhythm_pattern : option pystr) : Q * Q :=
  match rhythm_pattern with
  | Some p =>
    if pystr_eqb p (u "fast") then ((8 # 10)%Q, (11 # 10)%Q)
    else if pystr_eqb p (u "slow") then ((12 # 10)%Q, (9 # 10)%Q)
    else if pystr_eqb p (u "expressive") then ((11 # 10)%Q, (12 # 10)%Q)
    else (1%Q, 1%Q)
  | None => (1%Q, 1%Q)
  end.

Definition add_rhythm (actions : list SignAction) (rhythm_pattern : option pystr)
  : list SignAction :=
  match actions with
  | [] => actions
  | _ =>
    let '(multiplier, intensity') := rhythm_factors rhythm_pattern in
    map (fun action =>
           with_rhythm action (duration action * multiplier)%Q
                       (intensity action * intensity')%Q)
        actions
  end.

Definition get_total_duration (actions : list SignAction) : Q :=
  match actions with
  | [] => 0%Q
  | first :: _ => (end_time (last actions first) - start_time first)%Q
  end.

(** What [TextToSignService.translate] does with the generated actions. *)
Definition timed (pause_duration : Q) (actions : list SignAction)
           (rhythm : option pystr) : list SignAction * Q :=
  let actions := schedule pause_duration actions 0 in
  let actions :=
    match rhythm with
    | Some r => if truthy r then add_rhythm actions rhythm else actions
    | None => actions
    end in
  (actions, get_total_duration actions).

Definition sumQ (l : list Q) : Q := fold_right Qplus 0%Q l.

Lemma schedule_length pause actions : forall t,
  List.length (schedule pause actions t) = List.length actions.
Proof.
  induction actions as [|a rest IH]; intros t; cbn; [reflexivity|].
  now rewrite IH.
Qed.

Lemma schedule_durations pause actions : forall t,
  map duration (schedule pause actions t) = map duration actions.
Proof.
  induction actions as [|a rest IH]; intros t; cbn; [reflexivity|].
  now rewrite IH.
Qed.

(** Each action ends its duration after its start, and the next one starts
    a pause later. *)
Fixpoint chained (pause : Q) (t : Q) (scheduled original : list SignAction) : Prop :=
  match scheduled, original with
  | [], [] => True
  | s :: scheduled', a :: original' =>
    start_time s = t /\ end_time s = (t + duration a)%Q
    /\ chained pause (t + duration a + pause)%Q scheduled' original'
  | _, _ => False
  end.

Lemma schedule_chained pause actions : forall t,
  chained pause t (schedule pause actions t) actions.
Proof.
  induction actions as [|a rest IH]; intros t; cbn; [exact I|].
  split; [reflexivity|]. split; [reflexivity|]. apply IH.
Qed.

Lemma schedule_last_end pause (a : SignAction) (rest : list SignAction) : forall t d,
  (end_time (last (schedule pause (a :: rest) t) d)
   == t + sumQ (map duration (a :: rest))
      + inject_Z (Z.of_nat (List.length rest)) * pause)%Q.
Proof.
  revert a. induction rest as [|b rest IH]; intros a t d.
  - cbn. ring.
  - change (schedule pause (a :: b :: rest) t)
      with (with_times a t (t + duration a)
            :: schedule pause (b :: rest) (t + duration a + pause)).
    change (last (with_times a t (t + duration a)
                  :: schedule pause (b :: rest) (t + duration a + pause)) d)
      with (last (schedule pause (b :: rest) (t + duration a + pause)) d).
    rewrite IH.
    change (sumQ (map duration (a :: b :: rest)))
      with (duration a + sumQ (map duration (b :: rest)))%Q.
    cbn [List.length]. rewrite Nat2Z.inj_succ, <- Z.add_1_r, inject_Z_plus. ring.
Qed.

Lemma add_rhythm_times (actions : list SignAction) (rhythm : option pystr) :
  map start_time (add_rhythm actions rhythm) = map start_time actions
  /\ map end_time (add_rhythm actions rhythm) = map end_time actions
  /\ map duration (add_rhythm actions rhythm)
     = map (fun a => (duration a * fst (rhythm_factors rhythm))%Q) actions
  /\ get_total_duration (add_rhythm actions rhythm) = get_total_duration actions.
Proof.
  unfold add_rhythm. destruct actions as [|a rest]; [repeat split|].
  destruct (rhythm_factors rhythm) as [m i]. cbn [fst].
  rewrite !map_map. cbn [start_time end_time duration with_rhythm].
  repeat split.
  unfold get_total_duration. cbn [map start_time with_rhythm]. f_equal.
  change (with_rhythm a (duration a * m) (intensity a * i)
          :: map (fun action => with_rhythm action (duration action * m)
                                            (intensity action * i)) rest)
    with (map (fun action => with_rhythm action (duration action * m)
                                         (intensity action * i)) (a :: rest)).
  generalize (a :: rest) as l. intros l. revert a.
  induction l as [|x l IH]; intros a; [reflexivity|].
  destruct l as [|y l]; [reflexivity|].
  change (last (map (fun action => with_rhythm action (duration action * m)
                                               (intensity action * i)) (x :: y :: l))
               (with_rhythm a (duration a * m) (intensity a * i)))
    with (last (map (fun action => with_rhythm action (duration action * m)
                                               (intensity action * i)) (y :: l))
               (with_rhythm a (duration a * m) (intensity a * i))).
  change (last (x :: y :: l) a) with (last (y :: l) a). apply IH.
Qed.

(** X24. The rhythm does not reach the schedule.  [translate] schedules the
    actions first and applies the rhythm afterwards; the rhythm multiplies
    the [duration] (and [intensity]) fields but leaves the start and end
    times as scheduled for the original durations.  So the start times, the
    end times and [total_duration] are the same for every rhythm: with
    actions, the total is the sum of the original durations plus one pause
    between neighbours, and each action's span [end_time - start_time] is
    its original duration, not the one its [duration] field shows. *)
Theorem rhythm_leaves_schedule :
  forall (pause_duration : Q) (actions : list SignAction) (rhythm : option pystr),
    let plain := schedule pause_duration actions 0 in
    let result := fst (timed pause_duration actions rhythm) in
    let total := snd (timed pause_duration actions rhythm) in
    List.length result = List.length actions
    /\ map start_time result = map start_time plain
    /\ map end_time result = map end_time plain
    /\ chained pause_duration 0 plain actions
    /\ total = snd (timed pause_duration actions None)
    /\ (actions <> [] ->
        (total == sumQ (map duration actions)
                  + inject_Z (Z.of_nat (List.length actions - 1)) * pause_duration)%Q)
    /\ (forall r, rhythm = Some r -> truthy r = true ->
                  map duration result
                  = map (fun a => (duration a * fst (rhythm_factors rhythm))%Q) actions).
Proof.
  intros pause actions rhythm. cbv zeta. unfold timed. cbn [fst snd].
  set (plain := schedule pause actions 0).
  assert (R : forall l,
             l = plain \/ l = add_rhythm plain rhythm ->
             List.length l = List.length actions
             /\ map start_time l = map start_time plain
             /\ map end_time l = map end_time plain
             /\ get_total_duration l = get_total_duration plain).
  { intros l [->| ->].
    - repeat split. apply schedule_length.
    - destruct (add_rhythm_times plain rhythm) as (A1 & A2 & _ & A4).
      split; [|auto].
      rewrite <- (length_map start_time), A1, length_map. apply schedule_length. }
  assert (Hsel : (match rhythm with
                  | Some r => if truthy r then add_rhythm plain rhythm else plain
                  | None => plain
                  end) = plain
                 \/ (match rhythm with
                     | Some r => if truthy r then add_rhythm plain rhythm else plain
                     | None => plain
                     end) = add_rhythm plain rhythm).
  { destruct rhythm as [r|]; [destruct (truthy r)|]; auto. }
  destruct (R _ Hsel) as (R1 & R2 & R3 & R4).
  split; [exact R1|]. split; [exact R2|]. split; [exact R3|].
  split; [apply schedule_chained|]. split; [exact R4|]. split.
  - intros Hne. rewrite R4. unfold plain.
    destruct actions as [|a rest]; [congruence|].
    unfold get_total_duration.
    change (schedule pause (a :: rest) 0)
      with (with_times a 0 (0 + duration a)
            :: schedule pause rest (0 + duration a + pause)).
    cbv iota. cbn [start_time with_times].
    change (with_times a 0 (0 + duration a)
            :: schedule pause rest (0 + duration a + pause))
      with (schedule pause (a :: rest) 0).
    rewrite schedule_last_end.
    replace (List.length (a :: rest) - 1)%nat with (List.length rest)
      by (cbn [List.length]; lia).
    ring.
  - intros r -> Hr. rewrite Hr.
    destruct (add_rhythm_times plain (Some r)) as (_ & _ & A3 & _).
    rewrite A3. unfold plain.
    rewrite <- (map_map duration (fun d => (d * fst (rhythm_factors (Some r)))%Q)).
    rewrite schedule_durations, map_map. reflexivity.
Qed.

(** Two actions of one second, pause 0.3, rhythm "fast": the durations
    shown are 0.8, the spans and the total are those of the plain
    schedule. *)
Example rhythm_fast_example :
  let a := {| action_id := u "x"; action_name := u "sign_x"; text_source := u "x";
              duration := 1; intensity := 1; hand_shape := None; movement := None;
              location := None; non_manual := []; start_time := 0; end_time := 1;
              confidence := 1 |} in
  let '(actions, total) := timed (3 # 10) [a; a] (Some (u "fast")) in
  map (fun x => (Qred (duration x), Qred (start_time x), Qred (end_time x))) actions
  = [((4 # 5)%Q, 0%Q, 1%Q); ((4 # 5)%Q, (13 # 10)%Q, (23 # 10)%Q)]
  /\ Qred total = (23 # 10)%Q.
Proof. split; reflexivity. Qed.

End SequenceScheduler.

(* ================================================================== *)
(** * services/sign_to_text.py: smoothing a gesture sequence *)
(* ================================================================== *)

Module SequenceSmoother.
Import Py.

Section Smoother.
Context {Landmarks : Type}.
(** [np.mean] of a list of floats; the order of the additions is NumPy's. *)
Variable np_mean : list Float64.float -> Float64.float.
(** [np.mean(..., axis=0).tolist()] on the landmark lists *)
Variable mean_landmarks : list Landmarks -> Landmarks.

Record SignGesture := {
  sign_id : pystr;
  text : pystr;
  confidence : Float64.float;
  timestamp : Float64.float;
  start_time : Float64.float;
  end_time : Float64.float;
  landmarks : option Landmarks;
  additional_info : list (pystr * pystr)
}.

Record t := {
  window_size : Z;
  min_duration : Float64.float;
  confidence_threshold : Float64.float
}.

Definition present (l : list (option Landmarks)) : list Landmarks :=
  flat_map (fun x => match x with Some v => [v] | None => [] end) l.

(** [_merge_gestures] on a list with first element [first] *)
Definition _merge_gestures (first : SignGesture) (others : list SignGesture)
  : SignGesture :=
  let gestures := first :: others in
  {| sign_id := sign_id first;
     text := text first;
     confidence := np_mean (map confidence gestures);
     timestamp := timestamp first;
     start_time := start_time first;
     end_time := end_time (last gestures first);
     landmarks :=
       match present (map landmarks gestures) with
       | [] => None
       | found => Some (mean_landmarks found)
       end;
     additional_info := [] |}.

(** [(next_gesture.timestamp - gesture.timestamp) < 1.0] *)
Definition close_in_time (next_gesture gesture : SignGesture) : bool :=
  Float64.ltb (Float64.sub (timestamp next_gesture) (timestamp gesture))
              Float64.one.

(** The inner loop: the gestures that follow [gesture] with its sign and
    less than a second after it. *)
Fixpoint followers (gesture : SignGesture) (rest : list SignGesture)
  : list SignGesture :=
  match rest with
  | [] => []
  | next_gesture :: rest' =>
    if pystr_eqb (sign_id next_gesture) (sign_id gesture)
       && close_in_time next_gesture gesture
    then next_gesture :: followers gesture rest'
    else []
  end.

(** [similar_gestures[-1].end_time - similar_gestures[0].start_time] *)
Definition duration_of (gesture : SignGesture) (similar : list SignGesture)
  : Float64.float :=
  Float64.sub (end_time (last (gesture :: similar) gesture)) (start_time gesture).

(** The outer loop from index [i]: [gestures] is the list from [i] on, and
    [skip] counts the elements up to the index the loop continues with
    ([i = j] after a merge). *)
Fixpoint smooth_from (self : t) (gestures : list SignGesture) (skip : nat)
  : list SignGesture :=
  match gestures with
  | [] => []
  | gesture :: rest =>
    match skip with
    | S k => smooth_from self rest k
    | O =>
      if Float64.ltb (confidence gesture) (confidence_threshold self) then
        smooth_from self rest 0
      else
        let similar := followers gesture rest in
        let duration := duration_of gesture similar in
        if Float64.leb (min_duration self) duration then
          _merge_gestures gesture similar
          :: smooth_from self rest (List.length similar)
        else smooth_from self rest 0
    end
  end.

Definition smooth_sequence (self : t) (gestures : list SignGesture)
  : list SignGesture :=
  smooth_from self gestures 0.

(** What an element of the result is made of. *)
Definition merged_from (self : t) (gestures : list SignGesture) (m : SignGesture)
  : Prop :=
  exists before first others after,
    gestures = before ++ first :: others ++ after
    /\ others = followers first (others ++ after)
    /\ m = _merge_gestures first others
    /\ Float64.ltb (confidence first) (confidence_threshold self) = false
    /\ Float64.leb (min_duration self)
                   (Float64.sub (end_time m) (start_time m)) = true
    /\ Forall (fun g => sign_id g = sign_id first
                        /\ Float64.ltb (Float64.sub (timestamp g) (timestamp first))
                                       Float64.one = true) others.

Lemma followers_prefix (g : SignGesture) (rest : list SignGesture) :
  exists after,
    rest = followers g rest ++ after
    /\ followers g rest = followers g (followers g rest ++ after)
    /\ Forall (fun x => sign_id x = sign_id g
                        /\ Float64.ltb (Float64.sub (timestamp x) (timestamp g))
                                       Float64.one = true)
              (followers g rest).
Proof.
  induction rest as [|x rest IH]; cbn [followers].
  - exists []. repeat split. constructor.
  - destruct (pystr_eqb (sign_id x) (sign_id g) && close_in_time x g) eqn:E.
    + destruct IH as (after & E1 & E2 & E3). exists after. cbn [app followers].
      rewrite E. split; [now rewrite <- E1|]. split; [now rewrite <- E2|].
      apply andb_true_iff in E. destruct E as [E Et].
      constructor; [|exact E3]. split; [|exact Et].
      unfold pystr_eqb in E.
      destruct (pystr_eq_dec (sign_id x) (sign_id g)); [assumption | discriminate].
    + exists (x :: rest). cbn [app followers]. rewrite E. repeat split. constructor.
Qed.

Lemma smooth_from_spec (self : t) (gestures : list SignGesture) :
  forall skip before,
    (List.length (smooth_from self gestures skip) <= List.length gestures - skip)%nat
    /\ Forall (merged_from self (before ++ gestures)) (smooth_from self gestures skip).
Proof.
  induction gestures as [|g rest IH]; intros skip before; cbn [smooth_from].
  - split; [cbn; lia | constructor].
  - assert (Hnext : forall k,
               (List.length (smooth_from self rest k) <= List.length rest - k)%nat
               /\ Forall (merged_from self (before ++ g :: rest))
                         (smooth_from self rest k)).
    { intros k. destruct (IH k (before ++ [g])) as [L F].
      rewrite <- app_assoc in F. cbn [app] in F. auto. }
    destruct skip as [|k].
    + destruct (Float64.ltb (confidence g) (confidence_threshold self)) eqn:Ec.
      * destruct (Hnext 0%nat) as [L F]. split; [cbn [List.length]; lia | exact F].
      * destruct (Float64.leb (min_duration self) (duration_of g (followers g rest)))
          eqn:Ed.
        -- destruct (Hnext (List.length (followers g rest))) as [L F].
           split; [cbn [List.length]; lia|].
           constructor; [|exact F].
           destruct (followers_prefix g rest) as (after & E1 & E2 & E3).
           exists before, g, (followers g rest), after.
           split; [now rewrite <- E1|]. split; [exact E2|]. split; [reflexivity|].
           split; [exact Ec|]. split; [exact Ed | exact E3].
        -- destruct (Hnext 0%nat) as [L F]. split; [cbn [List.length]; lia | exact F].
    + destruct (Hnext k) as [L F]. split; [cbn [List.length]; lia | exact F].
Qed.

(** X25. [smooth_sequence] in the code's own binary64 arithmetic.  It
    returns at most as many gestures as it was given.  Each returned gesture
    stands for a stretch of the input: a first gesture whose confidence is
    not below the threshold (a [nan] confidence passes), followed by all
    directly following gestures with its sign whose timestamp, minus the
    first one's and rounded, is below [1.0]; it carries the first gesture's
    sign, text, timestamp and start, the end of the last gesture of the
    stretch and NumPy's mean of the confidences of the whole stretch
    (followers are not filtered by confidence), and the rounded difference
    of its end and start is at least [min_duration].  A sequence that is one
    such stretch, begins with a gesture that passes the confidence test and
    passes the duration test is merged into a single gesture. *)
Theorem smooth_sequence_merges_runs :
  forall (self : t) (gestures : list SignGesture),
    (List.length (smooth_sequence self gestures) <= List.length gestures)%nat
    /\ Forall (merged_from self gestures) (smooth_sequence self gestures)
    /\ Forall (fun m => Float64.leb (min_duration self)
                                    (Float64.sub (end_time m) (start_time m)) = true
                        /\ exists first others,
                            In first gestures
                            /\ incl others gestures
                            /\ Float64.ltb (confidence first)
                                           (confidence_threshold self) = false
                            /\ sign_id m = sign_id first
                            /\ text m = text first
                            /\ timestamp m = timestamp first
                            /\ start_time m = start_time first
                            /\ end_time m = end_time (last others first)
                            /\ confidence m
                               = np_mean (map confidence (first :: others)))
              (smooth_sequence self gestures)
    /\ (forall first others,
           gestures = first :: others ->
           Float64.ltb (confidence first) (confidence_threshold self) = false ->
           followers first others = others ->
           Float64.leb (min_duration self)
                       (Float64.sub (end_time (last gestures first))
                                    (start_time first)) = true ->
           smooth_sequence self gestures = [_merge_gestures first others]).
Proof.
  intros self gestures. unfold smooth_sequence.
  destruct (smooth_from_spec self gestures 0 []) as [L F]. cbn [app] in F.
  split; [lia|]. split; [exact F|]. split.
  - eapply Forall_impl; [|exact F]. cbn beta.
    intros m (before & first & others & after & E & Ef & -> & Hc & Hd & Hs).
    split; [exact Hd|]. exists first, others.
    split; [rewrite E; apply in_or_app; right; now left|].
    split.
    { intros x Hx. rewrite E. apply in_or_app. right. right.
      apply in_or_app. now left. }
    split; [exact Hc|].
    cbn [sign_id text timestamp start_time end_time confidence _merge_gestures].
    repeat split.
    destruct others; reflexivity.
  - intros first others -> Hc Hf Hd. cbn [smooth_from].
    rewrite Hc, Hf. unfold duration_of. rewrite Hd. f_equal.
    assert (G : forall l : list SignGesture, smooth_from self l (List.length l) = []).
    { induction l as [|x l IH]; [reflexivity | exact IH]. }
    apply G.
Qed.

End Smoother.

Definition demo_gesture (c t_start t_end : Float64.float) : @SignGesture unit :=
  {| sign_id := u "a"; text := u "a"; confidence := c; timestamp := t_start;
     start_time := t_start; end_time := t_end; landmarks := None;
     additional_info := [] |}.

(** [SequenceSmoother()]: window 5, [min_duration] 0.3, threshold 0.6. *)
Definition default_smoother : t :=
  {| window_size := 5;
     min_duration := S754_finite false 5404319552844595 (-54);
     confidence_threshold := S754_finite false 5404319552844595 (-53) |}.

(** A confident gesture followed, half a second later, by an unsure one of
    the same sign: both are merged, and the merged confidence is the mean of
    0.9 and 0.1, whatever the threshold. *)
Example merged_confidence_counts_followers
        (np_mean : list Float64.float -> Float64.float) :
  let c09 := S754_finite false 8106479329266893 (-53) in
  let c01 := S754_finite false 7205759403792794 (-56) in
  let half := S754_finite false 4503599627370496 (-53) in
  map confidence
      (smooth_sequence np_mean (fun _ => tt) default_smoother
         [demo_gesture c09 Float64.zero half; demo_gesture c01 half Float64.one])
  = [np_mean [c09; c01]].
Proof. vm_compute. reflexivity. Qed.

(** A single gesture from 0.17 s to 0.47 s is dropped by the default
    smoother: the difference rounds to 0.29999999999999993, below the
    [min_duration] 0.3. *)
Example smooth_sequence_rounded_duration
        (np_mean : list Float64.float -> Float64.float) :
  let t017 := S754_finite false 6124895493223875 (-55) in
  let t047 := S754_finite false 8466767299456532 (-54) in
  let c09 := S754_finite false 8106479329266893 (-53) in
  Float64.sub t047 t017 = S754_finite false 5404319552844594 (-54)
  /\ smooth_sequence np_mean (fun _ => tt) default_smoother
       [demo_gesture c09 t017 t047] = [].
Proof. vm_compute. split; reflexivity. Qed.

End SequenceSmoother.

(* ================================================================== *)
(** * services/dual_translator.py: [evaluate_translation] *)
(* ================================================================== *)

Module QualityMetrics.
Import Py.

(** [self.metrics] *)
Record Metrics := {
  bleu_scores : list R;
  edit_distances : list Q;
  semantic_similarity_scores : list Q
}.

(** The dict returned; the two scores against the reference are present
    only with a reference. *)
Record Evaluation := {
  length_diff : Z;
  source_length : Z;
  translation_length : Z;
  bleu_score : option R;
  edit_similarity : option Q;
  semantic_similarity : Q
}.

(** [TranslationQualityEvaluator()] and [reset_metrics] *)
Definition no_metrics : Metrics :=
  {| bleu_scores := []; edit_distances := []; semantic_similarity_scores := [] |}.

Definition evaluate_translation (metrics : Metrics) (source translation : pystr)
           (reference : option pystr) : result Evaluation * Metrics :=
  let source_len := Z.of_nat (List.length source) in
  let translation_len := Z.of_nat (List.length translation) in
  let scored :=
    match reference with
    | Some r =>
      if truthy r then
        bleu <- DualTranslator.evaluate_bleu r translation 4 ;;
        Ok (Some (bleu, QualityEvaluator.evaluate_edit_distance r translation))
      else Ok None
    | None => Ok None
    end in
  match scored with
  | Raise e => (Raise e, metrics)
  | Ok scores =>
    let metrics1 :=
      match scores with
      | Some (bleu, edit) =>
        {| bleu_scores := bleu_scores metrics ++ [bleu];
           edit_distances := edit_distances metrics ++ [edit];
           semantic_similarity_scores := semantic_similarity_scores metrics |}
      | None => metrics
      end in
    let similarity := QualityEvaluator._semantic_similarity source translation in
    (Ok {| length_diff := Z.abs (source_len - translation_len);
           source_length := source_len;
           translation_length := translation_len;
           bleu_score := option_map fst scores;
           edit_similarity := option_map snd scores;
           semantic_similarity := similarity |},
     {| bleu_scores := bleu_scores metrics1;
        edit_distances := edit_distances metrics1;
        semantic_similarity_scores :=
          semantic_similarity_scores metrics1 ++ [similarity] |})
  end.

(** The metrics after a sequence of calls, whatever they raise. *)
Definition run (calls : list (pystr * pystr * option pystr)) (metrics : Metrics)
  : Metrics :=
  fold_left (fun m '(source, translation, reference) =>
               snd (evaluate_translation m source translation reference))
            calls metrics.

Lemma evaluate_bleu_no_words (reference hypothesis : pystr) (n : Z) :
  split hypothesis = [] -> DualTranslator.evaluate_bleu reference hypothesis n = Ok 0%R.
Proof.
  intros H. unfold DualTranslator.evaluate_bleu.
  destruct (negb (truthy reference) || negb (truthy hypothesis)); [reflexivity|].
  now rewrite H.
Qed.

Lemma evaluate_translation_lengths (metrics : Metrics) (source translation : pystr)
      (reference : option pystr) :
  let m := snd (evaluate_translation metrics source translation reference) in
  (List.length (bleu_scores m) - List.length (bleu_scores metrics)
   = List.length (edit_distances m) - List.length (edit_distances metrics))%nat
  /\ (List.length (bleu_scores metrics) <= List.length (bleu_scores m))%nat
  /\ (List.length (edit_distances metrics) <= List.length (edit_distances m))%nat
  /\ (List.length (bleu_scores m) - List.length (bleu_scores metrics)
      <= List.length (semantic_similarity_scores m)
         - List.length (semantic_similarity_scores metrics))%nat
  /\ (List.length (semantic_similarity_scores metrics)
      <= List.length (semantic_similarity_scores m))%nat.
Proof.
  cbv zeta. unfold evaluate_translation.
  destruct reference as [r|]; [destruct (truthy r)|].
  - destruct (DualTranslator.evaluate_bleu r translation 4); cbn;
      rewrite ?length_app; cbn; lia.
  - cbn. rewrite ?length_app. cbn. lia.
  - cbn. rewrite ?length_app. cbn. lia.
Qed.

(** X26. [evaluate_translation] and its metrics.  Without a reference (or
    with an empty one) the call returns and records one semantic similarity
    only.  With a reference that has more words than a translation of at
    least one word, the call ends in the [NameError] of [evaluate_bleu]
    before anything is recorded.  With any other reference it returns and
    records one entry in each of the three lists.  After any sequence of
    calls on new metrics there are as many BLEU scores as edit similarities
    and at least as many semantic similarities. *)
Theorem evaluate_translation_metrics :
  (forall metrics source translation reference,
      reference = None \/ reference = Some [] ->
      exists e,
        evaluate_translation metrics source translation reference
        = (Ok e,
           {| bleu_scores := bleu_scores metrics;
              edit_distances := edit_distances metrics;
              semantic_similarity_scores :=
                semantic_similarity_scores metrics
                ++ [QualityEvaluator._semantic_similarity source translation] |})
        /\ bleu_score e = None /\ edit_similarity e = None)
  /\ (forall metrics source translation r,
         split translation <> [] ->
         (List.length (split translation) < List.length (split r))%nat ->
         evaluate_translation metrics source translation (Some r)
         = (Raise DualTranslator.np_unbound, metrics))
  /\ (forall metrics source translation r,
         truthy r = true ->
         split translation = []
         \/ (List.length (split r) <= List.length (split translation))%nat ->
         exists e bleu,
           evaluate_translation metrics source translation (Some r)
           = (Ok e,
              {| bleu_scores := bleu_scores metrics ++ [bleu];
                 edit_distances :=
                   edit_distances metrics
                   ++ [QualityEvaluator.evaluate_edit_distance r translation];
                 semantic_similarity_scores :=
                   semantic_similarity_scores metrics
                   ++ [QualityEvaluator._semantic_similarity source translation] |})
           /\ bleu_score e = Some bleu)
  /\ (forall calls,
         let m := run calls no_metrics in
         List.length (bleu_scores m) = List.length (edit_distances m)
         /\ (List.length (bleu_scores m)
             <= List.length (semantic_similarity_scores m))%nat
         /\ (List.length (semantic_similarity_scores m) <= List.length calls)%nat).
Proof.
  split; [|split; [|split]].
  - intros metrics source translation reference [-> | ->];
      (eexists; split; [reflexivity | split; reflexivity]).
  - intros metrics source translation r Hne Hlt. unfold evaluate_translation.
    assert (Hr : truthy r = true).
    { destruct r; [cbn in Hlt; lia | reflexivity]. }
    rewrite Hr.
    rewrite (DualTranslator.evaluate_bleu_shorter r translation 4) by (lia || assumption).
    reflexivity.
  - intros metrics source translation r Hr Hcase. unfold evaluate_translation.
    rewrite Hr.
    assert (Hb : exists bleu, DualTranslator.evaluate_bleu r translation 4 = Ok bleu).
    { destruct (split translation) as [|w ws] eqn:Es.
      - exists 0%R. now apply evaluate_bleu_no_words.
      - destruct Hcase as [H|H]; [discriminate|]. eexists.
        apply DualTranslator.evaluate_bleu_not_shorter; try assumption; try lia;
          rewrite Es; [discriminate | exact H]. }
    destruct Hb as (bleu & ->). cbn [bind]. eexists. exists bleu.
    split; reflexivity.
  - intros calls. cbv zeta.
    assert (G : forall m0,
               let m := run calls m0 in
               (List.length (bleu_scores m) - List.length (bleu_scores m0)
                = List.length (edit_distances m) - List.length (edit_distances m0))%nat
               /\ (List.length (bleu_scores m0) <= List.length (bleu_scores m))%nat
               /\ (List.length (edit_distances m0) <= List.length (edit_distances m))%nat
               /\ (List.length (bleu_scores m) - List.length (bleu_scores m0)
                   <= List.length (semantic_similarity_scores m)
                      - List.length (semantic_similarity_scores m0))%nat
               /\ (List.length (semantic_similarity_scores m0)
                   <= List.length (semantic_similarity_scores m))%nat
               /\ (List.length (semantic_similarity_scores m)
                   <= List.length (semantic_similarity_scores m0)
                      + List.length calls)%nat).
    { induction calls as [|[[source translation] reference] rest IH]; intros m0.
      - cbn. lia.
      - cbn [run fold_left].
        pose proof (evaluate_translation_lengths m0 source translation reference) as St.
        cbv zeta in St, IH |- *.
        set (m1 := snd (evaluate_translation m0 source translation reference)) in *.
        specialize (IH m1). unfold run in IH.
        assert (T : (List.length (semantic_similarity_scores m1)
                     <= S (List.length (semantic_similarity_scores m0)))%nat).
        { unfold m1, evaluate_translation.
          destruct reference as [r|]; [destruct (truthy r)|];
            try (cbn; rewrite ?length_app; cbn; lia).
          destruct (DualTranslator.evaluate_bleu r translation 4); cbn;
            rewrite ?length_app; cbn; lia. }
        cbn [List.length]. lia. }
    specialize (G no_metrics). cbv zeta in G. cbn [no_metrics bleu_scores edit_distances
                                                   semantic_similarity_scores List.length] in G.
    lia.
Qed.

End QualityMetrics.

(* ================================================================== *)
(** * services/text_to_sign.py: the tokenizer *)
(* ================================================================== *)

Module TextTokenizer.
Import Py.

Definition POS_TAGS : @dict pystr pystr :=
  [ (u "我", u "pronoun");
    (u "你", u "pronoun");
    (u "他", u "pronoun");
    (u "她", u "pronoun");
    (u "我们", u "pronoun");
    (u "你们", u "pronoun");
    (u "他们", u "pronoun");
    (u "这", u "pronoun");
    (u "那", u "pronoun");
    (u "今天", u "time");
    (u "明天", u "time");
    (u "昨天", u "time");
    (u "现在", u "time");
    (u "刚才", u "time");
    (u "晚上", u "time");
    (u "早上", u "time");
    (u "来", u "verb");
    (u "去", u "verb");
    (u "看", u "verb");
    (u "听", u "verb");
    (u "说", u "verb");
    (u "做", u "verb");
    (u "吃", u "verb");
    (u "喝", u "verb");
    (u "喜欢", u "verb");
    (u "爱", u "verb");
    (u "想", u "verb");
    (u "要", u "verb");
    (u "书", u "noun");
    (u "手", u "noun");
    (u "眼睛", u "noun");
    (u "耳朵", u "noun");
    (u "家", u "noun");
    (u "学校", u "noun");
    (u "医院", u "noun");
    (u "朋友", u "noun") ].

Definition STOPWORDS : list pystr :=
  map u [ "的"; "了"; "在"; "是"; "我"; "有"; "和"; "就"; "不"; "人"; "都"; "一"; "一个"; "上"; "也"; "很"; "到"; "说"; "要"; "去" ]%string.

(** The two-character words the loop merges. *)
Definition merged_words : list pystr :=
  map u [ "早上"; "晚上"; "今天"; "明天"; "我们"; "你们" ]%string.

Record Token := {
  text : pystr;
  pos : pystr;
  is_stopword : bool;
  confidence : Q
}.

Definition in_list (x : pystr) (l : list pystr) : bool :=
  if in_dec pystr_eq_dec x l then true else false.

Section Tokenizer.
(** [\w] of [re] on a [str]: the alphanumeric characters of Unicode and the
    underscore. *)
Variable is_word : N -> bool.

(** What [re.sub(r'[^\w\s一-鿿]', '', text)] keeps. *)
Definition kept (c : N) : bool :=
  is_word c || isspace c || ((19968 <=? c) && (c <=? 40959))%N.

(** [[c] if c.strip() else []] *)
Definition single (c : N) : list pystr :=
  if isspace c then [] else [[c]].

(** The loop over [chars] from index [i]. *)
Fixpoint merge_words (chars : list N) : list pystr :=
  match chars with
  | [] => []
  | c :: following =>
    match following with
    | c2 :: rest =>
      if in_list [c; c2] merged_words then [c; c2] :: merge_words rest
      else single c ++ merge_words following
    | [] => single c ++ merge_words following
    end
  end.

Definition token_of (use_stopwords : bool) (word : pystr) : Token :=
  {| text := word;
     pos := match dict_get pystr_eq_dec POS_TAGS word with
            | Some p => p
            | None => u "unknown"
            end;
     is_stopword := if use_stopwords then in_list word STOPWORDS else false;
     confidence := 1 |}.

Definition tokenize (use_stopwords : bool) (text' : pystr) : list Token :=
  let text' := strip text' in
  let text' := filter kept text' in
  if negb (truthy text') then []
  else
    let words := merge_words text' in
    let tokens := map (token_of use_stopwords) words in
    if use_stopwords
    then filter (fun t => negb (is_stopword t) || pystr_eqb (pos t) (u "time")) tokens
    else tokens.

(** [get_pos_tags] *)
Definition get_pos_tags (tokens : list Token) : list pystr := map pos tokens.

(** A word the loop can produce. *)
Definition producible (word : pystr) : Prop :=
  In word merged_words \/ exists c, word = [c] /\ isspace c = false.

Lemma merge_words_two (c c2 : N) (rest : list N) :
  merge_words (c :: c2 :: rest)
  = if in_list [c; c2] merged_words then [c; c2] :: merge_words rest
    else single c ++ merge_words (c2 :: rest).
Proof. reflexivity. Qed.

Lemma single_producible (c : N) : Forall producible (single c).
Proof.
  unfold single. destruct (isspace c) eqn:E; constructor; [|constructor].
  right. exists c. split; [reflexivity | exact E].
Qed.

Lemma in_list_In (x : pystr) (l : list pystr) : in_list x l = true <-> In x l.
Proof.
  unfold in_list. destruct (in_dec pystr_eq_dec x l); split; intro H;
    try assumption; try reflexivity; try discriminate; contradiction.
Qed.

Lemma merge_words_producible (chars : list N) : Forall producible (merge_words chars).
Proof.
  assert (G : forall n cs, (List.length cs <= n)%nat ->
                           Forall producible (merge_words cs)).
  { induction n as [|n IH]; intros cs Hn.
    - destruct cs; [constructor | cbn in Hn; lia].
    - destruct cs as [|c [|c2 rest]].
      + constructor.
      + cbn [merge_words]. rewrite app_nil_r. apply single_producible.
      + rewrite merge_words_two.
        destruct (in_list [c; c2] merged_words) eqn:E.
        * constructor.
          -- left. apply in_list_In. exact E.
          -- apply IH. cbn [List.length] in Hn |- *. lia.
        * apply Forall_app. split; [apply single_producible|].
          apply IH. cbn [List.length] in Hn |- *. lia. }
  apply (G (List.length chars)). lia.
Qed.

(** No stop word is tagged as a time word. *)
Lemma stopwords_not_time :
  forallb (fun w => negb (pystr_eqb (pos (token_of true w)) (u "time"))) STOPWORDS = true.
Proof. vm_compute. reflexivity. Qed.

Lemma keep_rule (w : pystr) :
  negb (is_stopword (token_of true w)) || pystr_eqb (pos (token_of true w)) (u "time")
  = negb (in_list w STOPWORDS).
Proof.
  change (is_stopword (token_of true w)) with (in_list w STOPWORDS).
  destruct (in_list w STOPWORDS) eqn:E; [|reflexivity].
  apply in_list_In in E.
  pose proof (proj1 (forallb_forall _ _) stopwords_not_time w E) as H.
  cbn [negb orb]. now apply negb_true_iff in H.
Qed.

Lemma producible_length (w : pystr) : producible w -> (List.length w <= 2)%nat.
Proof.
  intros [H | (c & -> & _)]; [|cbn; lia].
  assert (G : forallb (fun m => Nat.eqb (List.length m) 2) merged_words = true)
    by (vm_compute; reflexivity).
  pose proof (proj1 (forallb_forall _ _) G w H) as E.
  apply Nat.eqb_eq in E. lia.
Qed.

Lemma merged_words_pos (use_stopwords : bool) (w : pystr) :
  In w merged_words ->
  pos (token_of use_stopwords w) = u "time" \/ pos (token_of use_stopwords w) = u "pronoun".
Proof.
  intro H.
  assert (G : forallb (fun m => pystr_eqb (pos (token_of use_stopwords m)) (u "time")
                                || pystr_eqb (pos (token_of use_stopwords m)) (u "pronoun"))
                      merged_words = true)
    by (destruct use_stopwords; vm_compute; reflexivity).
  pose proof (proj1 (forallb_forall _ _) G w H) as E.
  apply orb_true_iff in E. unfold pystr_eqb in E.
  destruct E as [E | E]; [left | right];
    match type of E with
    | (if ?d then _ else _) = _ => destruct d; [assumption | discriminate]
    end.
Qed.

Lemma producible_two (w : pystr) :
  producible w -> List.length w = 2%nat -> In w merged_words.
Proof.
  intros [H | (c & -> & _)] Hl; [exact H | cbn in Hl; lia].
Qed.

(** The tokens made from the words of the loop. *)
Definition tokens_of (use_stopwords : bool) (words : list pystr) : list Token :=
  let tokens := map (token_of use_stopwords) words in
  if use_stopwords
  then filter (fun t => negb (is_stopword t) || pystr_eqb (pos t) (u "time")) tokens
  else tokens.

Lemma tokenize_words (use_stopwords : bool) (text' : pystr) :
  tokenize use_stopwords text'
  = tokens_of use_stopwords
      (if truthy (filter kept (strip text')) then merge_words (filter kept (strip text'))
       else []).
Proof.
  unfold tokenize, tokens_of.
  destruct (truthy (filter kept (strip text'))); cbn [negb]; [reflexivity|].
  destruct use_stopwords; reflexivity.
Qed.

Lemma tokens_of_In (use_stopwords : bool) (words : list pystr) (t : Token) :
  In t (tokens_of use_stopwords words) ->
  exists w, In w words /\ t = token_of use_stopwords w
            /\ (use_stopwords = true -> in_list w STOPWORDS = false).
Proof.
  unfold tokens_of. destruct use_stopwords.
  - intro H. apply filter_In in H as [H K]. apply in_map_iff in H as (w & <- & Hw).
    exists w. split; [exact Hw|]. split; [reflexivity|]. intros _.
    rewrite keep_rule in K. now apply negb_true_iff in K.
  - intro H. apply in_map_iff in H as (w & <- & Hw).
    exists w. split; [exact Hw|]. split; [reflexivity|]. discriminate.
Qed.

(** X27. The tokens of [tokenize].  Every token is a single character that
    is not white space or one of the six merged two-character words, tagged
    from [POS_TAGS] (or [unknown]) with confidence 1; so the longer entries
    of [POS_TAGS] other than these six never tag anything.  With the stop
    word filter on, no token is a stop word: the exemption for time words
    never applies, since no stop word is tagged [time]; the pronoun of the
    first person and the verbs for say, want and go are among the words
    dropped. *)
Theorem tokenize_tokens :
  forall (use_stopwords : bool) (text' : pystr),
    let tokens := tokenize use_stopwords text' in
    Forall (fun t => producible (text t)
                     /\ (List.length (text t) <= 2)%nat
                     /\ t = token_of use_stopwords (text t)) tokens
    /\ (use_stopwords = true ->
        Forall (fun t => ~ In (text t) STOPWORDS /\ is_stopword t = false) tokens)
    /\ (use_stopwords = true ->
        tokens = filter (fun t => negb (in_list (text t) STOPWORDS))
                        (map (fun t => token_of true (text t))
                             (tokenize false text')))
    /\ (forall t, In t tokens -> List.length (text t) = 2%nat ->
                  In (text t) merged_words
                  /\ (pos t = u "time" \/ pos t = u "pronoun")).
Proof.
  intros use_stopwords text' tokens. subst tokens.
  rewrite !tokenize_words.
  set (words := if truthy (filter kept (strip text'))
                then merge_words (filter kept (strip text')) else []).
  assert (Hw : Forall producible words).
  { subst words. destruct (truthy _); [apply merge_words_producible | constructor]. }
  rewrite Forall_forall in Hw.
  split; [|split; [|split]].
  - apply Forall_forall. intros t Ht.
    apply tokens_of_In in Ht as (w & Hin & -> & _).
    cbn [text token_of]. split; [apply Hw; exact Hin|].
    split; [apply producible_length, Hw; exact Hin | reflexivity].
  - intros ->. apply Forall_forall. intros t Ht.
    apply tokens_of_In in Ht as (w & Hin & -> & Hs). specialize (Hs eq_refl).
    split.
    + intro K. apply in_list_In in K. cbn [text token_of] in K. congruence.
    + exact Hs.
  - intros ->. unfold tokens_of. rewrite map_map. cbn [text token_of].
    apply filter_ext_in. intros t Ht. apply in_map_iff in Ht as (w & <- & _).
    apply keep_rule.
  - intros t Ht Hl.
    apply tokens_of_In in Ht as (w & Hin & -> & _).
    cbn [text token_of] in Hl |- *.
    pose proof (producible_two w (Hw w Hin) Hl) as Hm.
    split; [exact Hm|]. exact (merged_words_pos use_stopwords w Hm).
Qed.

End Tokenizer.

Lemma kept_cjk (is_word : N -> bool) (s : pystr) :
  forallb (fun c => (19968 <=? c) && (c <=? 40959))%N s = true ->
  filter (kept is_word) s = s.
Proof.
  induction s as [|c s IH]; [reflexivity|].
  cbn [forallb filter]. intro H. apply andb_true_iff in H as [Hc Hs].
  unfold kept at 1. rewrite Hc, orb_true_r, IH by exact Hs. reflexivity.
Qed.

(** The sentence for "I go to school" keeps neither its pronoun nor its
    verb, and the noun for school is tagged character by character. *)
Example tokenize_drops_pronoun_and_verb (is_word : N -> bool) :
  map (fun t => (text t, pos t)) (tokenize is_word true (u "我去学校"))
  = [(u "学", u "unknown"); (u "校", u "unknown")].
Proof.
  unfold tokenize.
  replace (strip (u "我去学校")) with (u "我去学校") by (vm_compute; reflexivity).
  rewrite kept_cjk by (vm_compute; reflexivity).
  vm_compute. reflexivity.
Qed.

End TextTokenizer.
